(** * Repo Oracle: the response cache, the fetcher and the paginator

    A shallow embedding of the request layer of [src/repo-oracle/server.py]
    (class [LRU], [_cache_key], [_get], [_get_all]) together with the
    properties its specification states about it.

    Conventions of the embedding.
    - A Python [str] is a [string]: a sequence of code points, restricted to
      the code points below 256 (one [ascii] each).
    - A Python [int] is a [Z].
    - The values that travel through the layer (query parameters, parsed
      response bodies, the dictionaries the functions return) are the JSON
      shaped Python values of type [value]; numbers with a fractional part
      are not represented.
    - A Python [dict] is an association list in insertion order; so is the
      [OrderedDict] of the cache, oldest entry first.
    - The functions with effects run in a state made of the module level
      [CACHE] and of the trace of the effects so far: the requests sent, the
      pauses, the writes to the cache. They return a value or raise.
    - The length of a pause is a rational number of seconds; [time.sleep]
      raises on a negative one.
    - The [while] loop of [_get_all] is a fixpoint on a number of allowed
      iterations; [max_pages] iterations are shown to be enough. *)

From Stdlib Require Import ZArith List String Ascii Bool Lia Permutation.
From Stdlib Require Import Sorted RelationClasses.
From Stdlib Require Import DecimalString DecimalZ.
From Stdlib Require Import OrdersEx.
From Stdlib Require Import QArith.
Import ListNotations.
Close Scope Q_scope.
Local Open Scope string_scope.
Local Open Scope Z_scope.

(** ** Python values *)

#[local] Unset Elimination Schemes.
Inductive value : Type :=
| VNone
| VBool (b : bool)
| VInt (n : Z)
| VStr (s : string)
| VList (l : list value)
| VDict (d : list (string * value)).
#[local] Set Elimination Schemes.

Abbreviation dict := (list (string * value)).

(** Induction on values, through the lists and dictionaries. *)
Section ValueInd.
Variable P : value -> Prop.
Hypothesis HNone : P VNone.
Hypothesis HBool : forall b, P (VBool b).
Hypothesis HInt : forall n, P (VInt n).
Hypothesis HStr : forall s, P (VStr s).
Hypothesis HList : forall l, Forall P l -> P (VList l).
Hypothesis HDict : forall d, Forall (fun kv => P (snd kv)) d -> P (VDict d).

Fixpoint value_ind (v : value) : P v :=
  match v with
  | VNone => HNone
  | VBool b => HBool b
  | VInt n => HInt n
  | VStr s => HStr s
  | VList l =>
      HList l
        ((fix all (l : list value) : Forall P l :=
            match l with
            | [] => Forall_nil P
            | x :: l' => Forall_cons x (value_ind x) (all l')
            end) l)
  | VDict d =>
      HDict d
        ((fix all (d : dict) : Forall (fun kv => P (snd kv)) d :=
            match d with
            | [] => Forall_nil _
            | (k, x) :: d' =>
                Forall_cons (P := fun kv => P (snd kv)) (k, x) (value_ind x) (all d')
            end) d)
  end.
End ValueInd.

(** ** Dictionaries *)

Module Dict.

(** [k in d] *)
Fixpoint mem (k : string) (d : dict) : bool :=
  match d with
  | [] => false
  | (k', _) :: d' => if String.eqb k' k then true else mem k d'
  end.

(** [d.get(k)]; [None] when the key is missing. *)
Fixpoint get (k : string) (d : dict) : option value :=
  match d with
  | [] => None
  | (k', v) :: d' => if String.eqb k' k then Some v else get k d'
  end.

(** [d[k] = v]: an existing key keeps its position, a new key goes last. *)
Fixpoint set (k : string) (v : value) (d : dict) : dict :=
  match d with
  | [] => [(k, v)]
  | (k', v') :: d' =>
      if String.eqb k' k then (k', v) :: d' else (k', v') :: set k v d'
  end.

(** The dictionary without the key [k]. *)
Fixpoint remove (k : string) (d : dict) : dict :=
  match d with
  | [] => []
  | (k', v') :: d' =>
      if String.eqb k' k then remove k d' else (k', v') :: remove k d'
  end.

(** [d.move_to_end(k)] of an [OrderedDict]; [None] stands for the
    [KeyError] raised when the key is missing. *)
Definition move_to_end (k : string) (d : dict) : option dict :=
  match get k d with
  | Some v => Some (remove k d ++ [(k, v)])%list
  | None => None
  end.

(** [d.popitem(last=False)]: drops the oldest entry; [None] stands for
    the [KeyError] raised on an empty dictionary. *)
Definition popitem_first (d : dict) : option ((string * value) * dict) :=
  match d with
  | [] => None
  | e :: d' => Some (e, d')
  end.

Definition keys (d : dict) : list string := map fst d.

(** [len(d)] *)
Definition len (d : dict) : Z := Z.of_nat (List.length d).

(** [{**d, k: v}] *)
Definition merged (d : dict) (k : string) (v : value) : dict := set k v d.

End Dict.

(** ** Strings *)

Definition dquote : ascii := "034"%char.

(** The string of one character. *)
Definition str1 (c : ascii) : string := String c EmptyString.

(** [str(n)] for an [int]. *)
Definition str_of_int (n : Z) : string := NilZero.string_of_int (Z.to_int n).

(** [c.lower()] on the code points below 256: the letters [A-Z] and the
    accented capitals U+00C0..U+00DE, except the sign U+00D7. *)
Definition lower_char (c : ascii) : ascii :=
  let n := N_of_ascii c in
  if ((65 <=? n) && (n <=? 90)
      || (192 <=? n) && (n <=? 222) && negb (n =? 215))%N
  then ascii_of_N (n + 32) else c.

(** [s.lower()] *)
Fixpoint lower (s : string) : string :=
  match s with
  | EmptyString => EmptyString
  | String c s' => String (lower_char c) (lower s')
  end.

(** [s.startswith(p)] *)
Definition startswith (s p : string) : bool := String.prefix p s.

(** [sub in s] *)
Fixpoint contains (sub s : string) : bool :=
  String.prefix sub s
  || match s with
     | EmptyString => false
     | String _ s' => contains sub s'
     end.

(** [s[:n]] *)
Definition str_take (n : nat) (s : string) : string := String.substring 0 n s.

(** ** [json.dumps(..., sort_keys=True)]

    The encoder with its defaults: [ensure_ascii=True] and the separators
    [", "] and [": "]. *)

Definition hex_digit (n : N) : ascii :=
  if (n <? 10)%N then ascii_of_N (48 + n) else ascii_of_N (87 + n).

(** One character of a string literal: the short escapes, the character
    itself between space and [~], and [\u00xx] for every other code point. *)
Definition escape_char (c : ascii) : string :=
  let n := N_of_ascii c in
  if (n =? 34)%N then String "\" (str1 dquote)
  else if (n =? 92)%N then "\\"
  else if (n =? 10)%N then "\n"
  else if (n =? 13)%N then "\r"
  else if (n =? 9)%N then "\t"
  else if (n =? 8)%N then "\b"
  else if (n =? 12)%N then "\f"
  else if ((32 <=? n) && (n <=? 126))%N then str1 c
  else "\u00" ++ str1 (hex_digit (n / 16)) ++ str1 (hex_digit (n mod 16)).

Fixpoint escape (s : string) : string :=
  match s with
  | EmptyString => EmptyString
  | String c s' => escape_char c ++ escape s'
  end.

(** A string literal. *)
Definition encode_str (s : string) : string :=
  String dquote (escape s ++ str1 dquote).

(** [sorted(items)] on the entries of a dictionary. Python compares the
    [(key, value)] tuples; the keys of a dictionary are distinct, so the
    comparison is decided by the keys, compared code point by code point.
    The sort is an insertion sort that keeps equal keys in order. *)
Section SortItems.
Context {A : Type}.

Definition key_leb (k1 k2 : string) : bool :=
  match String_as_OT.compare k1 k2 with
  | Gt => false
  | _ => true
  end.

Fixpoint insert_item (e : string * A) (l : list (string * A)) : list (string * A) :=
  match l with
  | [] => [e]
  | e' :: l' =>
      if key_leb (fst e) (fst e') then e :: l else e' :: insert_item e l'
  end.

Fixpoint sort_items (l : list (string * A)) : list (string * A) :=
  match l with
  | [] => []
  | e :: l' => insert_item e (sort_items l')
  end.
End SortItems.

(** One [key: value] member, the value already encoded. *)
Definition encode_member (m : string * string) : string :=
  encode_str (fst m) ++ ": " ++ snd m.

(** The encoder. The members of a dictionary are encoded and then put in
    key order, which yields the same text as sorting the entries first
    (lemma [dumps_dict_sorted_first]). *)
Fixpoint dumps (v : value) : string :=
  match v with
  | VNone => "null"
  | VBool true => "true"
  | VBool false => "false"
  | VInt n => str_of_int n
  | VStr s => encode_str s
  | VList l => "[" ++ String.concat ", " (map dumps l) ++ "]"
  | VDict d =>
      "{" ++ String.concat ", "
               (map encode_member
                  (sort_items (map (fun kv => (fst kv, dumps (snd kv))) d)))
          ++ "}"
  end.

(** ** [_cache_key] *)

Definition _cache_key (path : string) (params : dict) : string :=
  path ++ "?" ++ dumps (VDict params).

(** ** The cache: class [LRU] *)

Record LRU : Type := mkLRU { maxsize : Z; _d : dict }.

(** [LRU(maxsize)] *)
Definition LRU_init (maxsize : Z) : LRU := mkLRU maxsize [].

(** [LRU.get]: the returned Python value ([None] for a missing key) and the
    cache afterwards. The outer [option] is [None] when a [KeyError]
    escapes. *)
Definition LRU_get (c : LRU) (k : string) : option (value * LRU) :=
  if Dict.mem k (_d c) then
    match Dict.move_to_end k (_d c) with
    | Some d1 =>
        match Dict.get k d1 with
        | Some v => Some (v, mkLRU (maxsize c) d1)
        | None => None
        end
    | None => None
    end
  else Some (VNone, c).

(** [LRU.set] *)
Definition LRU_set (c : LRU) (k : string) (v : value) : option LRU :=
  let d1 := Dict.set k v (_d c) in
  match Dict.move_to_end k d1 with
  | Some d2 =>
      if Dict.len d2 >? maxsize c then
        match Dict.popitem_first d2 with
        | Some (_, d3) => Some (mkLRU (maxsize c) d3)
        | None => None
        end
      else Some (mkLRU (maxsize c) d2)
  | None => None
  end.

(** Sequences of cache operations. *)
Inductive op : Type :=
| OpGet (k : string)
| OpSet (k : string) (v : value).

(** The entry an operation touches: [set] touches its key, [get] touches
    its key when the key is stored. *)
Definition touched (c : LRU) (o : op) : option string :=
  match o with
  | OpSet k _ => Some k
  | OpGet k => if Dict.mem k (_d c) then Some k else None
  end.

Definition LRU_step (c : LRU) (o : op) : option LRU :=
  match o with
  | OpGet k => option_map snd (LRU_get c k)
  | OpSet k v => LRU_set c k v
  end.

(** Runs the operations in order; also yields, per operation, the key it
    touched. *)
Fixpoint LRU_run (c : LRU) (ops : list op) : option (LRU * list (option string)) :=
  match ops with
  | [] => Some (c, [])
  | o :: ops' =>
      match LRU_step c o with
      | Some c1 =>
          match LRU_run c1 ops' with
          | Some (c2, ts) => Some (c2, touched c o :: ts)
          | None => None
          end
      | None => None
      end
  end.

(** Position, in a touch log, of the last touch of key [k]. *)
Fixpoint last_touch (ts : list (option string)) (k : string) : option nat :=
  match ts with
  | [] => None
  | t :: ts' =>
      match last_touch ts' k with
      | Some i => Some (S i)
      | None =>
          match t with
          | Some k' => if String.eqb k' k then Some O else None
          | None => None
          end
      end
  end.

(** [k1] was last touched strictly before [k2]. *)
Definition touched_before (ts : list (option string)) (k1 k2 : string) : Prop :=
  match last_touch ts k1, last_touch ts k2 with
  | Some i, Some j => (i < j)%nat
  | _, _ => False
  end.

(** ** Python helpers used by the fetcher and the paginator *)

(** Truth value of a Python object. *)
Definition truthy (v : value) : bool :=
  match v with
  | VNone => false
  | VBool b => b
  | VInt n => negb (n =? 0)
  | VStr s => negb (String.eqb s "")
  | VList l => match l with [] => false | _ => true end
  | VDict d => match d with [] => false | _ => true end
  end.

Fixpoint chars (s : string) : list value :=
  match s with
  | EmptyString => []
  | String c s' => VStr (str1 c) :: chars s'
  end.

(** The elements [list.extend(v)] appends: the items of a list, the
    characters of a string, the keys of a dictionary; [None] stands for the
    [TypeError] raised on a value that is not iterable. *)
Definition iterate (v : value) : option (list value) :=
  match v with
  | VList l => Some l
  | VStr s => Some (chars s)
  | VDict d => Some (map VStr (Dict.keys d))
  | _ => None
  end.

(** ** The transport: [requests.get] *)

Record request : Type := mkRequest {
  url : string;
  req_headers : list (string * string);
  req_params : dict;
  timeout : Z
}.

(** A response: [r.json()] is [None] when the body does not parse. *)
Record response : Type := mkResponse {
  status_code : Z;
  text : string;
  headers : list (string * string);
  json : option value
}.

(** The exceptions, named after what raises them: [NegativeSleep] is the
    [ValueError] of [time.sleep]. *)
Inductive exn : Type :=
| KeyError
| AttributeError
| TypeError
| JSONDecodeError
| RequestException (msg : string)
| NegativeSleep.

Inductive reply : Type :=
| Reply (r : response)
| NoReply (e : exn).

(** [r.ok]: [raise_for_status] would not raise. *)
Definition ok (r : response) : bool :=
  negb ((400 <=? status_code r) && (status_code r <? 600)).

(** [r.headers.get(name, default)]; header names compare without case. *)
Fixpoint headers_get (name default : string) (hs : list (string * string)) : string :=
  match hs with
  | [] => default
  | (n, v) :: hs' =>
      if String.eqb (lower n) (lower name) then v
      else headers_get name default hs'
  end.

(** What the process is started with: [BASE] (the variable [GITHUB_BASE]
    or its default, without trailing slash), the token (the variable
    [GITHUB_TOKEN] or the empty string) and the remote side. The answer of
    the remote side to a request may depend on all the requests made before
    it. *)
Record Env : Type := mkEnv {
  BASE : string;
  GITHUB_TOKEN : string;
  transport : list request -> request -> reply
}.

(** ** State and effects *)

(** The effects of the layer, in the order they happen. *)
Inductive event : Type :=
| EvRequest (r : request)
| EvSleep (seconds : Q)
| EvCacheSet (key : string) (data : value).

(** The module level [CACHE] and the effects so far. *)
Record state : Type := mkState { CACHE : LRU; trace : list event }.

(** [CACHE = LRU(128)] *)
Definition initial_state : state := mkState (LRU_init 128) [].

Fixpoint requests_of (t : list event) : list request :=
  match t with
  | [] => []
  | EvRequest r :: t' => r :: requests_of t'
  | _ :: t' => requests_of t'
  end.

Inductive result (A : Type) : Type :=
| Val (a : A)
| Raise (e : exn)
| OutOfFuel.
Arguments Val {A} a.
Arguments Raise {A} e.
Arguments OutOfFuel {A}.

Definition M (A : Type) : Type := state -> result A * state.

Definition ret {A} (a : A) : M A := fun st => (Val a, st).

Definition bind {A B} (m : M A) (k : A -> M B) : M B :=
  fun st =>
    match m st with
    | (Val a, st1) => k a st1
    | (Raise e, st1) => (Raise e, st1)
    | (OutOfFuel, st1) => (OutOfFuel, st1)
    end.

Definition raise {A} (e : exn) : M A := fun st => (Raise e, st).

Definition out_of_fuel {A} : M A := fun st => (OutOfFuel, st).

(** A computation without effects. *)
Definition lift {A} (r : result A) : M A := fun st => (r, st).

Notation "x <- m ;; k" := (bind m (fun x => k))
  (at level 61, m at next level, right associativity).
Notation "m ;; k" := (bind m (fun _ => k))
  (at level 61, right associativity).

(** [CACHE.get(key)] *)
Definition cache_get (key : string) : M value :=
  fun st =>
    match LRU_get (CACHE st) key with
    | Some (v, c) => (Val v, mkState c (trace st))
    | None => (Raise KeyError, st)
    end.

(** [CACHE.set(key, data)] *)
Definition cache_set (key : string) (data : value) : M unit :=
  fun st =>
    match LRU_set (CACHE st) key data with
    | Some c => (Val tt, mkState c (trace st ++ [EvCacheSet key data]))
    | None => (Raise KeyError, st)
    end.

(** [requests.get(...)] *)
Definition requests_get (E : Env) (req : request) : M response :=
  fun st =>
    let st1 := mkState (CACHE st) (trace st ++ [EvRequest req]) in
    match transport E (requests_of (trace st)) req with
    | Reply r => (Val r, st1)
    | NoReply e => (Raise e, st1)
    end.

(** [time.sleep(seconds)]: for a negative length it raises [ValueError]
    (sleep length must be non-negative), here [NegativeSleep], and nothing
    is slept. *)
Definition sleep (seconds : Q) : M unit :=
  fun st =>
    if Qle_bool 0 seconds
    then (Val tt, mkState (CACHE st) (trace st ++ [EvSleep seconds]))
    else (Raise NegativeSleep, st).

(** [d[k]] *)
Definition getitem (k : string) (d : dict) : result value :=
  match Dict.get k d with
  | Some v => Val v
  | None => Raise KeyError
  end.

(** ** [_hdrs] *)

Definition _hdrs (E : Env) : list (string * string) :=
  [("Authorization",
     if String.eqb (GITHUB_TOKEN E) "" then "" else "Bearer " ++ GITHUB_TOKEN E);
   ("Accept", "application/vnd.github+json");
   ("User-Agent", "repo-oracle")].

(** ** [_get] *)

(** [params or {}] *)
Definition or_empty (params : option dict) : dict :=
  match params with
  | Some d => d
  | None => []
  end.

(** The dictionary returned on a cache hit. *)
Definition hit_result (hit : value) : dict :=
  [("data", hit); ("from_cache", VBool true)].

(** The dictionary returned for a response that is not [ok]. *)
Definition error_result (path : string) (r : response) : dict :=
  [("error", VStr (str_of_int (status_code r) ++ ": " ++ str_take 200 (text r)));
   ("path", VStr path);
   ("ratelimit-remaining", VStr (headers_get "X-RateLimit-Remaining" "" (headers r)));
   ("ratelimit-reset", VStr (headers_get "X-RateLimit-Reset" "" (headers r)))].

(** The dictionary returned for a fresh response. *)
Definition fresh_result (data : value) (r : response) : dict :=
  [("data", data);
   ("from_cache", VBool false);
   ("link", VStr (headers_get "Link" "" (headers r)));
   ("ratelimit", VStr (headers_get "X-RateLimit-Remaining" "" (headers r)))].

Definition the_request (E : Env) (path : string) (params : dict) : request :=
  mkRequest (BASE E ++ path) (_hdrs E) params 12.

(** Lines 62 to 78: the part of [_get] after the cache lookup. *)
Definition fetch (E : Env) (path : string) (params : dict) (key : string)
    (use_cache : bool) : M dict :=
  r <- requests_get E (the_request E path params) ;;
  if negb (ok r) then ret (error_result path r)
  else
    data <- (match json r with
             | Some v => ret v
             | None => raise JSONDecodeError
             end) ;;
    (if use_cache then cache_set key data else ret tt) ;;
    ret (fresh_result data r).

Definition _get (E : Env) (path : string) (params : option dict)
    (use_cache : bool) : M dict :=
  let params := or_empty params in
  let key := _cache_key path params in
  if use_cache then
    hit <- cache_get key ;;
    match hit with
    | VNone => fetch E path params key use_cache
    | _ => ret (hit_result hit)
    end
  else fetch E path params key use_cache.

(** ** [_get_all] *)

(** ['rel="next"'] *)
Definition rel_next : string :=
  "rel=" ++ String dquote ("next" ++ str1 dquote).

(** [err.startswith("403:") and "rate limit" in err] *)
Definition is_rate_limit (err : string) : bool :=
  startswith err "403:" && contains "rate limit" err.

(** [res["error"].lower()] *)
Definition error_lower (res : dict) : result string :=
  match getitem "error" res with
  | Val (VStr s) => Val (lower s)
  | Val _ => Raise AttributeError
  | Raise e => Raise e
  | OutOfFuel => OutOfFuel
  end.

(** Lines 89 to 98: fetches one page, with the single retry. [inl res] is
    the [return res] of a failure, [inr res] goes on with the page. *)
Definition fetch_page (E : Env) (path : string) (params : dict) (page : Z)
    : M (dict + dict) :=
  res <- _get E path (Some (Dict.merged params "page" (VInt page))) true ;;
  if Dict.mem "error" res then
    err <- lift (error_lower res) ;;
    if is_rate_limit err then
      sleep (2 # 1) ;;
      res <- _get E path (Some (Dict.merged params "page" (VInt page))) true ;;
      if Dict.mem "error" res then ret (inl res) else ret (inr res)
    else ret (inl res)
  else ret (inr res).

(** Lines 100 to 109: the items of a page; [None] is the [break] on an
    empty page. *)
Definition page_items (data : value) : result (option (list value)) :=
  match data with
  | VList l =>
      match l with
      | [] => Val None
      | _ => Val (Some l)
      end
  | VDict d =>
      let items := match Dict.get "items" d with
                   | Some v => v
                   | None => VList []
                   end in
      if negb (truthy items) then Val None
      else match iterate items with
           | Some l => Val (Some l)
           | None => Raise TypeError
           end
  | _ => Raise AttributeError
  end.

(** Line 111: [res.get("link") or ""] *)
Definition link_of (res : dict) : result string :=
  match Dict.get "link" res with
  | Some v =>
      if truthy v then
        match v with
        | VStr s => Val s
        | _ => Raise TypeError
        end
      else Val ""
  | None => Val ""
  end.

Definition all_result (all_items : list value) : dict :=
  [("data", VList all_items)].

(** The [while] loop; [fuel] bounds the number of iterations. *)
Fixpoint _get_all_loop (fuel : nat) (E : Env) (path : string) (params : dict)
    (max_pages : Z) (sleep_s : Q) (all_items : list value) (page : Z) : M dict :=
  if page <=? max_pages then
    match fuel with
    | O => out_of_fuel
    | S fuel' =>
        fetched <- fetch_page E path params page ;;
        match fetched with
        | inl res => ret res
        | inr res =>
            data <- lift (getitem "data" res) ;;
            items <- lift (page_items data) ;;
            match items with
            | None => ret (all_result all_items)
            | Some l =>
                let all_items := (all_items ++ l)%list in
                link <- lift (link_of res) ;;
                if negb (contains rel_next link) then ret (all_result all_items)
                else
                  (if negb (Qeq_bool sleep_s 0) then sleep sleep_s else ret tt) ;;
                  _get_all_loop fuel' E path params max_pages sleep_s
                    all_items (page + 1)
            end
        end
    end
  else ret (all_result all_items).

Definition _get_all (fuel : nat) (E : Env) (path : string)
    (params : option dict) (max_pages : Z) (sleep_s : Q) : M dict :=
  _get_all_loop fuel E path (or_empty params) max_pages sleep_s [] 1.

(** ** Session memory: [SESSION], [_use_repo], [connect_repo] *)

(** The module level [SESSION]: each field is [None] or a string. *)
Record session : Type := mkSession {
  session_owner : option string;
  session_repo : option string
}.

(** [SESSION = {"owner": None, "repo": None}] *)
Definition initial_session : session := mkSession None None.

(** [a or b] on optional strings: [None] and the empty string are false. *)
Definition or_str (a b : option string) : option string :=
  match a with
  | Some s => if String.eqb s "" then b else a
  | None => b
  end.

(** [s or None] *)
Definition str_or_none (s : string) : option string :=
  if String.eqb s "" then None else Some s.

Definition no_repo_message : string :=
  "No repo set. Call connect_repo(owner, repo) first or pass owner/repo.".

(** [_use_repo]: [inl msg] stands for [raise ValueError(msg)]. *)
Definition _use_repo (S : session) (owner repo : option string)
    : string + (string * string) :=
  let o := or_str owner (session_owner S) in
  let r := or_str repo (session_repo S) in
  match o, r with
  | Some o', Some r' =>
      if String.eqb o' "" || String.eqb r' "" then inl no_repo_message
      else inr (o', r')
  | _, _ => inl no_repo_message
  end.

(** [connect_repo]: the session afterwards and the returned dictionary. *)
Definition connect_repo (owner repo : string) : session * dict :=
  (mkSession (Some owner) (Some repo),
   [("connected", VBool true); ("owner", VStr owner); ("repo", VStr repo)]).

(** ** Python helpers used by the tools *)

(** Sequencing of computations without effects. *)
Definition rbind {A B} (r : result A) (k : A -> result B) : result B :=
  match r with
  | Val a => k a
  | Raise e => Raise e
  | OutOfFuel => OutOfFuel
  end.

Notation "x <~ r ;; k" := (rbind r (fun x => k))
  (at level 61, r at next level, right associativity).

(** [[f(x) for x in l]], stopping at the first exception. *)
Fixpoint map_result {A B} (f : A -> result B) (l : list A) : result (list B) :=
  match l with
  | [] => Val []
  | x :: l' =>
      y <~ f x ;;
      ys <~ map_result f l' ;;
      Val (y :: ys)
  end.

(** [[x for x in l if keep(x)]], stopping at the first exception. *)
Fixpoint filter_result {A} (keep : A -> result bool) (l : list A)
    : result (list A) :=
  match l with
  | [] => Val []
  | x :: l' =>
      b <~ keep x ;;
      xs <~ filter_result keep l' ;;
      Val (if b then x :: xs else xs)
  end.

(** [any(p(x) for x in l)]: stops at the first true element. *)
Fixpoint any_result {A} (p : A -> result bool) (l : list A) : result bool :=
  match l with
  | [] => Val false
  | x :: l' =>
      b <~ p x ;;
      if b then Val true else any_result p l'
  end.

(** The elements of [for x in v]; [TypeError] on a value that is not
    iterable. *)
Definition iter (v : value) : result (list value) :=
  match iterate v with
  | Some l => Val l
  | None => Raise TypeError
  end.

(** [k in v] for a string [k]: a key of a dictionary, a part of a string,
    an element of a list. *)
Definition str_in (k : string) (v : value) : result bool :=
  match v with
  | VDict d => Val (Dict.mem k d)
  | VStr s => Val (contains k s)
  | VList l =>
      Val (existsb (fun x => match x with
                             | VStr s => String.eqb s k
                             | _ => false
                             end) l)
  | _ => Raise TypeError
  end.

(** [v.get(k, default)] *)
Definition py_get (v : value) (k : string) (default : value) : result value :=
  match v with
  | VDict d =>
      Val (match Dict.get k d with
           | Some x => x
           | None => default
           end)
  | _ => Raise AttributeError
  end.

(** [v[k]] for a string [k] *)
Definition py_getitem (v : value) (k : string) : result value :=
  match v with
  | VDict d =>
      match Dict.get k d with
      | Some x => Val x
      | None => Raise KeyError
      end
  | _ => Raise TypeError
  end.

(** [a or b] *)
Definition py_or (a b : value) : value := if truthy a then a else b.

(** [l[:limit]]: a negative [limit] counts from the end. *)
Definition slice_to {A} (limit : Z) (l : list A) : list A :=
  if 0 <=? limit then firstn (Z.to_nat limit) l
  else firstn (Z.to_nat (Z.of_nat (List.length l) + limit)) l.

(** [s.endswith(suffix)] *)
Definition endswith (s suffix : string) : bool :=
  let n := String.length s in
  let m := String.length suffix in
  (m <=? n)%nat && String.eqb (String.substring (n - m) m s) suffix.

(** [s.endswith((suffix1, suffix2, ...))] *)
Definition endswith_any (s : string) (suffixes : list string) : bool :=
  existsb (endswith s) suffixes.

(** The characters [str.strip()] removes, among the code points below
    256: tab to carriage return, the separators U+001C to U+001F, the
    space, U+0085 and U+00A0. *)
Definition is_space (c : ascii) : bool :=
  let n := N_of_ascii c in
  ((9 <=? n) && (n <=? 13) || (28 <=? n) && (n <=? 32)
   || (n =? 133) || (n =? 160))%N.

(** [s.lstrip()] with the set of characters [p]. *)
Fixpoint lstrip_of (p : ascii -> bool) (s : string) : string :=
  match s with
  | EmptyString => EmptyString
  | String c s' => if p c then lstrip_of p s' else s
  end.

(** [s.rstrip()] with the set of characters [p]. *)
Fixpoint rstrip_of (p : ascii -> bool) (s : string) : string :=
  match s with
  | EmptyString => EmptyString
  | String c s' =>
      match rstrip_of p s' with
      | EmptyString => if p c then EmptyString else String c EmptyString
      | t => String c t
      end
  end.

(** [s.strip()] *)
Definition strip (s : string) : string := rstrip_of is_space (lstrip_of is_space s).

(** [min(max(1, limit), 100)] *)
Definition per_page_of (limit : Z) : Z := Z.min (Z.max 1 limit) 100.

(** ** The tools *)

(** What a tool call ends with: a returned value, an exception of the
    request layer or of the shaping code, or the [ValueError] of
    [_use_repo]. *)
Inductive failure : Type :=
| Exception (e : exn)
| ValueError (msg : string).

Inductive outcome (A : Type) : Type :=
| Done (a : A)
| Fails (f : failure)
| Unfinished.
Arguments Done {A} a.
Arguments Fails {A} f.
Arguments Unfinished {A}.

Definition T (A : Type) : Type := state -> outcome A * state.

Definition run {A} (m : M A) : T A :=
  fun st =>
    match m st with
    | (Val a, st1) => (Done a, st1)
    | (Raise e, st1) => (Fails (Exception e), st1)
    | (OutOfFuel, st1) => (Unfinished, st1)
    end.

Definition fail_value_error {A} (msg : string) : T A :=
  fun st => (Fails (ValueError msg), st).

(** *** [list_issues] *)

(** Lines 131 to 135: the query parameters. *)
Definition issues_params (state labels assignee : string) (limit : Z) : dict :=
  let params := [("state", VStr state); ("per_page", VInt (per_page_of limit))] in
  let params := if negb (String.eqb labels "")
                then Dict.set "labels" (VStr labels) params else params in
  if negb (String.eqb assignee "")
  then Dict.set "assignee" (VStr assignee) params else params.

(** Lines 144 to 152: one issue of the output. *)
Definition issue_entry (i : value) : result value :=
  number <~ py_get i "number" VNone ;;
  title <~ py_get i "title" VNone ;;
  labels <~ py_get i "labels" (VList []) ;;
  ls <~ iter labels ;;
  names <~ map_result (fun l => py_getitem l "name") ls ;;
  st <~ py_get i "state" VNone ;;
  assignee <~ py_get i "assignee" VNone ;;
  login <~ py_get (py_or assignee (VDict [])) "login" VNone ;;
  updated_at <~ py_get i "updated_at" VNone ;;
  url <~ py_get i "html_url" VNone ;;
  Val (VDict [("number", number); ("title", title); ("labels", VList names);
              ("state", st); ("assignee", login);
              ("updated_at", updated_at); ("url", url)]).

(** Lines 140 to 153: the output for the aggregated [data]. *)
Definition issues_output (data : value) (limit : Z) : result dict :=
  all <~ iter data ;;
  items <~ filter_result
             (fun i => b <~ str_in "pull_request" i ;; Val (negb b)) all ;;
  let clipped := slice_to limit items in
  issues <~ map_result issue_entry clipped ;;
  Val [("count", VInt (Z.of_nat (List.length issues)));
       ("issues", VList issues);
       ("truncated",
         VBool (List.length clipped <? List.length items)%nat)].

(** Lines 131 to 153, for the repository [o]/[r]. *)
Definition list_issues_in (E : Env) (o r state labels assignee : string)
    (limit : Z) : M dict :=
  res <- _get_all 5 E ("/repos/" ++ o ++ "/" ++ r ++ "/issues")
           (Some (issues_params state labels assignee limit)) 5 0 ;;
  if Dict.mem "error" res then ret res
  else
    data <- lift (getitem "data" res) ;;
    lift (issues_output data limit).

Definition list_issues (E : Env) (S : session)
    (owner repo state labels assignee : string) (limit : Z) : T dict :=
  match _use_repo S (str_or_none owner) (str_or_none repo) with
  | inl msg => fail_value_error msg
  | inr (o, r) => run (list_issues_in E o r state labels assignee limit)
  end.

(** *** [summarize_pr] *)

(** The sum [a + b] compared with a bound, for the values that are numbers
    ([True] counts for 1); every other pair of values raises [TypeError], at
    the sum or at the comparison. *)
Definition number_of (v : value) : option Z :=
  match v with
  | VInt n => Some n
  | VBool b => Some (if b then 1 else 0)
  | _ => None
  end.

Definition sum_above (a b : value) (bound : Z) : result bool :=
  match number_of a, number_of b with
  | Some x, Some y => Val (x + y >? bound)
  | _, _ => Raise TypeError
  end.

(** [fn.endswith((".yaml", ".yml", ".json"))] *)
Definition is_config_file (fn : value) : result bool :=
  match fn with
  | VStr s => Val (endswith_any s [".yaml"; ".yml"; ".json"])
  | _ => Raise AttributeError
  end.

(** [v is False] *)
Definition is_False (v : value) : bool :=
  match v with
  | VBool false => true
  | _ => false
  end.

(** Lines 165 to 197: the summary, from the payload [p] of the pull
    request and the payload [files] of its files. *)
Definition pr_summary (p files : value) : result dict :=
  title <~ py_get p "title" VNone ;;
  user <~ py_get p "user" VNone ;;
  author <~ py_get (py_or user (VDict [])) "login" VNone ;;
  st <~ py_get p "state" VNone ;;
  mergeable <~ py_get p "mergeable" VNone ;;
  changed_files <~ py_get p "changed_files" VNone ;;
  additions <~ py_get p "additions" VNone ;;
  deletions <~ py_get p "deletions" VNone ;;
  fs <~ iter files ;;
  filenames <~ map_result (fun f => py_get f "filename" VNone) fs ;;
  draft <~ py_get p "draft" VNone ;;
  large <~ sum_above (py_or additions (VInt 0)) (py_or deletions (VInt 0)) 1500 ;;
  config <~ any_result is_config_file filenames ;;
  let risks :=
    ((if truthy draft then [VStr "Draft PR"] else [])
     ++ (if is_False mergeable then [VStr "Merge conflicts"] else [])
     ++ (if large then [VStr "Large diff (>1500 LOC)"] else [])
     ++ (if config then [VStr "Config changes included"] else []))%list in
  let next_steps :=
    ((if is_False mergeable then [VStr "Rebase/resolve conflicts"] else [])
     ++ (if truthy draft then [VStr "Mark ready for review"] else []))%list in
  let next_steps :=
    match next_steps with
    | [] => [VStr "Request/collect reviews"]
    | _ => next_steps
    end in
  Val [("header",
         VDict [("title", title); ("author", author); ("state", st);
                ("mergeable", mergeable)]);
       ("changes",
         VDict [("files_changed", changed_files); ("additions", additions);
                ("deletions", deletions); ("filenames", VList filenames)]);
       ("risks", VList risks);
       ("next_steps", VList next_steps)].

(** Lines 159 to 197, for the repository [o]/[r]. *)
Definition summarize_pr_in (E : Env) (o r : string) (number : Z) : M dict :=
  let base := "/repos/" ++ o ++ "/" ++ r ++ "/pulls/" ++ str_of_int number in
  pr <- _get E base (Some []) true ;;
  if Dict.mem "error" pr then ret pr
  else
    files <- _get E (base ++ "/files") (Some []) true ;;
    let files := if Dict.mem "error" files then [("data", VList [])] else files in
    p <- lift (getitem "data" pr) ;;
    fdata <- lift (getitem "data" files) ;;
    lift (pr_summary p fdata).

Definition summarize_pr (E : Env) (S : session) (number : Z)
    (owner repo : string) : T dict :=
  match _use_repo S (str_or_none owner) (str_or_none repo) with
  | inl msg => fail_value_error msg
  | inr (o, r) => run (summarize_pr_in E o r number)
  end.

(** *** [search] *)

(** Lines 269 to 272: the qualifier added to the query. *)
Definition qualified (kind q : string) : string :=
  if String.eqb kind "prs" then q ++ " is:pr"
  else if negb (contains "is:issue" q) && negb (contains "is:pr" q)
       then q ++ " is:issue"
       else q.

(** The lines [if owner or repo: ...]: the query restricted to the
    repository; [inl msg] stands for the [ValueError] of [_use_repo]. *)
Definition in_repo (S : session) (owner repo q : string) : string + string :=
  if negb (String.eqb owner "") || negb (String.eqb repo "") then
    match _use_repo S (str_or_none owner) (str_or_none repo) with
    | inl msg => inl msg
    | inr (o, r) => inr (q ++ " repo:" ++ o ++ "/" ++ r)
    end
  else inr q.

Definition search_params (q : string) (limit : Z) : dict :=
  [("q", VStr q); ("per_page", VInt (per_page_of limit))].

(** Lines 280 to 287: one issue or pull request found. *)
Definition found_issue (i : value) : result value :=
  pr <~ py_get i "pull_request" VNone ;;
  number <~ py_get i "number" VNone ;;
  title <~ py_get i "title" VNone ;;
  st <~ py_get i "state" VNone ;;
  score <~ py_get i "score" VNone ;;
  url <~ py_get i "html_url" VNone ;;
  Val (VDict [("type", VStr (if truthy pr then "pr" else "issue"));
              ("number", number); ("title", title); ("state", st);
              ("score", score); ("url", url)]).

(** Lines 297 to 302: one piece of code found. *)
Definition found_code (i : value) : result value :=
  path <~ py_get i "path" VNone ;;
  repository <~ py_get i "repository" (VDict []) ;;
  full_name <~ py_get repository "full_name" VNone ;;
  url <~ py_get i "html_url" VNone ;;
  score <~ py_get i "score" VNone ;;
  Val (VDict [("path", path); ("repo", full_name); ("url", url);
              ("score", score)]).

(** The output of a search, from the aggregated [data]. *)
Definition search_output (entry : value -> result value) (data : value)
    (q : string) (limit : Z) : result dict :=
  all <~ iter data ;;
  let items := slice_to limit all in
  norm <~ map_result entry items ;;
  Val [("count", VInt (Z.of_nat (List.length norm)));
       ("items", VList norm);
       ("query", VStr q);
       ("truncated", VBool (List.length items <? List.length all)%nat)].

(** The search itself, once the query is built. *)
Definition search_in (E : Env) (path : string) (entry : value -> result value)
    (q : string) (limit : Z) : M dict :=
  res <- _get_all 3 E path (Some (search_params q limit)) 3 0 ;;
  if Dict.mem "error" res then ret res
  else
    data <- lift (getitem "data" res) ;;
    lift (search_output entry data q limit).

Definition bad_type_result (q : string) : dict :=
  [("error", VStr "type must be one of: issues | prs | code"); ("query", VStr q)].

Definition search (E : Env) (S : session) (query type : string) (limit : Z)
    (owner repo : string) : T dict :=
  let kind := lower type in
  let q := strip query in
  if String.eqb kind "issues" || String.eqb kind "prs" then
    match in_repo S owner repo (qualified kind q) with
    | inl msg => fail_value_error msg
    | inr q => run (search_in E "/search/issues" found_issue q limit)
    end
  else if String.eqb kind "code" then
    match in_repo S owner repo q with
    | inl msg => fail_value_error msg
    | inr q => run (search_in E "/search/code" found_code q limit)
    end
  else fun st => (Done (bad_type_result q), st).

(** *** [find_todos]: the choice of the files *)

Definition _TEXT_EXTS : list string :=
  [".md"; ".txt"; ".py"; ".js"; ".ts"; ".tsx"; ".jsx"; ".java"; ".go"; ".rb";
   ".rs"; ".cpp"; ".c"; ".cs"; ".json"; ".yml"; ".yaml"; ".toml"; ".ini";
   ".sh"; ".bat"; ".ps1"].

(** [set(paths or ["src", "app", "."])], as a list. *)
Definition wanted_paths (paths : option (list string)) : list string :=
  match paths with
  | Some (p :: l) => p :: l
  | _ => ["src"; "app"; "."]
  end.

Definition is_slash (c : ascii) : bool := Ascii.eqb c "/".

(** The local function [_wanted] of [find_todos]. *)
Definition _wanted (wanted : list string) (path : string) : bool :=
  endswith_any path _TEXT_EXTS
  && existsb (fun p => String.eqb path p
                       || startswith path (rstrip_of is_slash p ++ "/")) wanted.

(** *** [health_check] *)

Definition health_check (E : Env) (st : state) : dict :=
  [("status", VStr (if String.eqb (GITHUB_TOKEN E) "" then "degraded" else "ok"));
   ("has_token", VBool (negb (String.eqb (GITHUB_TOKEN E) "")));
   ("cached_keys", VInt (Dict.len (_d (CACHE st))))].

(** ** Auxiliary definitions for the statements *)

(** The cache once the entry [key] holds [v] and is the most recently used
    one: after a lookup that found [v], or after [CACHE.set(key, v)] and
    before the eviction. *)
Definition refreshed (c : LRU) (key : string) (v : value) : LRU :=
  mkLRU (maxsize c) (Dict.remove key (_d c) ++ [(key, v)]).

(** The characters of a printed [int]: the sign and the digits. *)
Definition is_num_char (c : ascii) : bool :=
  let n := N_of_ascii c in
  ((n =? 45) || (48 <=? n) && (n <=? 57))%N.

Fixpoint all_chars (p : ascii -> bool) (s : string) : bool :=
  match s with
  | EmptyString => true
  | String c s' => p c && all_chars p s'
  end.

(** The characters an encoded value can start with. *)
Definition is_start_char (c : ascii) : bool :=
  is_num_char c
  || existsb (Ascii.eqb c) ["n"; "t"; "f"; dquote; "["; "{"]%char.

(** The first character, if any, satisfies [p]. *)
Definition head_is (p : ascii -> bool) (s : string) : bool :=
  match s with
  | EmptyString => false
  | String c _ => p c
  end.

(** [distinct l]: no string occurs twice in [l]. *)
Fixpoint distinct (l : list string) : bool :=
  match l with
  | [] => true
  | k :: l' => negb (existsb (String.eqb k) l') && distinct l'
  end.

(** The representation invariant of Python dictionaries: the keys of every
    dictionary inside the value are distinct. *)
Fixpoint well_formed (v : value) : bool :=
  match v with
  | VList l => forallb well_formed l
  | VDict d =>
      distinct (Dict.keys d) && forallb (fun kv => well_formed (snd kv)) d
  | _ => true
  end.

(** The same value: equal scalars of the same type, lists with the same
    elements in the same order, dictionaries with the same keys holding the
    same values, in whatever order the keys were inserted. *)
Fixpoint same_value (v1 v2 : value) : bool :=
  match v1, v2 with
  | VNone, VNone => true
  | VBool a, VBool b => Bool.eqb a b
  | VInt a, VInt b => a =? b
  | VStr a, VStr b => String.eqb a b
  | VList l1, VList l2 =>
      (fix same_list (l1 l2 : list value) : bool :=
         match l1, l2 with
         | [], [] => true
         | x :: l1', y :: l2' => same_value x y && same_list l1' l2'
         | _, _ => false
         end) l1 l2
  | VDict d1, VDict d2 =>
      (List.length d1 =? List.length d2)%nat
      && (fix included (d : dict) : bool :=
            match d with
            | [] => true
            | (k, v) :: d' =>
                match Dict.get k d2 with
                | Some v' => same_value v v'
                | None => false
                end && included d'
            end) d1
  | _, _ => false
  end.

(** Reading back one escaped character of a string literal. *)
Definition unhex (c : ascii) : option N :=
  let n := N_of_ascii c in
  if ((48 <=? n) && (n <=? 57))%N then Some (n - 48)%N
  else if ((97 <=? n) && (n <=? 102))%N then Some (n - 87)%N
  else None.

Definition unescape_char (s : string) : option (ascii * string) :=
  match s with
  | EmptyString => None
  | String c rest =>
      if Ascii.eqb c "\" then
        match rest with
        | EmptyString => None
        | String x rest' =>
            if Ascii.eqb x dquote then Some (dquote, rest')
            else if Ascii.eqb x "\" then Some ("\"%char, rest')
            else if Ascii.eqb x "n" then Some ("010"%char, rest')
            else if Ascii.eqb x "r" then Some ("013"%char, rest')
            else if Ascii.eqb x "t" then Some ("009"%char, rest')
            else if Ascii.eqb x "b" then Some ("008"%char, rest')
            else if Ascii.eqb x "f" then Some ("012"%char, rest')
            else
              match rest' with
              | String _ (String _ (String h1 (String h2 rest2))) =>
                  match unhex h1, unhex h2 with
                  | Some n1, Some n2 => Some (ascii_of_N (16 * n1 + n2), rest2)
                  | _, _ => None
                  end
              | _ => None
              end
        end
      else Some (c, rest)
  end.

(** The kind of a value and the kind its first encoded character shows. *)
Definition tag (v : value) : nat :=
  match v with
  | VNone => 0
  | VBool _ => 1
  | VInt _ => 2
  | VStr _ => 3
  | VList _ => 4
  | VDict _ => 5
  end.

Definition classify (c : ascii) : nat :=
  if is_num_char c then 2
  else if Ascii.eqb c "n" then 0
  else if Ascii.eqb c "t" || Ascii.eqb c "f" then 1
  else if Ascii.eqb c dquote then 3
  else if Ascii.eqb c "[" then 4
  else if Ascii.eqb c "{" then 5
  else 6.

Definition head_tag (s : string) : nat :=
  match s with
  | EmptyString => 6
  | String c _ => classify c
  end.

(** The text after the first element of an encoded list: the other
    elements, each after its separator, and the closing bracket. *)
Fixpoint list_tail (l : list value) (r : string) : string :=
  match l with
  | [] => "]" ++ r
  | x :: l' => ", " ++ dumps x ++ list_tail l' r
  end.

(** One member of an encoded dictionary. *)
Definition member (kv : string * value) : string :=
  encode_str (fst kv) ++ ": " ++ dumps (snd kv).

Fixpoint member_tail (d : dict) (r : string) : string :=
  match d with
  | [] => "}" ++ r
  | kv :: d' => ", " ++ member kv ++ member_tail d' r
  end.

(** [v1] is read back from its encoding: a text that starts with the
    encoding of [v1] starts with the encoding of no other value, whatever
    follows, as long as no digit or sign follows. *)
Definition decodes (v1 : value) : Prop :=
  forall v2 r1 r2,
    well_formed v1 = true -> well_formed v2 = true ->
    head_is is_num_char r1 = false -> head_is is_num_char r2 = false ->
    dumps v1 ++ r1 = dumps v2 ++ r2 ->
    same_value v1 v2 = true /\ r1 = r2.

(** The entries written to the cache, in order. *)
Fixpoint writes_of (t : list event) : dict :=
  match t with
  | [] => []
  | EvCacheSet k v :: t' => (k, v) :: writes_of t'
  | _ :: t' => writes_of t'
  end.

(** The store of the cache after [set(key, data)] (see [LRU_set]). *)
Definition stored (c : LRU) (key : string) (data : value) : dict :=
  let d2 := (Dict.remove key (_d c) ++ [(key, data)])%list in
  if Dict.len d2 >? maxsize c then tl d2 else d2.

(** The state after the optional pause between two pages (lines 115 and
    116): unchanged when [sleep_s] is zero, one sleep later when it is
    positive; [None] when it is negative, where [time.sleep] raises. *)
Definition after_pause (sleep_s : Q) (st : state) : option state :=
  if negb (Qeq_bool sleep_s 0) then
    if Qle_bool 0 sleep_s
    then Some (mkState (CACHE st) (trace st ++ [EvSleep sleep_s]))
    else None
  else Some st.

(** The request and the cache key of page [page]. *)
Definition page_request (E : Env) (path : string) (params : dict) (page : Z)
    : request :=
  the_request E path (Dict.merged params "page" (VInt page)).

Definition page_key (path : string) (params : dict) (page : Z) : string :=
  _cache_key path (Dict.merged params "page" (VInt page)).

(** The effects one call of [_get] can have. *)
Definition get_events (req : request) (key : string) (evs : list event) : Prop :=
  evs = [] \/ evs = [EvRequest req]
  \/ exists data, evs = [EvRequest req; EvCacheSet key data].

(** An effect that concerns a page between [lo] and [hi]: a request for
    it, a write under its key, or a pause. *)
Definition page_event (E : Env) (path : string) (params : dict) (lo hi : Z)
    (e : event) : Prop :=
  match e with
  | EvRequest r => exists q, lo <= q <= hi /\ r = page_request E path params q
  | EvSleep _ => True
  | EvCacheSet k _ => exists q, lo <= q <= hi /\ k = page_key path params q
  end.

(** The recency invariant: the stored keys are distinct, each was touched,
    and the store lists them from the least to the most recently touched. *)
Record recency_inv (ts : list (option string)) (d : dict) : Prop := {
  inv_nodup : NoDup (Dict.keys d);
  inv_touched : Forall (fun k => last_touch ts k <> None) (Dict.keys d);
  inv_sorted : StronglySorted (touched_before ts) (Dict.keys d)
}.

(** The order of the entries of a dictionary: the order of their keys. *)
Definition entry_le {A : Type} (e1 e2 : string * A) : Prop :=
  key_leb (fst e1) (fst e2) = true.

(** The entries of two dictionaries, taken in the same order, have the
    same keys and hold the same values. *)
Definition same_entries (e1 e2 : dict) : Prop :=
  Forall2 (fun a b => fst a = fst b /\ same_value (snd a) (snd b) = true) e1 e2.

(** The ways [_get] with the cache can go. *)
Inductive get_case (E : Env) (path : string) (P : dict) (st : state)
    : result dict -> state -> Prop :=
| get_hit v c :
    v <> VNone ->
    get_case E path P st (Val (hit_result v)) (mkState c (trace st))
| get_fail r c :
    ok r = false ->
    maxsize c = maxsize (CACHE st) ->
    (forall k, Dict.get k (_d c) = Dict.get k (_d (CACHE st))) ->
    Dict.remove (_cache_key path P) (_d c)
    = Dict.remove (_cache_key path P) (_d (CACHE st)) ->
    (NoDup (Dict.keys (_d (CACHE st))) -> NoDup (Dict.keys (_d c))) ->
    get_case E path P st (Val (error_result path r))
      (mkState c (trace st ++ [EvRequest (the_request E path P)]))
| get_raise e st1 :
    get_case E path P st (Raise e) st1
| get_fresh r data :
    get_case E path P st (Val (fresh_result data r))
      (mkState
         (mkLRU (maxsize (CACHE st)) (stored (CACHE st) (_cache_key path P) data))
         (trace st ++ [EvRequest (the_request E path P);
                       EvCacheSet (_cache_key path P) data])).

(** The ways the fetch of one page, retry included, can go. *)
Inductive page_case (E : Env) (path : string) (params : dict) (page : Z)
    (st : state) : result (dict + dict) -> state -> Prop :=
| page_fail r st1 evs :
    ok r = false ->
    trace st1 = (trace st ++ evs)%list ->
    writes_of evs = [] ->
    (forall k, Dict.get k (_d (CACHE st1)) = Dict.get k (_d (CACHE st))) ->
    page_case E path params page st (Val (inl (error_result path r))) st1
| page_hit v st1 :
    page_case E path params page st (Val (inr (hit_result v))) st1
| page_raise e st1 :
    page_case E path params page st (Raise e) st1
| page_fresh r data evs :
    writes_of evs = [] ->
    page_case E path params page st (Val (inr (fresh_result data r)))
      (mkState
         (mkLRU (maxsize (CACHE st))
            (stored (CACHE st) (page_key path params page) data))
         (trace st ++ evs
          ++ [EvRequest (page_request E path params page);
              EvCacheSet (page_key path params page) data])).

(** Neither given nor stored: [None] or the empty string. *)
Definition missing (a : option string) : bool :=
  match a with
  | Some s => String.eqb s ""
  | None => true
  end.

(** The invariant of the module level [CACHE = LRU(128)]. *)
Definition cache_inv (c : LRU) : Prop :=
  maxsize c = 128
  /\ Dict.len (_d c) <= 128
  /\ NoDup (Dict.keys (_d c)).

(** A computation that keeps the invariant of the cache. *)
Definition keeps {A} (m : M A) : Prop :=
  forall st, cache_inv (CACHE st) -> cache_inv (CACHE (snd (m st))).

(** The states of the server: the state at start and the state after any
    call of [_get], of [_get_all] or of a tool. *)
Inductive reachable (E : Env) : state -> Prop :=
| reach_start : reachable E initial_state
| reach_get path params use_cache st :
    reachable E st ->
    reachable E (snd (_get E path params use_cache st))
| reach_get_all fuel path params max_pages sleep_s st :
    reachable E st ->
    reachable E (snd (_get_all fuel E path params max_pages sleep_s st))
| reach_list_issues S owner repo state labels assignee limit st :
    reachable E st ->
    reachable E (snd (list_issues E S owner repo state labels assignee limit st))
| reach_summarize_pr S number owner repo st :
    reachable E st ->
    reachable E (snd (summarize_pr E S number owner repo st))
| reach_search S query type limit owner repo st :
    reachable E st ->
    reachable E (snd (search E S query type limit owner repo st)).

(** The keys of one issue of the output of [list_issues]. *)
Definition issue_keys : list string :=
  ["number"; "title"; "labels"; "state"; "assignee"; "updated_at"; "url"].

(** An item that [list_issues] keeps: it has no [pull_request]. *)
Definition no_pull_request (i : value) : bool :=
  match str_in "pull_request" i with
  | Val false => true
  | _ => false
  end.

(** A request of a paginated tool for a page from 1 to [pages] of [path],
    with a page size from 1 to 100. *)
Definition tool_request (E : Env) (path : string) (pages : Z) (req : request)
    : Prop :=
  url req = BASE E ++ path
  /\ timeout req = 12
  /\ (exists page, Dict.get "page" (req_params req) = Some (VInt page)
                   /\ 1 <= page <= pages)
  /\ (exists n, Dict.get "per_page" (req_params req) = Some (VInt n)
                /\ 1 <= n <= 100).

(** ** Remote sides for the examples *)

(** A remote side whose answer depends on how many requests came before
    and on the request. *)
Definition mock_env (f : nat -> request -> reply) : Env :=
  mkEnv "https://api.github.com" "" (fun hist req => f (List.length hist) req).

(** A response with a body that parses to [v]. *)
Definition json_response (status : Z) (hs : list (string * string)) (v : value)
    : response :=
  mkResponse status (dumps v) hs (Some v).

(** Always answers [200] with the body [null]. *)
Definition null_env : Env :=
  mock_env (fun _ _ => Reply (json_response 200 [] VNone)).

(** A [Link] header that announces a next page. *)
Definition next_link : string :=
  "<https://api.github.com/search/issues?page=2>; " ++ rel_next.

(** Always answers [200] with one item, the number of the request, and
    announces a next page. *)
Definition always_next_env : Env :=
  mock_env (fun n _ =>
    Reply (json_response 200 [("Link", next_link)] (VList [VInt (Z.of_nat n + 1)]))).

(** Answers the first request with two items and a next page, and every
    later request with an empty list. *)
Definition two_pages_env : Env :=
  mock_env (fun n _ =>
    match n with
    | O => Reply (json_response 200 [("Link", next_link)] (VList [VInt 1; VInt 2]))
    | _ => Reply (json_response 200 [] (VList []))
    end).

(** Answers the first [n] requests with one item and a next page, and
    every later request with the status 500. *)
Definition failing_after (n : nat) : Env :=
  mock_env (fun i _ =>
    if (i <? n)%nat
    then Reply (json_response 200 [("Link", next_link)] (VList [VInt (Z.of_nat i + 1)]))
    else Reply (mkResponse 500 "Server Error" [] None)).

(** A response refused for a secondary rate limit. *)
Definition rate_limit_response : response :=
  mkResponse 403 "You have exceeded a secondary rate limit."
    [("X-RateLimit-Remaining", "0"); ("X-RateLimit-Reset", "1700000000")] None.

(** Always refuses with [rate_limit_response]. *)
Definition rate_limited_env : Env :=
  mock_env (fun _ _ => Reply rate_limit_response).

Definition not_found_response : response :=
  mkResponse 404 "Not Found" [("X-RateLimit-Remaining", "59")] None.

(** Always answers [404]. *)
Definition not_found_env : Env :=
  mock_env (fun _ _ => Reply not_found_response).

(** The remote side cannot be reached: every request raises. *)
Definition unreachable_env : Env :=
  mock_env (fun _ _ => NoReply (RequestException "connection timed out")).

(** Refuses the first request for a rate limit and answers every later one
    with two items and no next page. *)
Definition retry_ok_env : Env :=
  mock_env (fun n _ =>
    match n with
    | O => Reply rate_limit_response
    | _ => Reply (json_response 200 [] (VList [VInt 1; VInt 2]))
    end).

(** Always answers [200] with one fixed body and no [Link] header. *)
Definition constant_env (v : value) : Env :=
  mock_env (fun _ _ => Reply (json_response 200 [] v)).

(** Answers every request with three items, the second one a pull request,
    and no next page. *)
Definition issues_env : Env :=
  mock_env (fun _ _ =>
    Reply (json_response 200 []
             (VList [VDict [("number", VInt 1); ("title", VStr "crash");
                            ("labels", VList [VDict [("name", VStr "bug")]]);
                            ("assignee", VNone)];
                     VDict [("number", VInt 2); ("pull_request", VDict [])];
                     VDict [("number", VInt 3); ("state", VStr "open")]]))).

(** Answers the first request with a pull request that has conflicts and
    every later request with the status 500. *)
Definition pr_env : Env :=
  mock_env (fun n _ =>
    match n with
    | O => Reply (json_response 200 []
                    (VDict [("title", VStr "Fix"); ("mergeable", VBool false);
                            ("additions", VInt 10); ("deletions", VInt 2)]))
    | _ => Reply (mkResponse 500 "Server Error" [] None)
    end).

(** * Properties *)

(** ** Strings and printed integers *)

Module StrFacts.

Lemma append_nil_r s : s ++ "" = s.
Proof. induction s; simpl; congruence. Qed.

Lemma append_assoc s1 s2 s3 : (s1 ++ s2) ++ s3 = s1 ++ (s2 ++ s3).
Proof. induction s1; simpl; congruence. Qed.

Lemma append_inv_head s t1 t2 : s ++ t1 = s ++ t2 -> t1 = t2.
Proof. induction s; simpl; intros H; [exact H | injection H; auto]. Qed.

Lemma prefix_app p s : String.prefix p s = true <-> exists r, s = p ++ r.
Proof.
  revert s. induction p as [|c p IH]; intros s; simpl.
  - split; [intros _; now exists s | intros _; now destruct s].
  - destruct s as [|c' s].
    + split; [discriminate | intros [r [=]]].
    + simpl. destruct (ascii_dec c c') as [<-|Hne].
      * rewrite IH. split; intros [r Hr]; exists r; simpl; congruence.
      * split; [discriminate | intros [r [=]]; congruence].
Qed.

Lemma lower_app s t : lower (s ++ t) = lower s ++ lower t.
Proof. induction s; simpl; congruence. Qed.

Lemma lower_num_char c : is_num_char c = true -> lower_char c = c.
Proof.
  destruct c as [[] [] [] [] [] [] [] []]; vm_compute;
    intros H; (reflexivity || discriminate H).
Qed.

Lemma lower_num s : all_chars is_num_char s = true -> lower s = s.
Proof.
  induction s as [|c s IH]; simpl; [reflexivity|].
  intros H. apply andb_true_iff in H. destruct H as [Hc Hs].
  now rewrite lower_num_char, IH.
Qed.

(** A run of characters satisfying [p] followed by something that does
    not start with such a character splits in one way only. *)
Lemma delimited p s1 s2 r1 r2 :
  all_chars p s1 = true -> all_chars p s2 = true ->
  head_is p r1 = false -> head_is p r2 = false ->
  s1 ++ r1 = s2 ++ r2 -> s1 = s2 /\ r1 = r2.
Proof.
  revert s2. induction s1 as [|c1 s1 IH]; intros [|c2 s2]; simpl;
    intros H1 H2 Hr1 Hr2 Heq.
  - now split.
  - subst r1. simpl in Hr1. apply andb_true_iff in H2. destruct H2. congruence.
  - subst r2. simpl in Hr2. apply andb_true_iff in H1. destruct H1. congruence.
  - injection Heq as -> Heq.
    apply andb_true_iff in H1. apply andb_true_iff in H2.
    destruct (IH s2) as [-> ->]; tauto.
Qed.

Lemma string_of_uint_num d :
  all_chars is_num_char (NilEmpty.string_of_uint d) = true.
Proof. induction d; simpl; auto. Qed.

Lemma str_of_int_num n : all_chars is_num_char (str_of_int n) = true.
Proof.
  unfold str_of_int, NilZero.string_of_int, NilZero.string_of_uint.
  destruct (Z.to_int n) as [d|d]; destruct d; simpl; auto using string_of_uint_num.
Qed.

Lemma to_int_proper n : Z.to_int n <> Decimal.Pos Decimal.Nil
                        /\ Z.to_int n <> Decimal.Neg Decimal.Nil.
Proof.
  destruct n as [|p|p]; simpl; split; try discriminate;
    intros [= H]; now apply (DecimalPos.Unsigned.to_uint_nonnil p).
Qed.

Lemma str_of_int_inj a b : str_of_int a = str_of_int b -> a = b.
Proof.
  unfold str_of_int. intros H.
  apply DecimalZ.to_int_inj.
  destruct (to_int_proper a), (to_int_proper b).
  assert (Some (Z.to_int a) = Some (Z.to_int b)) as [= E]; [|exact E].
  rewrite <- (NilZero.isi (Z.to_int a)), <- (NilZero.isi (Z.to_int b)) by assumption.
  now rewrite H.
Qed.

Lemma str_of_int_nonempty n : str_of_int n <> "".
Proof.
  unfold str_of_int, NilZero.string_of_int, NilZero.string_of_uint.
  destruct (to_int_proper n) as [H1 H2].
  destruct (Z.to_int n) as [d|d]; destruct d; simpl; congruence.
Qed.

(** The lowered failure message starts with ["403:"] exactly when the
    status is 403. *)
Lemma status_403 n body :
  startswith (lower (str_of_int n ++ ": " ++ body)) "403:" = true <-> n = 403.
Proof.
  unfold startswith. rewrite lower_app, (lower_num _ (str_of_int_num n)).
  split.
  - intros H. apply prefix_app in H. destruct H as [r Hr].
    change ("403:" ++ r) with (str_of_int 403 ++ ":" ++ r) in Hr.
    apply (delimited is_num_char) in Hr; auto using str_of_int_num.
    destruct Hr as [Hr _]. now apply str_of_int_inj.
  - intros ->. reflexivity.
Qed.

End StrFacts.

(** ** Dictionaries *)

Module DictFacts.

Lemma mem_get k d : Dict.mem k d = true <-> Dict.get k d <> None.
Proof.
  induction d as [|[k' v'] d IH]; simpl.
  - split; [discriminate | congruence].
  - destruct (String.eqb k' k); [split; [discriminate | reflexivity] | exact IH].
Qed.

Lemma mem_false_get k d : Dict.mem k d = false <-> Dict.get k d = None.
Proof.
  induction d as [|[k' v'] d IH]; simpl.
  - split; reflexivity.
  - destruct (String.eqb k' k); [split; discriminate | exact IH].
Qed.

Lemma mem_keys k d : Dict.mem k d = true <-> In k (Dict.keys d).
Proof.
  induction d as [|[k' v'] d IH]; simpl.
  - split; [discriminate | tauto].
  - destruct (String.eqb_spec k' k) as [->|Hne].
    + split; auto.
    + rewrite IH. split; [auto | intros [H|H]; [contradiction | exact H]].
Qed.

Lemma get_In k v d : Dict.get k d = Some v -> In (k, v) d.
Proof.
  induction d as [|[k' v'] d IH]; simpl; [discriminate|].
  destruct (String.eqb_spec k' k) as [->|Hne].
  - intros [= ->]. now left.
  - intros H. right. auto.
Qed.

Lemma In_get k v d : NoDup (Dict.keys d) -> In (k, v) d -> Dict.get k d = Some v.
Proof.
  induction d as [|[k' v'] d IH]; simpl; [tauto|].
  intros Hnd [H|H].
  - injection H as -> ->. now rewrite String.eqb_refl.
  - inversion Hnd as [|? ? Hnot Hnd']; subst.
    destruct (String.eqb_spec k' k) as [->|Hne].
    + exfalso. apply Hnot. change (In (fst (k, v)) (map fst d)). now apply in_map.
    + auto.
Qed.

Lemma keys_remove k d :
  Dict.keys (Dict.remove k d)
  = filter (fun k' => negb (String.eqb k' k)) (Dict.keys d).
Proof.
  induction d as [|[k' v'] d IH]; simpl; [reflexivity|].
  destruct (String.eqb k' k); simpl; [exact IH | now rewrite IH].
Qed.

Lemma remove_absent k d : Dict.mem k d = false -> Dict.remove k d = d.
Proof.
  induction d as [|[k' v'] d IH]; simpl; [reflexivity|].
  destruct (String.eqb k' k); [discriminate | intros H; now rewrite IH].
Qed.

Lemma get_remove_same k d : Dict.get k (Dict.remove k d) = None.
Proof.
  induction d as [|[k' v'] d IH]; simpl; [reflexivity|].
  destruct (String.eqb k' k) eqn:E; simpl; [exact IH | now rewrite E].
Qed.

Lemma get_remove_other k k' d :
  k' <> k -> Dict.get k' (Dict.remove k d) = Dict.get k' d.
Proof.
  intros Hne. induction d as [|[k0 v0] d IH]; simpl; [reflexivity|].
  destruct (String.eqb_spec k0 k) as [->|Hk]; simpl.
  - destruct (String.eqb_spec k k'); [congruence | exact IH].
  - destruct (String.eqb k0 k'); [reflexivity | exact IH].
Qed.

Lemma get_app k d1 d2 :
  Dict.get k (d1 ++ d2)
  = match Dict.get k d1 with Some v => Some v | None => Dict.get k d2 end.
Proof.
  induction d1 as [|[k' v'] d1 IH]; simpl; [reflexivity|].
  destruct (String.eqb k' k); [reflexivity | exact IH].
Qed.

Lemma get_set_same k v d : Dict.get k (Dict.set k v d) = Some v.
Proof.
  induction d as [|[k' v'] d IH]; simpl.
  - now rewrite String.eqb_refl.
  - destruct (String.eqb k' k) eqn:E; simpl; rewrite E; [reflexivity | exact IH].
Qed.

Lemma get_set_other k k' v d :
  k' <> k -> Dict.get k' (Dict.set k v d) = Dict.get k' d.
Proof.
  intros Hne. induction d as [|[k0 v0] d IH]; simpl.
  - destruct (String.eqb_spec k k'); [congruence | reflexivity].
  - destruct (String.eqb_spec k0 k) as [->|Hk]; simpl.
    + destruct (String.eqb_spec k k'); [congruence | reflexivity].
    + destruct (String.eqb k0 k'); [reflexivity | exact IH].
Qed.

Lemma remove_set k v d : Dict.remove k (Dict.set k v d) = Dict.remove k d.
Proof.
  induction d as [|[k' v'] d IH]; simpl.
  - now rewrite String.eqb_refl.
  - destruct (String.eqb k' k) eqn:E; simpl; rewrite E; [reflexivity | now rewrite IH].
Qed.

Lemma length_remove k d : (List.length (Dict.remove k d) <= List.length d)%nat.
Proof.
  induction d as [|[k' v'] d IH]; simpl; [lia|].
  destruct (String.eqb k' k); simpl; lia.
Qed.

Lemma length_set_mem k v d :
  Dict.mem k d = true -> List.length (Dict.set k v d) = List.length d.
Proof.
  induction d as [|[k' v'] d IH]; simpl; [discriminate|].
  destruct (String.eqb k' k); simpl; [reflexivity | intros H; now rewrite IH].
Qed.

Lemma NoDup_keys_remove k d :
  NoDup (Dict.keys d) -> NoDup (Dict.keys (Dict.remove k d)).
Proof.
  intros H. rewrite keys_remove. now apply NoDup_filter.
Qed.

Lemma not_in_keys_remove k d : ~ In k (Dict.keys (Dict.remove k d)).
Proof.
  rewrite keys_remove, filter_In. intros [_ H].
  now rewrite String.eqb_refl in H.
Qed.

(** Setting a key and moving it to the end keeps the entries of
    [d[k] = v]. *)
Lemma touch_Permutation k v d :
  NoDup (Dict.keys d) ->
  Permutation (Dict.remove k d ++ [(k, v)]) (Dict.set k v d).
Proof.
  induction d as [|[k' v'] d IH]; simpl; intros Hnd.
  - reflexivity.
  - inversion Hnd as [|? ? Hnot Hnd']; subst.
    destruct (String.eqb_spec k' k) as [->|Hne].
    + rewrite remove_absent.
      * symmetry. apply Permutation_cons_append.
      * destruct (Dict.mem k d) eqn:E; [|reflexivity].
        apply mem_keys in E. contradiction.
    + simpl. constructor. now apply IH.
Qed.

End DictFacts.

(** ** The cache *)

Module LRUFacts.
Import DictFacts.

(** No [KeyError] escapes [LRU.set]: the key is stored before it is moved
    and the dictionary is not empty when an entry is popped. *)
Lemma LRU_set_eq c k v :
  LRU_set c k v =
  Some (mkLRU (maxsize c)
          (let d2 := (Dict.remove k (_d c) ++ [(k, v)])%list in
           if Dict.len d2 >? maxsize c then tl d2 else d2)).
Proof.
  unfold LRU_set, Dict.move_to_end.
  rewrite get_set_same, remove_set. cbv zeta.
  destruct (Dict.len _ >? maxsize c); [|reflexivity].
  destruct (Dict.remove k (_d c)); reflexivity.
Qed.

(** No [KeyError] escapes [LRU.get] either. *)
Lemma LRU_get_eq c k :
  LRU_get c k =
  match Dict.get k (_d c) with
  | Some v => Some (v, mkLRU (maxsize c) (Dict.remove k (_d c) ++ [(k, v)])%list)
  | None => Some (VNone, c)
  end.
Proof.
  unfold LRU_get, Dict.move_to_end.
  destruct (Dict.get k (_d c)) as [v|] eqn:Hg.
  - assert (Hm : Dict.mem k (_d c) = true) by (apply mem_get; congruence).
    rewrite Hm, get_app, get_remove_same. simpl. now rewrite String.eqb_refl.
  - apply mem_false_get in Hg. now rewrite Hg.
Qed.

Lemma last_touch_snoc ts t k :
  last_touch (ts ++ [t]) k
  = match t with
    | Some k' => if String.eqb k' k then Some (List.length ts) else last_touch ts k
    | None => last_touch ts k
    end.
Proof.
  induction ts as [|t0 ts IH]; simpl.
  - destruct t as [k'|]; [destruct (String.eqb k' k)|]; reflexivity.
  - rewrite IH. destruct t as [k'|]; [destruct (String.eqb k' k)|]; reflexivity.
Qed.

Lemma last_touch_bound ts k i :
  last_touch ts k = Some i -> (i < List.length ts)%nat.
Proof.
  revert i. induction ts as [|t ts IH]; simpl; intros i; [discriminate|].
  destruct (last_touch ts k) as [j|].
  - intros [= <-]. specialize (IH j eq_refl). lia.
  - destruct t as [k'|]; [destruct (String.eqb k' k)|]; intros [= <-]; lia.
Qed.

Lemma LRU_run_snoc c ops o :
  LRU_run c (ops ++ [o]) =
  match LRU_run c ops with
  | Some (c1, ts) =>
      match LRU_step c1 o with
      | Some c2 => Some (c2, (ts ++ [touched c1 o])%list)
      | None => None
      end
  | None => None
  end.
Proof.
  revert c. induction ops as [|o0 ops IH]; intros c; simpl.
  - destruct (LRU_step c o); reflexivity.
  - destruct (LRU_step c o0) as [c1|]; [|reflexivity].
    rewrite IH. destruct (LRU_run c1 ops) as [[c2 ts]|]; [|reflexivity].
    destruct (LRU_step c2 o); reflexivity.
Qed.

Lemma StronglySorted_filter {A} (R : A -> A -> Prop) f l :
  StronglySorted R l -> StronglySorted R (filter f l).
Proof.
  induction 1 as [|a l Hs IH Hall]; simpl; [constructor|].
  destruct (f a); [|exact IH].
  constructor; [exact IH|].
  rewrite Forall_forall in *. intros x Hx. apply filter_In in Hx. now apply Hall.
Qed.

Lemma StronglySorted_snoc {A} (R : A -> A -> Prop) l a :
  StronglySorted R l -> Forall (fun x => R x a) l -> StronglySorted R (l ++ [a]).
Proof.
  induction 1 as [|b l Hs IH Hall]; simpl; intros Hf.
  - constructor; constructor.
  - inversion Hf; subst. constructor; [now apply IH|].
    apply Forall_app. split; [exact Hall | now constructor].
Qed.

Lemma StronglySorted_weaken {A} (R R' : A -> A -> Prop) l :
  (forall x y, In x l -> In y l -> R x y -> R' x y) ->
  StronglySorted R l -> StronglySorted R' l.
Proof.
  intros HR H. induction H as [|a l Hs IH Hall]; [constructor|].
  constructor.
  - apply IH. intros x y Hx Hy. apply HR; now right.
  - rewrite Forall_forall in *. intros x Hx.
    apply HR; [now left | now right | now apply Hall].
Qed.

(** Touching [k] (a hit of [get], or [set]) keeps the invariant. *)
Lemma recency_inv_touch ts d k v :
  recency_inv ts d ->
  recency_inv (ts ++ [Some k]) (Dict.remove k d ++ [(k, v)]).
Proof.
  intros [Hnd Ht Hs].
  assert (Hother : forall k', k' <> k ->
            last_touch (ts ++ [Some k]) k' = last_touch ts k').
  { intros k' Hne. rewrite last_touch_snoc.
    destruct (String.eqb_spec k k'); [congruence | reflexivity]. }
  assert (Hself : last_touch (ts ++ [Some k]) k = Some (List.length ts)).
  { rewrite last_touch_snoc. now rewrite String.eqb_refl. }
  assert (Hin : forall k', In k' (Dict.keys (Dict.remove k d)) ->
            k' <> k /\ In k' (Dict.keys d)).
  { intros k' H. rewrite keys_remove in H. apply filter_In in H.
    destruct H as [H1 H2]. split; [|exact H1].
    destruct (String.eqb_spec k' k); [discriminate | assumption]. }
  assert (Hkeys : Dict.keys (Dict.remove k d ++ [(k, v)])
                  = (Dict.keys (Dict.remove k d) ++ [k])%list).
  { unfold Dict.keys. now rewrite map_app. }
  constructor; rewrite Hkeys.
  - apply NoDup_app; [now apply NoDup_keys_remove | constructor; [tauto | constructor] |].
    intros x Hx [Hk|[]]. subst x. now apply (not_in_keys_remove k d).
  - apply Forall_app. split.
    + rewrite Forall_forall in *. intros x Hx.
      destruct (Hin x Hx) as [Hne Hx']. rewrite Hother by exact Hne. now apply Ht.
    + constructor; [congruence | constructor].
  - apply StronglySorted_snoc.
    + apply StronglySorted_weaken with (R := touched_before ts).
      * intros x y Hx Hy. unfold touched_before.
        destruct (Hin x Hx) as [Hnx _], (Hin y Hy) as [Hny _].
        now rewrite !Hother by assumption.
      * rewrite keys_remove. now apply StronglySorted_filter.
    + rewrite Forall_forall in *. intros x Hx.
      destruct (Hin x Hx) as [Hne Hx'].
      unfold touched_before. rewrite Hother by exact Hne. rewrite Hself.
      specialize (Ht x Hx').
      destruct (last_touch ts x) as [i|] eqn:E; [|congruence].
      now apply last_touch_bound in E.
Qed.

Lemma recency_inv_miss ts d : recency_inv ts d -> recency_inv (ts ++ [None]) d.
Proof.
  intros [Hnd Ht Hs].
  assert (Hsame : forall k, last_touch (ts ++ [None]) k = last_touch ts k)
    by (intros k; now rewrite last_touch_snoc).
  constructor; [exact Hnd | |].
  - rewrite Forall_forall in *. intros x Hx. rewrite Hsame. now apply Ht.
  - apply StronglySorted_weaken with (R := touched_before ts); [|exact Hs].
    intros x y _ _. unfold touched_before. now rewrite !Hsame.
Qed.

Lemma recency_inv_tl ts d : recency_inv ts d -> recency_inv ts (tl d).
Proof.
  intros [Hnd Ht Hs]. destruct d as [|e d]; simpl in *.
  - constructor; assumption.
  - inversion Hnd; inversion Ht; inversion Hs; subst. constructor; assumption.
Qed.

(** What a run from the empty cache leaves behind. *)
Lemma LRU_run_inv m ops :
  0 <= m ->
  exists c ts,
    LRU_run (LRU_init m) ops = Some (c, ts)
    /\ maxsize c = m /\ Dict.len (_d c) <= m /\ recency_inv ts (_d c).
Proof.
  intros Hm. induction ops as [|o ops IH] using rev_ind.
  - exists (LRU_init m), []. simpl.
    split; [reflexivity|]. split; [reflexivity|]. split; [exact Hm|].
    constructor; constructor.
  - destruct IH as (c & ts & Hrun & Hmax & Hlen & Hinv).
    rewrite LRU_run_snoc, Hrun. destruct o as [k|k v]; simpl.
    + rewrite LRU_get_eq.
      destruct (Dict.get k (_d c)) as [v|] eqn:Hg; simpl.
      * assert (Hmem : Dict.mem k (_d c) = true) by (apply mem_get; congruence).
        rewrite Hmem. eexists _, _. split; [reflexivity|]. simpl.
        split; [exact Hmax|]. split; [|now apply recency_inv_touch].
        pose proof (touch_Permutation k v (_d c) (inv_nodup _ _ Hinv)) as HP.
        apply Permutation_length in HP. unfold Dict.len in *. rewrite HP.
        now rewrite length_set_mem.
      * apply mem_false_get in Hg. rewrite Hg.
        eexists _, _. split; [reflexivity|].
        split; [exact Hmax|]. split; [exact Hlen | now apply recency_inv_miss].
    + rewrite LRU_set_eq. eexists _, _. split; [reflexivity|]. simpl.
      split; [exact Hmax|].
      pose proof (recency_inv_touch ts (_d c) k v Hinv) as Hinv'.
      rewrite Hmax.
      destruct (Dict.len (Dict.remove k (_d c) ++ [(k, v)]) >? m) eqn:Hover.
      * split; [|now apply recency_inv_tl].
        unfold Dict.len in *. clear Hover.
        pose proof (length_remove k (_d c)).
        destruct (Dict.remove k (_d c)); simpl in *; [lia|].
        rewrite length_app. simpl. lia.
      * split; [|exact Hinv'].
        rewrite Z.gtb_ltb in Hover. now apply Z.ltb_ge in Hover.
Qed.

End LRUFacts.

(** C1. LRU capacity and eviction. Start from [LRU(maxsize)] with a capacity
    [maxsize >= 0] and run any sequence of [get]/[set] operations, then one
    more [set(k, v)]. No [KeyError] escapes; after the [set] the store holds
    at most [maxsize] entries; when the size after the insertion exceeds
    [maxsize], exactly one entry leaves the store and it is the one touched
    least recently (by a [get] that found it or by a [set]), otherwise no
    entry leaves. In particular, for distinct keys [a], [b], [c0] and
    [maxsize = 2], after [set(a); set(b); get(a); set(c0)] the store holds
    exactly [a] and [c0]. *)
Theorem lru_capacity_and_eviction
    (m : Z) (ops : list op) (k : string) (v : value)
    (a b c0 : string) (va vb vc : value) :
  0 <= m ->
  (exists c ts c',
      LRU_run (LRU_init m) ops = Some (c, ts)
      /\ LRU_set c k v = Some c'
      /\ Dict.len (_d c') <= m
      /\ (if Dict.len (Dict.set k v (_d c)) >? m
          then exists ke ve,
              Permutation ((ke, ve) :: _d c') (Dict.set k v (_d c))
              /\ forall k', In k' (Dict.keys (_d c')) ->
                   touched_before (ts ++ [Some k]) ke k'
          else Permutation (_d c') (Dict.set k v (_d c))))
  /\ (a <> b -> a <> c0 -> b <> c0 ->
      exists c2 ts2,
        LRU_run (LRU_init 2) [OpSet a va; OpSet b vb; OpGet a; OpSet c0 vc]
        = Some (c2, ts2)
        /\ _d c2 = [(a, va); (c0, vc)]).
Proof.
  intros Hm. split.
  - destruct (LRUFacts.LRU_run_inv m ops Hm) as (c & ts & Hrun & Hmax & Hlen & Hinv).
    destruct (LRUFacts.LRU_run_inv m (ops ++ [OpSet k v]) Hm)
      as (c' & ts' & Hrun' & Hmax' & Hlen' & _).
    rewrite LRUFacts.LRU_run_snoc, Hrun in Hrun'. simpl in Hrun'.
    destruct (LRU_set c k v) as [c1|] eqn:Hset; [|discriminate].
    injection Hrun' as <- <-.
    exists c, ts, c1. repeat split; try assumption.
    pose proof (DictFacts.touch_Permutation k v (_d c) (inv_nodup _ _ Hinv)) as HP.
    pose proof (LRUFacts.recency_inv_touch ts (_d c) k v Hinv) as Hinv2.
    rewrite LRUFacts.LRU_set_eq in Hset. injection Hset as <-. simpl.
    rewrite Hmax.
    assert (Hl : Dict.len (Dict.remove k (_d c) ++ [(k, v)])
                 = Dict.len (Dict.set k v (_d c))).
    { unfold Dict.len. now rewrite (Permutation_length HP). }
    rewrite Hl.
    destruct (Dict.len (Dict.set k v (_d c)) >? m); [|exact HP].
    destruct (Dict.remove k (_d c) ++ [(k, v)])%list as [|[ke ve] d2] eqn:Hd2.
    + destruct (Dict.remove k (_d c)); discriminate.
    + exists ke, ve. split; [exact HP|]. simpl.
      intros k' Hk'. destruct Hinv2 as [_ _ Hs]. simpl in Hs.
      inversion Hs as [|? ? _ Hall]; subst.
      rewrite Forall_forall in Hall. now apply Hall.
  - intros Hab Hac Hbc.
    assert (Eab : String.eqb a b = false) by now apply String.eqb_neq.
    assert (Eba : String.eqb b a = false) by (apply String.eqb_neq; congruence).
    assert (Eac : String.eqb a c0 = false) by now apply String.eqb_neq.
    assert (Ebc : String.eqb b c0 = false) by now apply String.eqb_neq.
    eexists _, _. unfold LRU_run, LRU_step, LRU_set, LRU_get, Dict.move_to_end.
    simpl.
    repeat (rewrite ?String.eqb_refl, ?Eab, ?Eba, ?Eac, ?Ebc; simpl).
    split; reflexivity.
Qed.

(** The statement at [maxsize = 2], after [set(a); set(b); get(a)], for
    [set(c)]. *)
Lemma lru_capacity_and_eviction_witness :
  0 <= 2
  /\ exists c ts c',
      LRU_run (LRU_init 2) [OpSet "a" (VInt 1); OpSet "b" (VInt 2); OpGet "a"]
      = Some (c, ts)
      /\ LRU_set c "c" (VInt 3) = Some c'
      /\ Dict.len (_d c') <= 2.
Proof.
  split; [lia|].
  destruct (lru_capacity_and_eviction 2
              [OpSet "a" (VInt 1); OpSet "b" (VInt 2); OpGet "a"] "c" (VInt 3)
              "a" "b" "c" VNone VNone VNone) as [(c & ts & c' & H1 & H2 & H3 & _) _];
    [lia|].
  exists c, ts, c'. auto.
Defined.

(** ** The fetcher *)

Module GetFacts.
Import DictFacts LRUFacts.

Lemma cache_get_found key v st :
  Dict.get key (_d (CACHE st)) = Some v ->
  cache_get key st = (Val v, mkState (refreshed (CACHE st) key v) (trace st)).
Proof.
  intros H. unfold cache_get. now rewrite LRU_get_eq, H.
Qed.

Lemma cache_get_absent key st :
  Dict.get key (_d (CACHE st)) = None ->
  cache_get key st = (Val VNone, st).
Proof.
  intros H. unfold cache_get. rewrite LRU_get_eq, H. now destruct st.
Qed.

Lemma get_refreshed c key v k :
  Dict.get key (_d c) = Some v ->
  Dict.get k (_d (refreshed c key v)) = Dict.get k (_d c).
Proof.
  intros H. unfold refreshed. simpl. rewrite get_app.
  destruct (String.eqb_spec key k) as [<-|Hne].
  - rewrite get_remove_same. simpl. now rewrite String.eqb_refl, H.
  - rewrite get_remove_other by congruence.
    destruct (Dict.get k (_d c)); [reflexivity|]. simpl.
    destruct (String.eqb_spec key k); [contradiction | reflexivity].
Qed.

Lemma cache_set_eq key data st :
  cache_set key data st =
  (Val tt,
   mkState
     (mkLRU (maxsize (CACHE st))
        (let d2 := _d (refreshed (CACHE st) key data) in
         if Dict.len d2 >? maxsize (CACHE st) then tl d2 else d2))
     (trace st ++ [EvCacheSet key data])).
Proof.
  unfold cache_set. now rewrite LRU_set_eq.
Qed.

(** A response that is not [ok]: nothing but the request happens. *)
Lemma fetch_not_ok E path params key use_cache st r :
  transport E (requests_of (trace st)) (the_request E path params) = Reply r ->
  ok r = false ->
  fetch E path params key use_cache st
  = (Val (error_result path r),
     mkState (CACHE st) (trace st ++ [EvRequest (the_request E path params)])).
Proof.
  intros Ht Hok. unfold fetch, bind, requests_get. now rewrite Ht, Hok.
Qed.

(** A response that is [ok] and parses. *)
Lemma fetch_ok E path params key st r data :
  transport E (requests_of (trace st)) (the_request E path params) = Reply r ->
  ok r = true ->
  json r = Some data ->
  fetch E path params key true st
  = (Val (fresh_result data r),
     mkState
       (mkLRU (maxsize (CACHE st))
          (let d2 := _d (refreshed (CACHE st) key data) in
           if Dict.len d2 >? maxsize (CACHE st) then tl d2 else d2))
       (trace st ++ [EvRequest (the_request E path params); EvCacheSet key data])).
Proof.
  intros Ht Hok Hj. unfold fetch, bind, requests_get.
  rewrite Ht, Hok, Hj. simpl. unfold ret. rewrite cache_set_eq. simpl.
  now rewrite <- app_assoc.
Qed.

(** With [use_cache], [_get] answers from the cache exactly when the
    lookup yields something other than [None]. *)
Lemma _get_hit E path params st v :
  Dict.get (_cache_key path (or_empty params)) (_d (CACHE st)) = Some v ->
  v <> VNone ->
  _get E path params true st
  = (Val (hit_result v),
     mkState (refreshed (CACHE st) (_cache_key path (or_empty params)) v) (trace st)).
Proof.
  intros Hg Hv. unfold _get, bind. rewrite (cache_get_found _ _ _ Hg).
  destruct v; try reflexivity. congruence.
Qed.

Lemma _get_absent E path params st :
  Dict.get (_cache_key path (or_empty params)) (_d (CACHE st)) = None ->
  _get E path params true st
  = fetch E path (or_empty params) (_cache_key path (or_empty params)) true st.
Proof.
  intros Hg. unfold _get, bind. now rewrite (cache_get_absent _ _ Hg).
Qed.

Lemma _get_stored_none E path params st :
  Dict.get (_cache_key path (or_empty params)) (_d (CACHE st)) = Some VNone ->
  _get E path params true st
  = fetch E path (or_empty params) (_cache_key path (or_empty params)) true
      (mkState (refreshed (CACHE st) (_cache_key path (or_empty params)) VNone)
         (trace st)).
Proof.
  intros Hg. unfold _get, bind. now rewrite (cache_get_found _ _ _ Hg).
Qed.

End GetFacts.

(** C2, as amended. When the key of [(path, params)] holds a cached payload
    other than [None], [_get(path, params, use_cache=True)] returns that
    payload marked [from_cache=True]; it makes no request and does not
    write to the cache: the lookup comes first and decides. *)
Theorem get_cache_hit
    (E : Env) (path : string) (params : option dict) (st : state) (v : value) :
  Dict.get (_cache_key path (or_empty params)) (_d (CACHE st)) = Some v ->
  v <> VNone ->
  exists st',
    _get E path params true st
    = (Val [("data", v); ("from_cache", VBool true)], st')
    /\ trace st' = trace st
    /\ forall k, Dict.get k (_d (CACHE st')) = Dict.get k (_d (CACHE st)).
Proof.
  intros Hg Hv. eexists. split; [now apply GetFacts._get_hit|].
  split; [reflexivity|]. intros k. simpl. now apply GetFacts.get_refreshed.
Qed.

Lemma get_cache_hit_witness :
  let st := mkState (mkLRU 128 [(_cache_key "/repos/o/r" [], VInt 7)]) [] in
  exists st',
    _get null_env "/repos/o/r" None true st
    = (Val [("data", VInt 7); ("from_cache", VBool true)], st')
    /\ trace st' = trace st
    /\ forall k, Dict.get k (_d (CACHE st')) = Dict.get k (_d (CACHE st)).
Proof.
  intros st.
  apply (get_cache_hit null_env "/repos/o/r" None st (VInt 7)).
  - reflexivity.
  - discriminate.
Defined.

(** C2 as stated fails for a cached payload that is [None]: after a first
    successful fetch whose body is [null], the key holds the payload, and
    the second identical call still makes a request and answers
    [from_cache=False]. *)
Lemma get_cache_hit_counterexample :
  let st1 := snd (_get null_env "/repos/o/r" None true initial_state) in
  let r2 := _get null_env "/repos/o/r" None true st1 in
  fst (_get null_env "/repos/o/r" None true initial_state)
  = Val [("data", VNone); ("from_cache", VBool false);
         ("link", VStr ""); ("ratelimit", VStr "")]
  /\ Dict.get (_cache_key "/repos/o/r" []) (_d (CACHE st1)) = Some VNone
  /\ fst r2 = Val [("data", VNone); ("from_cache", VBool false);
                   ("link", VStr ""); ("ratelimit", VStr "")]
  /\ fst r2 <> Val [("data", VNone); ("from_cache", VBool true)]
  /\ trace (snd r2)
     = (trace st1 ++ [EvRequest (the_request null_env "/repos/o/r" []);
                      EvCacheSet (_cache_key "/repos/o/r" []) VNone])%list
  /\ trace (snd r2) <> trace st1.
Proof.
  vm_compute. repeat split; discriminate.
Qed.

(** C7. A response that is not [ok]. Whenever [_get] reaches the remote
    side (the cache is not used, or the lookup yields [None]) and the answer
    has a non-success status, [_get] returns the failure dictionary: the
    status code followed by the first 200 characters of the body (at most
    200, a prefix of the body), the path, and the two rate-limit headers.
    The only effect is the request: nothing is written to the cache, every
    key holds what it held, and the cache is untouched altogether when the
    key is not stored or the cache is not used. *)
Theorem get_failure
    (E : Env) (path : string) (params : option dict) (use_cache : bool)
    (st : state) (r : response) :
  (use_cache = true ->
   forall v, Dict.get (_cache_key path (or_empty params)) (_d (CACHE st)) = Some v ->
             v = VNone) ->
  transport E (requests_of (trace st)) (the_request E path (or_empty params))
  = Reply r ->
  ok r = false ->
  exists st',
    _get E path params use_cache st
    = (Val [("error",
              VStr (str_of_int (status_code r) ++ ": " ++ str_take 200 (text r)));
            ("path", VStr path);
            ("ratelimit-remaining",
              VStr (headers_get "X-RateLimit-Remaining" "" (headers r)));
            ("ratelimit-reset",
              VStr (headers_get "X-RateLimit-Reset" "" (headers r)))], st')
    /\ trace st' = (trace st ++ [EvRequest (the_request E path (or_empty params))])%list
    /\ maxsize (CACHE st') = maxsize (CACHE st)
    /\ (forall k, Dict.get k (_d (CACHE st')) = Dict.get k (_d (CACHE st)))
    /\ (use_cache = false
        \/ Dict.get (_cache_key path (or_empty params)) (_d (CACHE st)) = None ->
        CACHE st' = CACHE st)
    /\ (String.length (str_take 200 (text r)) <= 200)%nat
    /\ String.prefix (str_take 200 (text r)) (text r) = true.
Proof.
  intros Hmiss Ht Hok.
  assert (Hlen : forall n s, (String.length (str_take n s) <= n)%nat).
  { unfold str_take. induction n as [|n IH]; intros [|c s]; simpl; try lia.
    specialize (IH s). lia. }
  assert (Hpre : forall n s, String.prefix (str_take n s) s = true).
  { unfold str_take. induction n as [|n IH]; intros [|c s]; simpl; try reflexivity.
    destruct (ascii_dec c c); [apply IH | contradiction]. }
  destruct use_cache.
  - destruct (Dict.get (_cache_key path (or_empty params)) (_d (CACHE st)))
      as [v|] eqn:Hg.
    + rewrite (Hmiss eq_refl v eq_refl) in Hg.
      rewrite (GetFacts._get_stored_none _ _ _ _ Hg).
      rewrite (GetFacts.fetch_not_ok _ _ _ _ _ _ r) by assumption.
      eexists. split; [reflexivity|]. simpl.
      repeat split; auto.
      * intros k. now apply (GetFacts.get_refreshed (CACHE st)).
      * intros [H|H]; discriminate.
    + rewrite (GetFacts._get_absent _ _ _ _ Hg).
      rewrite (GetFacts.fetch_not_ok _ _ _ _ _ _ r) by assumption.
      eexists. split; [reflexivity|]. simpl. repeat split; auto.
  - unfold _get. rewrite (GetFacts.fetch_not_ok _ _ _ _ _ _ r) by assumption.
    eexists. split; [reflexivity|]. simpl. repeat split; auto.
Qed.

(** C10. [LRU.get] answers [None] both for a key that is not stored and for
    a key that holds [None]. So when [_get] with [use_cache=True] receives a
    successful response whose body parses to [None], it stores it (a cache of
    capacity at least 1 then holds [None] under the key), and in every state
    where the key holds [None] the same call makes a request again and what
    it returns is not marked [from_cache=True]. *)
Theorem get_none_payload_never_hits
    (E : Env) (path : string) (params : option dict) (c : LRU) (st : state) :
  let key := _cache_key path (or_empty params) in
  (Dict.get key (_d c) = None -> option_map fst (LRU_get c key) = Some VNone)
  /\ (Dict.get key (_d c) = Some VNone -> option_map fst (LRU_get c key) = Some VNone)
  /\ (forall r,
        Dict.get key (_d (CACHE st)) = None
        \/ Dict.get key (_d (CACHE st)) = Some VNone ->
        transport E (requests_of (trace st)) (the_request E path (or_empty params))
        = Reply r ->
        ok r = true -> json r = Some VNone ->
        1 <= maxsize (CACHE st) ->
        exists st',
          _get E path params true st = (Val (fresh_result VNone r), st')
          /\ trace st'
             = (trace st ++ [EvRequest (the_request E path (or_empty params));
                             EvCacheSet key VNone])%list
          /\ Dict.get key (_d (CACHE st')) = Some VNone)
  /\ (Dict.get key (_d (CACHE st)) = Some VNone ->
      exists out st',
        _get E path params true st = (out, st')
        /\ (exists t, trace st'
                      = (trace st
                         ++ EvRequest (the_request E path (or_empty params)) :: t)%list)
        /\ forall res, out = Val res ->
                       Dict.get "from_cache" res <> Some (VBool true)).
Proof.
  intros key. split; [|split; [|split]].
  - intros H. now rewrite LRUFacts.LRU_get_eq, H.
  - intros H. now rewrite LRUFacts.LRU_get_eq, H.
  - intros r Hg Ht Hok Hj Hmax.
    assert (Hstored : forall c0 : LRU, 1 <= maxsize c0 ->
              Dict.get key
                (let d2 := _d (refreshed c0 key VNone) in
                 if Dict.len d2 >? maxsize c0 then tl d2 else d2) = Some VNone).
    { intros c0 Hc0. simpl.
      assert (Hlast : Dict.get key (Dict.remove key (_d c0) ++ [(key, VNone)])
                      = Some VNone).
      { rewrite DictFacts.get_app, DictFacts.get_remove_same. simpl.
        now rewrite String.eqb_refl. }
      destruct (Dict.len _ >? maxsize c0) eqn:Hover; [|exact Hlast].
      destruct (Dict.remove key (_d c0)) as [|[k0 v0] d0] eqn:Hrem.
      - simpl in Hover. unfold Dict.len in Hover. simpl in Hover.
        rewrite Z.gtb_ltb in Hover. apply Z.ltb_lt in Hover. lia.
      - simpl. simpl in Hlast.
        destruct (String.eqb_spec k0 key) as [->|Hne]; [|exact Hlast].
        exfalso. apply (DictFacts.not_in_keys_remove key (_d c0)).
        rewrite Hrem. now left. }
    destruct Hg as [Hg|Hg].
    + rewrite (GetFacts._get_absent _ _ _ _ Hg).
      rewrite (GetFacts.fetch_ok _ _ _ _ _ r VNone) by assumption.
      eexists. split; [reflexivity|]. split; [reflexivity|].
      now apply Hstored.
    + rewrite (GetFacts._get_stored_none _ _ _ _ Hg).
      rewrite (GetFacts.fetch_ok _ _ _ _ _ r VNone) by assumption.
      eexists. split; [reflexivity|]. split; [reflexivity|].
      now apply (Hstored (refreshed (CACHE st) key VNone)).
  - intros Hg. rewrite (GetFacts._get_stored_none _ _ _ _ Hg).
    fold key. unfold fetch, bind, requests_get. simpl.
    destruct (transport E (requests_of (trace st)) (the_request E path (or_empty params)))
      as [r|e].
    + destruct (ok r); simpl.
      * destruct (json r) as [data|]; simpl.
        -- unfold ret. rewrite GetFacts.cache_set_eq. simpl.
           eexists _, _. split; [reflexivity|]. split.
           ++ eexists. simpl. rewrite <- app_assoc. reflexivity.
           ++ intros res [= <-]. discriminate.
        -- eexists _, _. split; [reflexivity|]. split.
           ++ exists []. reflexivity.
           ++ intros res [=].
      * eexists _, _. split; [reflexivity|]. split.
        -- exists []. reflexivity.
        -- intros res [= <-]. discriminate.
    + eexists _, _. split; [reflexivity|]. split.
      * exists []. reflexivity.
      * intros res [=].
Qed.

(** ** The paginator *)

Module PagerFacts.
Import DictFacts LRUFacts GetFacts.

Lemma fetch_effects E path params key use_cache st :
  exists out st' evs,
    fetch E path params key use_cache st = (out, st')
    /\ out <> OutOfFuel
    /\ trace st' = (trace st ++ EvRequest (the_request E path params) :: evs)%list
    /\ (evs = [] \/ exists data, evs = [EvCacheSet key data]).
Proof.
  unfold fetch, bind, requests_get.
  destruct (transport E (requests_of (trace st)) (the_request E path params))
    as [r|e].
  - destruct (ok r); simpl.
    + destruct (json r) as [data|]; simpl.
      * destruct use_cache.
        -- rewrite cache_set_eq. simpl. eexists _, _, _. split; [reflexivity|].
           split; [discriminate|]. rewrite <- app_assoc. simpl.
           split; [reflexivity|]. right. now exists data.
        -- simpl. eexists _, _, []. split; [reflexivity|].
           split; [discriminate|]. split; [reflexivity | now left].
      * eexists _, _, []. split; [reflexivity|].
        split; [discriminate|]. split; [reflexivity | now left].
    + eexists _, _, []. split; [reflexivity|].
      split; [discriminate|]. split; [reflexivity | now left].
  - eexists _, _, []. split; [reflexivity|].
    split; [discriminate|]. split; [reflexivity | now left].
Qed.

Lemma _get_effects E path params st :
  exists out st' evs,
    _get E path params true st = (out, st')
    /\ out <> OutOfFuel
    /\ trace st' = (trace st ++ evs)%list
    /\ get_events (the_request E path (or_empty params))
         (_cache_key path (or_empty params)) evs.
Proof.
  set (key := _cache_key path (or_empty params)).
  assert (Hfetch : forall st0, trace st0 = trace st ->
    exists out st' evs,
      fetch E path (or_empty params) key true st0 = (out, st')
      /\ out <> OutOfFuel
      /\ trace st' = (trace st ++ evs)%list
      /\ get_events (the_request E path (or_empty params)) key evs).
  { intros st0 Ht.
    destruct (fetch_effects E path (or_empty params) key true st0)
      as (out & st' & evs & Hf & Ho & Htr & Hev).
    exists out, st', (EvRequest (the_request E path (or_empty params)) :: evs).
    rewrite <- Ht. repeat split; try assumption.
    destruct Hev as [->|[data ->]]; [right; now left | right; right; now exists data]. }
  destruct (Dict.get key (_d (CACHE st))) as [v|] eqn:Hg.
  - destruct v; try (eexists _, _, []; unfold key in Hg;
      rewrite (_get_hit _ _ _ _ _ Hg) by discriminate;
      split; [reflexivity|]; split; [discriminate|]; simpl; rewrite app_nil_r;
      split; [reflexivity | now left]).
    unfold key in Hg. rewrite (_get_stored_none _ _ _ _ Hg). now apply Hfetch.
  - unfold key in Hg. rewrite (_get_absent _ _ _ _ Hg). now apply Hfetch.
Qed.

Lemma get_events_page E path params page evs :
  get_events (page_request E path params page) (page_key path params page) evs ->
  Forall (page_event E path params page page) evs.
Proof.
  intros [->|[->|[data ->]]]; repeat constructor; simpl; exists page; split; (lia || reflexivity).
Qed.

Lemma page_event_weaken E path params lo hi lo' hi' e :
  lo' <= lo -> hi <= hi' ->
  page_event E path params lo hi e -> page_event E path params lo' hi' e.
Proof.
  intros Hlo Hhi. destruct e; simpl; auto.
  - intros (q & Hq & ->). exists q. split; [lia | reflexivity].
  - intros (q & Hq & ->). exists q. split; [lia | reflexivity].
Qed.

(** One page: a request, possibly a pause and a second request. *)
Lemma fetch_page_effects E path params page st :
  exists out st' evs,
    fetch_page E path params page st = (out, st')
    /\ out <> OutOfFuel
    /\ trace st' = (trace st ++ evs)%list
    /\ Forall (page_event E path params page page) evs.
Proof.
  unfold fetch_page, bind.
  destruct (_get_effects E path (Some (Dict.merged params "page" (VInt page))) st)
    as (out1 & st1 & evs1 & Hg1 & Ho1 & Ht1 & He1).
  rewrite Hg1. apply get_events_page in He1.
  destruct out1 as [res1|e|]; [| |contradiction].
  2: { eexists _, _, evs1. repeat split; (discriminate || assumption). }
  destruct (Dict.mem "error" res1).
  2: { eexists _, _, evs1. repeat split; (discriminate || assumption). }
  unfold lift. destruct (error_lower res1) as [err|e|] eqn:Herr.
  3: { unfold error_lower, getitem in Herr.
       destruct (Dict.get "error" res1) as [[]|]; discriminate. }
  2: { eexists _, _, evs1. repeat split; (discriminate || assumption). }
  destruct (is_rate_limit err).
  2: { eexists _, _, evs1. repeat split; (discriminate || assumption). }
  unfold sleep. change (Qle_bool 0 (2 # 1)) with true. cbv iota.
  destruct (_get_effects E path (Some (Dict.merged params "page" (VInt page)))
              (mkState (CACHE st1) (trace st1 ++ [EvSleep (2 # 1)])))
    as (out2 & st2 & evs2 & Hg2 & Ho2 & Ht2 & He2).
  rewrite Hg2. apply get_events_page in He2. simpl in Ht2.
  assert (Htr : trace st2 = (trace st ++ (evs1 ++ EvSleep (2 # 1) :: evs2))%list).
  { rewrite Ht2, Ht1, <- !app_assoc. reflexivity. }
  assert (Hall : Forall (page_event E path params page page)
                   (evs1 ++ EvSleep (2 # 1) :: evs2)).
  { apply Forall_app. split; [assumption|]. constructor; [exact I | assumption]. }
  destruct out2 as [res2|e|]; [| |contradiction].
  - destruct (Dict.mem "error" res2);
      eexists _, _, _; repeat split; (discriminate || eassumption).
  - eexists _, _, _; repeat split; (discriminate || eassumption).
Qed.

(** The loop ends within [max_pages - page + 1] iterations and only
    concerns the pages from [page] to [max_pages]. *)
Lemma loop_effects E path params max_pages sleep_s fuel :
  forall all_items page st,
    (Z.to_nat (max_pages - page + 1) <= fuel)%nat ->
    exists out st' evs,
      _get_all_loop fuel E path params max_pages sleep_s all_items page st
      = (out, st')
      /\ out <> OutOfFuel
      /\ trace st' = (trace st ++ evs)%list
      /\ Forall (page_event E path params page max_pages) evs.
Proof.
  induction fuel as [|fuel IH]; intros all_items page st Hfuel.
  - simpl. destruct (page <=? max_pages) eqn:Hle.
    + apply Z.leb_le in Hle. lia.
    + eexists _, _, []. split; [reflexivity|]. split; [discriminate|].
      rewrite app_nil_r. split; [reflexivity | constructor].
  - simpl. destruct (page <=? max_pages) eqn:Hle.
    2: { eexists _, _, []. split; [reflexivity|]. split; [discriminate|].
         rewrite app_nil_r. split; [reflexivity | constructor]. }
    apply Z.leb_le in Hle.
    unfold bind at 1.
    destruct (fetch_page_effects E path params page st)
      as (out1 & st1 & evs1 & Hf & Ho1 & Ht1 & He1).
    rewrite Hf.
    assert (He1' : Forall (page_event E path params page max_pages) evs1).
    { eapply Forall_impl; [|exact He1]. intros e.
      apply page_event_weaken; lia. }
    destruct out1 as [[res|res]|e|]; [| | |contradiction].
    + eexists _, _, evs1. repeat split; (discriminate || assumption).
    + unfold bind, lift.
      destruct (getitem "data" res) as [data|e|] eqn:Hdata.
      3: { unfold getitem in Hdata. destruct (Dict.get "data" res); discriminate. }
      2: { eexists _, _, evs1. repeat split; (discriminate || assumption). }
      destruct (page_items data) as [[l|]|e|] eqn:Hitems.
      4: { unfold page_items in Hitems.
           destruct data as [| | | |[|]|d]; try discriminate.
           destruct (negb (truthy _)); [discriminate|].
           destruct (iterate _); discriminate. }
      3: { eexists _, _, evs1. repeat split; (discriminate || assumption). }
      2: { eexists _, _, evs1. repeat split; (discriminate || assumption). }
      destruct (link_of res) as [link|e|] eqn:Hlink.
      3: { unfold link_of in Hlink.
           destruct (Dict.get "link" res) as [v|]; [|discriminate].
           destruct (truthy v); [destruct v|]; discriminate. }
      2: { eexists _, _, evs1. repeat split; (discriminate || assumption). }
      destruct (negb (contains rel_next link)).
      { eexists _, _, evs1. repeat split; (discriminate || assumption). }
      assert (Hnext : forall st2 evs2,
        trace st2 = (trace st ++ evs2)%list ->
        Forall (page_event E path params page max_pages) evs2 ->
        exists out st' evs,
          _get_all_loop fuel E path params max_pages sleep_s
            (all_items ++ l) (page + 1) st2 = (out, st')
          /\ out <> OutOfFuel
          /\ trace st' = (trace st ++ evs)%list
          /\ Forall (page_event E path params page max_pages) evs).
      { intros st2 evs2 Ht2 He2.
        destruct (IH (all_items ++ l)%list (page + 1) st2 ltac:(lia))
          as (out & st' & evs & Hl & Ho & Ht & He).
        exists out, st', (evs2 ++ evs)%list. split; [exact Hl|].
        split; [exact Ho|]. split.
        - rewrite Ht, Ht2, app_assoc. reflexivity.
        - apply Forall_app. split; [exact He2|].
          eapply Forall_impl; [|exact He]. intros e.
          apply page_event_weaken; lia. }
      destruct (negb (Qeq_bool sleep_s 0)).
      * unfold sleep. destruct (Qle_bool 0 sleep_s).
        -- apply (Hnext _ (evs1 ++ [EvSleep sleep_s])%list).
           ++ simpl. rewrite Ht1, app_assoc. reflexivity.
           ++ apply Forall_app. split; [exact He1' | repeat constructor].
        -- eexists _, _, evs1. repeat split; (discriminate || assumption).
      * unfold ret. now apply (Hnext _ evs1).
    + eexists _, _, evs1. repeat split; (discriminate || assumption).
Qed.

(** The three ways an iteration that fetched its page goes on. *)
Section Iteration.
Variables (E : Env) (path : string) (params : dict) (max_pages : Z)
          (sleep_s : Q).
Variables (n : nat) (all_items : list value) (page : Z) (st st1 : state)
          (res : dict) (data : value).
Hypothesis Hpage : page <= max_pages.
Hypothesis Hfetch : fetch_page E path params page st = (Val (inr res), st1).
Hypothesis Hdata : Dict.get "data" res = Some data.

Lemma loop_empty_page :
  page_items data = Val None ->
  _get_all_loop (S n) E path params max_pages sleep_s all_items page st
  = (Val [("data", VList all_items)], st1).
Proof.
  intros Hi. simpl. apply Z.leb_le in Hpage. rewrite Hpage.
  unfold bind at 1. rewrite Hfetch.
  unfold bind, lift, getitem. now rewrite Hdata, Hi.
Qed.

Lemma loop_last_page l link :
  page_items data = Val (Some l) ->
  link_of res = Val link ->
  contains rel_next link = false ->
  _get_all_loop (S n) E path params max_pages sleep_s all_items page st
  = (Val [("data", VList (all_items ++ l))], st1).
Proof.
  intros Hi Hl Hn. simpl. apply Z.leb_le in Hpage. rewrite Hpage.
  unfold bind at 1. rewrite Hfetch.
  unfold bind, lift, getitem. now rewrite Hdata, Hi, Hl, Hn.
Qed.

Lemma loop_next_page l link :
  page_items data = Val (Some l) ->
  link_of res = Val link ->
  contains rel_next link = true ->
  _get_all_loop (S n) E path params max_pages sleep_s all_items page st
  = match after_pause sleep_s st1 with
    | Some st2 =>
        _get_all_loop n E path params max_pages sleep_s (all_items ++ l)
          (page + 1) st2
    | None => (Raise NegativeSleep, st1)
    end.
Proof.
  intros Hi Hl Hn. simpl. apply Z.leb_le in Hpage. rewrite Hpage.
  unfold bind at 1. rewrite Hfetch.
  unfold bind, lift, getitem. rewrite Hdata, Hi, Hl, Hn. simpl.
  unfold after_pause, sleep. destruct (negb (Qeq_bool sleep_s 0)); [|reflexivity].
  now destruct (Qle_bool 0 sleep_s).
Qed.
End Iteration.

Lemma requests_of_app t1 t2 :
  requests_of (t1 ++ t2) = (requests_of t1 ++ requests_of t2)%list.
Proof.
  induction t1 as [|[r|q|k d] t1 IH]; simpl; congruence.
Qed.

(** What follows a page that was fetched without failure only concerns
    the later pages. *)
Lemma loop_after_fetch E path params max_pages sleep_s fuel all_items page
    st res st1 :
  page <= max_pages ->
  (Z.to_nat (max_pages - page + 1) <= fuel)%nat ->
  fetch_page E path params page st = (Val (inr res), st1) ->
  exists out st' evs,
    _get_all_loop fuel E path params max_pages sleep_s all_items page st
    = (out, st')
    /\ out <> OutOfFuel
    /\ trace st' = (trace st1 ++ evs)%list
    /\ Forall (page_event E path params (page + 1) max_pages) evs.
Proof.
  intros Hp Hfuel Hf.
  destruct fuel as [|n]; [lia|].
  assert (Hdone : forall out, out <> OutOfFuel ->
    exists (out0 : result dict) (st' : state) (evs : list event),
      (out, st1) = (out0, st') /\ out0 <> OutOfFuel
      /\ trace st' = (trace st1 ++ evs)%list
      /\ Forall (page_event E path params (page + 1) max_pages) evs).
  { intros out Ho. exists out, st1, []. rewrite app_nil_r.
    repeat split; (assumption || constructor). }
  simpl. pose proof Hp as Hle. apply Z.leb_le in Hle. rewrite Hle.
  unfold bind at 1. rewrite Hf. unfold bind, lift.
  destruct (getitem "data" res) as [data|e|] eqn:Hdata.
  3: { unfold getitem in Hdata. destruct (Dict.get "data" res); discriminate. }
  2: { apply Hdone. discriminate. }
  destruct (page_items data) as [[l|]|e|] eqn:Hitems.
  4: { unfold page_items in Hitems.
       destruct data as [| | | |[|]|d]; try discriminate.
       destruct (negb (truthy _)); [discriminate|].
       destruct (iterate _); discriminate. }
  3: { apply Hdone. discriminate. }
  2: { apply Hdone. discriminate. }
  destruct (link_of res) as [link|e|] eqn:Hlink.
  3: { unfold link_of in Hlink.
       destruct (Dict.get "link" res) as [v|]; [|discriminate].
       destruct (truthy v); [destruct v|]; discriminate. }
  2: { apply Hdone. discriminate. }
  destruct (negb (contains rel_next link)); [apply Hdone; discriminate|].
  destruct (negb (Qeq_bool sleep_s 0)).
  - unfold sleep. destruct (Qle_bool 0 sleep_s); [|apply Hdone; discriminate].
    destruct (loop_effects E path params max_pages sleep_s n (all_items ++ l)
                (page + 1)
                (mkState (CACHE st1) (trace st1 ++ [EvSleep sleep_s])) ltac:(lia))
      as (out & st' & evs & Hl & Ho & Ht & He).
    exists out, st', (EvSleep sleep_s :: evs). split; [exact Hl|].
    split; [exact Ho|]. split.
    + rewrite Ht. simpl. now rewrite <- app_assoc.
    + constructor; [exact I | exact He].
  - unfold ret.
    destruct (loop_effects E path params max_pages sleep_s n (all_items ++ l)
                (page + 1) st1 ltac:(lia))
      as (out & st' & evs & Hl & Ho & Ht & He).
    exists out, st', evs. auto.
Qed.

(** The first attempt at a page that the cache does not answer, when the
    remote side answers with a status that is not [ok]. *)
Lemma failing_get E path params st r :
  (forall v, Dict.get (_cache_key path params) (_d (CACHE st)) = Some v ->
             v = VNone) ->
  transport E (requests_of (trace st)) (the_request E path params) = Reply r ->
  ok r = false ->
  exists c,
    _get E path (Some params) true st
    = (Val (error_result path r),
       mkState c (trace st ++ [EvRequest (the_request E path params)]))
    /\ forall v, Dict.get (_cache_key path params) (_d c) = Some v -> v = VNone.
Proof.
  intros Hmiss Ht Hok.
  destruct (Dict.get (_cache_key path params) (_d (CACHE st))) as [v|] eqn:Hg.
  - rewrite (Hmiss v eq_refl) in Hg.
    rewrite (_get_stored_none E path (Some params) st Hg). simpl or_empty.
    rewrite (fetch_not_ok _ _ _ _ _ _ r) by assumption.
    eexists. split; [reflexivity|]. simpl.
    intros v'. rewrite get_app, get_remove_same. simpl.
    rewrite String.eqb_refl. congruence.
  - rewrite (_get_absent E path (Some params) st Hg). simpl or_empty.
    rewrite (fetch_not_ok _ _ _ _ _ _ r) by assumption.
    eexists. split; [reflexivity|]. simpl. intros v'. congruence.
Qed.

Lemma loop_past_ceiling E path params max_pages sleep_s n all_items page st :
  max_pages < page ->
  _get_all_loop n E path params max_pages sleep_s all_items page st
  = (Val [("data", VList all_items)], st).
Proof.
  intros H. apply Z.leb_gt in H. destruct n; simpl; now rewrite H.
Qed.

Lemma link_of_next res link :
  Dict.get "link" res = Some (VStr link) ->
  contains rel_next link = true ->
  link_of res = Val link.
Proof.
  intros Hl Hn. unfold link_of. rewrite Hl.
  destruct link; [discriminate | reflexivity].
Qed.

(** A pause that is not negative goes through. *)
Lemma after_pause_nonneg sleep_s st :
  (0 <= sleep_s)%Q ->
  exists st2, after_pause sleep_s st = Some st2
              /\ CACHE st2 = CACHE st
              /\ (trace st2 = trace st
                  \/ trace st2 = (trace st ++ [EvSleep sleep_s])%list).
Proof.
  intros H. apply Qle_bool_iff in H. unfold after_pause. rewrite H.
  destruct (negb (Qeq_bool sleep_s 0)); eexists; split; try reflexivity;
    split; try reflexivity; [now right | now left].
Qed.

(** A negative pause raises. *)
Lemma after_pause_negative sleep_s st :
  (sleep_s < 0)%Q -> after_pause sleep_s st = None.
Proof.
  intros H. unfold after_pause.
  assert (Hle : Qle_bool 0 sleep_s = false).
  { destruct (Qle_bool 0 sleep_s) eqn:E; [|reflexivity].
    apply Qle_bool_iff in E. exfalso. exact (Qlt_not_le _ _ H E). }
  assert (Hne : Qeq_bool sleep_s 0 = false).
  { destruct (Qeq_bool sleep_s 0) eqn:E; [|reflexivity].
    apply Qeq_bool_iff in E. rewrite E in H. exfalso. exact (Qlt_irrefl 0 H). }
  now rewrite Hne, Hle.
Qed.

Lemma after_pause_None sleep_s st :
  after_pause sleep_s st = None <-> (sleep_s < 0)%Q.
Proof.
  split; [|apply after_pause_negative].
  unfold after_pause. destruct (negb (Qeq_bool sleep_s 0)); [|discriminate].
  destruct (Qle_bool 0 sleep_s) eqn:E; [discriminate|]. intros _.
  apply Qnot_le_lt. intros H. apply Qle_bool_iff in H. congruence.
Qed.

End PagerFacts.

(** C5. The page ceiling. With at least [max_pages] iterations allowed,
    [_get_all] returns (it does not run out of iterations) and every request
    it makes is the request of a page between 1 and [max_pages]. When the
    page [max_pages] is fetched with items and its [link] still announces a
    next page, the loop stops there without an error and returns the items
    accumulated so far, this page included (the pause between two pages,
    of a length [sleep_s] that is not negative, comes first). With
    [max_pages = 2] and a
    remote side that always has items and a next page, exactly the pages 1
    and 2 are requested. *)
Theorem get_all_page_ceiling
    (E : Env) (path : string) (params : option dict) (max_pages : Z)
    (sleep_s : Q) (fuel : nat) (st : state) :
  (Z.to_nat max_pages <= fuel)%nat ->
  (exists out st' evs,
      _get_all fuel E path params max_pages sleep_s st = (out, st')
      /\ out <> OutOfFuel
      /\ trace st' = (trace st ++ evs)%list
      /\ forall r, In (EvRequest r) evs ->
           exists q, 1 <= q <= max_pages
                     /\ r = page_request E path (or_empty params) q)
  /\ (forall n all_items st0 res st1 data l link,
        (0 <= sleep_s)%Q ->
        fetch_page E path (or_empty params) max_pages st0 = (Val (inr res), st1) ->
        Dict.get "data" res = Some data ->
        page_items data = Val (Some l) ->
        Dict.get "link" res = Some (VStr link) ->
        contains rel_next link = true ->
        exists st2,
          after_pause sleep_s st1 = Some st2
          /\ _get_all_loop (S n) E path (or_empty params) max_pages sleep_s
               all_items max_pages st0
             = (Val [("data", VList (all_items ++ l))], st2))
  /\ (let r := _get_all 2 always_next_env "/search/issues" None 2 0 initial_state in
      fst r = Val [("data", VList [VInt 1; VInt 2])]
      /\ requests_of (trace (snd r))
         = [page_request always_next_env "/search/issues" [] 1;
            page_request always_next_env "/search/issues" [] 2]).
Proof.
  intros Hfuel. split; [|split].
  - unfold _get_all.
    destruct (PagerFacts.loop_effects E path (or_empty params) max_pages sleep_s
                fuel [] 1 st) as (out & st' & evs & Hl & Ho & Ht & He).
    { replace (max_pages - 1 + 1) with max_pages by lia. exact Hfuel. }
    exists out, st', evs. repeat split; try assumption.
    intros r Hr. rewrite Forall_forall in He. exact (He _ Hr).
  - intros n all_items st0 res st1 data l link Hs Hf Hd Hi Hlk Hnext.
    destruct (PagerFacts.after_pause_nonneg sleep_s st1 Hs) as (st2 & Hpause & _).
    exists st2. split; [exact Hpause|].
    rewrite (PagerFacts.loop_next_page _ _ _ _ _ _ _ _ _ _ _ _ (Z.le_refl _)
               Hf Hd l link Hi (PagerFacts.link_of_next _ _ Hlk Hnext) Hnext).
    rewrite Hpause. apply PagerFacts.loop_past_ceiling. lia.
  - vm_compute. split; reflexivity.
Qed.

(** C4. An empty page ends the loop normally. When a page is fetched
    without failure and its collection (the payload itself when it is a
    list, its [items] otherwise, [[]] when there is no such field) is empty,
    the loop stops and returns the items accumulated so far under [data],
    with no [error]. So when the first page has items and announces a next
    page and the second page, fetched after the pause of a length [sleep_s]
    that is not negative, is empty, [_get_all] returns exactly the items of
    the first page. *)
Theorem get_all_empty_page_stops
    (E : Env) (path : string) (max_pages : Z) (sleep_s : Q) :
  (forall n params all_items page st res st1 data,
      page <= max_pages ->
      fetch_page E path params page st = (Val (inr res), st1) ->
      Dict.get "data" res = Some data ->
      (data = VList []
       \/ exists d, data = VDict d
                    /\ truthy (match Dict.get "items" d with
                               | Some v => v
                               | None => VList []
                               end) = false) ->
      _get_all_loop (S n) E path params max_pages sleep_s all_items page st
      = (Val [("data", VList all_items)], st1))
  /\ (forall n params st res1 st1 st1' data1 l1 link res2 st2 data2,
        2 <= max_pages ->
        (0 <= sleep_s)%Q ->
        fetch_page E path (or_empty params) 1 st = (Val (inr res1), st1) ->
        Dict.get "data" res1 = Some data1 ->
        page_items data1 = Val (Some l1) ->
        Dict.get "link" res1 = Some (VStr link) ->
        contains rel_next link = true ->
        after_pause sleep_s st1 = Some st1' ->
        fetch_page E path (or_empty params) 2 st1' = (Val (inr res2), st2) ->
        Dict.get "data" res2 = Some data2 ->
        page_items data2 = Val None ->
        _get_all (S (S n)) E path params max_pages sleep_s st
        = (Val [("data", VList l1)], st2))
  /\ (let r := _get_all 5 two_pages_env "/repos/o/r/issues" None 5 0 initial_state in
      fst r = Val [("data", VList [VInt 1; VInt 2])]
      /\ requests_of (trace (snd r))
         = [page_request two_pages_env "/repos/o/r/issues" [] 1;
            page_request two_pages_env "/repos/o/r/issues" [] 2]).
Proof.
  split; [|split].
  - intros n params all_items page st res st1 data Hp Hf Hd Hempty.
    apply (PagerFacts.loop_empty_page _ _ _ _ _ _ _ _ _ _ _ _ Hp Hf Hd).
    destruct Hempty as [->|(d & -> & Ht)]; [reflexivity|].
    unfold page_items. now rewrite Ht.
  - intros n params st res1 st1 st1' data1 l1 link res2 st2 data2
      Hmax Hs Hf1 Hd1 Hi1 Hl1 Hn1 Hpause Hf2 Hd2 Hi2.
    unfold _get_all.
    assert (H1 : 1 <= max_pages) by lia.
    rewrite (PagerFacts.loop_next_page _ _ _ _ _ _ _ _ _ _ _ _ H1
               Hf1 Hd1 l1 link Hi1 (PagerFacts.link_of_next _ _ Hl1 Hn1) Hn1).
    rewrite Hpause. simpl app. change (1 + 1) with 2.
    apply (PagerFacts.loop_empty_page _ _ _ _ _ _ _ _ _ _ _ _ Hmax Hf2 Hd2 Hi2).
  - vm_compute. split; reflexivity.
Qed.

(** C9. A cache hit ends the pagination. The result of [_get] on a hit has
    no [link] field; so an iteration whose page is answered from the cache
    is the last one: the loop returns right there with the accumulated items
    and those of the cached page (or with the error of a payload that has no
    items to iterate), and makes no request. A second identical [_get_all]
    therefore returns the first page only, although the response that was
    cached for it announced a next page. *)
Theorem get_all_stops_at_cache_hit
    (E : Env) (path : string) (params : dict) (max_pages : Z) (sleep_s : Q)
    (n : nat) (all_items : list value) (page : Z) (st : state) (v : value) :
  page <= max_pages ->
  Dict.get (page_key path params page) (_d (CACHE st)) = Some v ->
  v <> VNone ->
  (exists res st1,
      _get E path (Some (Dict.merged params "page" (VInt page))) true st
      = (Val res, st1)
      /\ res = [("data", v); ("from_cache", VBool true)]
      /\ Dict.get "link" res = None
      /\ trace st1 = trace st)
  /\ (exists out st',
        _get_all_loop (S n) E path params max_pages sleep_s all_items page st
        = (out, st')
        /\ trace st' = trace st
        /\ match page_items v with
           | Val None => out = Val [("data", VList all_items)]
           | Val (Some l) => out = Val [("data", VList (all_items ++ l))]
           | Raise e => out = Raise e
           | OutOfFuel => False
           end)
  /\ (let r1 := _get_all 2 always_next_env "/search/issues" None 2 0 initial_state in
      let r2 := _get_all 2 always_next_env "/search/issues" None 2 0 (snd r1) in
      fst r1 = Val [("data", VList [VInt 1; VInt 2])]
      /\ fst r2 = Val [("data", VList [VInt 1])]
      /\ trace (snd r2) = trace (snd r1)).
Proof.
  intros Hp Hg Hv.
  pose proof (GetFacts._get_hit E path
                (Some (Dict.merged params "page" (VInt page))) st v Hg Hv) as Hhit.
  split; [|split].
  - eexists _, _. split; [exact Hhit|]. repeat split.
  - assert (Hf : fetch_page E path params page st
                 = (Val (inr (hit_result v)),
                    mkState (refreshed (CACHE st) (page_key path params page) v)
                      (trace st))).
    { unfold fetch_page, bind. rewrite Hhit. reflexivity. }
    destruct (page_items v) as [[l|]|e|] eqn:Hi.
    + eexists _, _. split; [|split; [|reflexivity]].
      * apply (PagerFacts.loop_last_page _ _ _ _ _ _ _ _ _ _ _ _ Hp Hf eq_refl
                 l "" Hi); reflexivity.
      * reflexivity.
    + eexists _, _. split; [|split; [|reflexivity]].
      * apply (PagerFacts.loop_empty_page _ _ _ _ _ _ _ _ _ _ _ _ Hp Hf eq_refl Hi).
      * reflexivity.
    + eexists _, _. split; [|split; [|reflexivity]].
      * simpl. apply Z.leb_le in Hp. rewrite Hp. unfold bind at 1. rewrite Hf.
        unfold bind, lift, getitem. simpl. rewrite Hi. reflexivity.
      * reflexivity.
    + unfold page_items in Hi. destruct v as [| | | |[|]|d]; try discriminate.
      destruct (negb (truthy _)); [discriminate|].
      destruct (iterate _); discriminate.
  - vm_compute. repeat split.
Qed.

(** C3. The retry on a rate limit. Take an iteration of the loop of
    [_get_all] whose page the cache does not answer and whose request is
    answered with a status that is not [ok].
    - If the status is 403 and the failure message contains ["rate limit"]
      (whatever the case of the letters), the loop pauses for 2 and requests
      the same page once more: the effects are that request, the pause, the
      same request, and after them no request but for later pages. If the
      second answer is not [ok] either, its failure is returned at once and
      nothing more happens.
    - Every other failure is returned at once, after the single request. *)
Theorem get_all_rate_limit_retry
    (E : Env) (path : string) (params : dict) (max_pages : Z) (sleep_s : Q)
    (fuel : nat) (all_items : list value) (page : Z) (st : state)
    (r1 : response) :
  page <= max_pages ->
  (Z.to_nat (max_pages - page + 1) <= fuel)%nat ->
  (forall v, Dict.get (page_key path params page) (_d (CACHE st)) = Some v ->
             v = VNone) ->
  transport E (requests_of (trace st)) (page_request E path params page)
  = Reply r1 ->
  ok r1 = false ->
  (status_code r1 = 403 ->
   contains "rate limit"
     (lower (str_of_int (status_code r1) ++ ": " ++ str_take 200 (text r1)))
   = true ->
   exists out st' evs,
     _get_all_loop fuel E path params max_pages sleep_s all_items page st
     = (out, st')
     /\ out <> OutOfFuel
     /\ trace st'
        = (trace st ++ [EvRequest (page_request E path params page);
                        EvSleep (2 # 1);
                        EvRequest (page_request E path params page)] ++ evs)%list
     /\ (forall r, In (EvRequest r) evs ->
           exists q, page < q <= max_pages /\ r = page_request E path params q)
     /\ (forall r2,
           transport E
             (requests_of (trace st) ++ [page_request E path params page])
             (page_request E path params page) = Reply r2 ->
           ok r2 = false ->
           out = Val (error_result path r2) /\ evs = []))
  /\ (status_code r1 <> 403
      \/ contains "rate limit"
           (lower (str_of_int (status_code r1) ++ ": " ++ str_take 200 (text r1)))
         = false ->
      exists st',
        _get_all_loop fuel E path params max_pages sleep_s all_items page st
        = (Val (error_result path r1), st')
        /\ trace st'
           = (trace st ++ [EvRequest (page_request E path params page)])%list).
Proof.
  intros Hp Hfuel Hmiss Ht Hok.
  destruct fuel as [|n]; [lia|].
  pose proof Hp as Hle. apply Z.leb_le in Hle.
  set (P := Dict.merged params "page" (VInt page)).
  set (req := page_request E path params page) in *.
  set (msg := str_of_int (status_code r1) ++ ": " ++ str_take 200 (text r1)).
  destruct (PagerFacts.failing_get E path P st r1 Hmiss Ht Hok) as (c & Hg1 & Hc).
  fold req in Hg1.
  assert (Hmem : forall r, Dict.mem "error" (error_result path r) = true)
    by reflexivity.
  assert (Herr : error_lower (error_result path r1) = Val (lower msg))
    by reflexivity.
  split.
  - intros H403 Hrl.
    assert (Hrate : is_rate_limit (lower msg) = true).
    { unfold is_rate_limit. rewrite Hrl, andb_true_r.
      now apply StrFacts.status_403. }
    set (st_a := mkState c ((trace st ++ [EvRequest req]) ++ [EvSleep (2 # 1)])).
    assert (Hfp : fetch_page E path params page st
                  = bind (_get E path (Some P) true)
                      (fun res => if Dict.mem "error" res
                                  then ret (inl res) else ret (inr res)) st_a).
    { unfold fetch_page. fold P. unfold bind at 1. rewrite Hg1, Hmem.
      unfold bind at 1, lift. rewrite Herr, Hrate. reflexivity. }
    assert (Hreqs : requests_of (trace st_a) = (requests_of (trace st) ++ [req])%list).
    { simpl. now rewrite !PagerFacts.requests_of_app, app_nil_r. }
    assert (Hget2 : exists st_b,
               trace st_b = trace st_a
               /\ _get E path (Some P) true st_a
                  = fetch E path P (_cache_key path P) true st_b).
    { destruct (Dict.get (_cache_key path P) (_d c)) as [v|] eqn:Hgc.
      - rewrite (Hc v eq_refl) in Hgc. eexists. split; [|
          apply (GetFacts._get_stored_none E path (Some P) st_a Hgc)]. reflexivity.
      - exists st_a. split; [reflexivity|].
        apply (GetFacts._get_absent E path (Some P) st_a Hgc). }
    destruct Hget2 as (st_b & Htb & Hget2).
    assert (Htrace_b : trace st_b
                       = (trace st ++ [EvRequest req; EvSleep (2 # 1)])%list).
    { rewrite Htb. simpl. now rewrite <- app_assoc. }
    assert (Hshape : forall t evs,
              t = (trace st_b ++ EvRequest req :: evs)%list ->
              t = (trace st ++ [EvRequest req; EvSleep (2 # 1); EvRequest req]
                   ++ evs)%list).
    { intros t evs ->. rewrite Htrace_b, <- app_assoc. reflexivity. }
    simpl _get_all_loop. rewrite Hle. unfold bind at 1. rewrite Hfp.
    unfold bind at 1. rewrite Hget2.
    destruct (transport E (requests_of (trace st) ++ [req]) req) as [r2|e2] eqn:Ht2.
    + destruct (ok r2) eqn:Hok2.
      * (* the retry is answered: the loop goes on *)
        destruct (PagerFacts.fetch_effects E path P (_cache_key path P) true st_b)
          as (out2 & st2 & evs2 & Hf2 & Ho2 & Htr2 & Hev2).
        fold req in Htr2.
        assert (Hnoreq : forall r, ~ In (EvRequest r) evs2).
        { intros r Hr. destruct Hev2 as [->|[data ->]]; simpl in Hr;
            [tauto | destruct Hr as [Hr|[]]; discriminate]. }
        assert (Hnot : forall r2', Reply r2 = Reply r2' -> ok r2' = false -> False).
        { intros r2' [= <-] H. congruence. }
        destruct out2 as [res2|e|]; [| |contradiction].
        -- destruct (Dict.mem "error" res2) eqn:Hm2.
           ++ exists (Val res2), st2, evs2. rewrite Hf2, Hm2.
              split; [reflexivity|]. split; [discriminate|].
              split; [now apply Hshape|].
              split; [intros r Hr; now apply Hnoreq in Hr|].
              intros r2' Hr2' Hok2'. exfalso. eauto.
           ++ assert (Hfp2 : fetch_page E path params page st
                             = (Val (inr res2), st2)).
              { rewrite Hfp. unfold bind at 1. rewrite Hget2, Hf2, Hm2. reflexivity. }
              destruct (PagerFacts.loop_after_fetch E path params max_pages sleep_s
                          (S n) all_items page st res2 st2 Hp Hfuel Hfp2)
                as (out & st' & evs & Hl & Ho & Htr & He).
              simpl _get_all_loop in Hl. rewrite Hle in Hl.
              unfold bind at 1 in Hl. rewrite Hfp in Hl.
              unfold bind at 1 in Hl. rewrite Hget2 in Hl.
              exists out, st', (evs2 ++ evs)%list. split; [exact Hl|].
              split; [exact Ho|]. split.
              { rewrite Htr. apply Hshape. rewrite Htr2, <- app_assoc. reflexivity. }
              split.
              { intros r Hr. apply in_app_or in Hr. destruct Hr as [Hr|Hr].
                - now apply Hnoreq in Hr.
                - rewrite Forall_forall in He. destruct (He _ Hr) as (q & Hq & ->).
                  exists q. split; [lia | reflexivity]. }
              intros r2' Hr2' Hok2'. exfalso. eauto.
        -- exists (Raise e), st2, evs2. rewrite Hf2.
           split; [reflexivity|]. split; [discriminate|].
           split; [now apply Hshape|].
           split; [intros r Hr; now apply Hnoreq in Hr|].
           intros r2' Hr2' Hok2'. exfalso. eauto.
      * (* the retry fails as well *)
        rewrite (GetFacts.fetch_not_ok E path P (_cache_key path P) true st_b r2).
        2: { rewrite Htb, Hreqs. exact Ht2. }
        2: exact Hok2.
        rewrite Hmem. eexists _, _, []. split; [reflexivity|].
        split; [discriminate|]. split; [now apply Hshape|].
        split; [intros r []|].
        intros r2' [= <-] _. split; reflexivity.
    + (* the retry raises *)
      unfold fetch, bind, requests_get. rewrite Htb, Hreqs.
      change (the_request E path P) with req. rewrite Ht2.
      eexists _, _, []. split; [reflexivity|]. split; [discriminate|].
      split; [apply Hshape; simpl; now rewrite Htb|].
      split; [intros r []|]. intros r2' [=].
  - intros Hother.
    assert (Hrate : is_rate_limit (lower msg) = false).
    { unfold is_rate_limit. destruct Hother as [Hs|Hc0].
      - destruct (startswith (lower msg) "403:") eqn:Hsw; [|reflexivity].
        apply StrFacts.status_403 in Hsw. contradiction.
      - fold msg in Hc0. rewrite Hc0. apply andb_false_r. }
    eexists. simpl _get_all_loop. rewrite Hle. unfold bind at 1.
    unfold fetch_page. fold P. unfold bind at 1. rewrite Hg1, Hmem.
    unfold bind at 1, lift. rewrite Herr, Hrate. split; reflexivity.
Qed.

(** ** The encoder *)

Module DumpsFacts.
Import StrFacts DictFacts.

(** *** The order of the keys *)

Lemma key_leb_spec k1 k2 :
  key_leb k1 k2 = true <-> k1 = k2 \/ String_as_OT.lt k1 k2.
Proof.
  unfold key_leb.
  destruct (String_as_OT.compare_spec k1 k2) as [H|H|H].
  - split; auto.
  - split; auto.
  - split; [discriminate|]. intros [->|H'].
    + now apply (StrictOrder_Irreflexive k2) in H.
    + exfalso. apply (StrictOrder_Irreflexive k1).
      now transitivity k2.
Qed.

Lemma key_leb_total k1 k2 : key_leb k1 k2 = false -> key_leb k2 k1 = true.
Proof.
  intros H. apply key_leb_spec. unfold key_leb in H.
  destruct (String_as_OT.compare_spec k1 k2) as [H'|H'|H']; try discriminate.
  now right.
Qed.

Lemma key_leb_trans k1 k2 k3 :
  key_leb k1 k2 = true -> key_leb k2 k3 = true -> key_leb k1 k3 = true.
Proof.
  rewrite !key_leb_spec. intros [->|H1] [->|H2]; auto.
  right. now transitivity k2.
Qed.

Lemma key_leb_antisym k1 k2 :
  key_leb k1 k2 = true -> key_leb k2 k1 = true -> k1 = k2.
Proof.
  rewrite !key_leb_spec. intros [->|H1] [H2|H2]; auto.
  exfalso. apply (StrictOrder_Irreflexive k1). now transitivity k2.
Qed.

(** *** The sort *)

Section Sort.
Context {A : Type}.
Implicit Types (e : string * A) (l : list (string * A)).

Lemma insert_item_Permutation e l : Permutation (insert_item e l) (e :: l).
Proof.
  induction l as [|e' l IH]; simpl; [reflexivity|].
  destruct (key_leb (fst e) (fst e')); [reflexivity|].
  rewrite IH. apply perm_swap.
Qed.

Lemma sort_items_Permutation l : Permutation (sort_items l) l.
Proof.
  induction l as [|e l IH]; simpl; [reflexivity|].
  rewrite insert_item_Permutation. now constructor.
Qed.

Lemma insert_item_sorted e l :
  StronglySorted entry_le l -> StronglySorted entry_le (insert_item e l).
Proof.
  induction 1 as [|e' l Hs IH Hall]; simpl.
  - repeat constructor.
  - destruct (key_leb (fst e) (fst e')) eqn:Hle.
    + constructor; [now constructor|].
      constructor; [exact Hle|].
      eapply Forall_impl; [|exact Hall]. intros x Hx.
      unfold entry_le in *. now apply key_leb_trans with (fst e').
    + constructor; [exact IH|].
      eapply Permutation_Forall;
        [symmetry; apply insert_item_Permutation|].
      constructor; [now apply key_leb_total | exact Hall].
Qed.

Lemma sort_items_sorted l : StronglySorted entry_le (sort_items l).
Proof.
  induction l as [|e l IH]; simpl; [constructor | now apply insert_item_sorted].
Qed.

(** Sorted lists with the same entries and distinct keys are equal. *)
Lemma sorted_unique l1 :
  forall l2,
    NoDup (map fst l1) ->
    StronglySorted entry_le l1 -> StronglySorted entry_le l2 ->
    Permutation l1 l2 -> l1 = l2.
Proof.
  induction l1 as [|a l1 IH]; intros l2 Hnd Hs1 Hs2 HP.
  - apply Permutation_nil in HP. now subst.
  - destruct l2 as [|b l2].
    { symmetry in HP. now apply Permutation_nil in HP. }
    inversion Hs1 as [|? ? Hs1' Ha]; subst.
    inversion Hs2 as [|? ? Hs2' Hb]; subst.
    inversion Hnd as [|? ? Hnot Hnd']; subst.
    assert (Hab : a = b).
    { assert (Hin_a : In a (b :: l2)) by (apply (Permutation_in _ HP); now left).
      assert (Hin_b : In b (a :: l1))
        by (apply (Permutation_in _ (Permutation_sym HP)); now left).
      destruct Hin_a as [->|Hin_a]; [reflexivity|].
      destruct Hin_b as [->|Hin_b]; [reflexivity|].
      rewrite Forall_forall in Ha, Hb.
      pose proof (key_leb_antisym _ _ (Ha _ Hin_b) (Hb _ Hin_a)) as Hk.
      exfalso. apply Hnot. rewrite Hk. now apply in_map. }
    subst b. f_equal. apply IH; try assumption.
    now apply Permutation_cons_inv in HP.
Qed.

Lemma sort_items_unique l1 l2 :
  NoDup (map fst l1) -> Permutation l1 l2 -> sort_items l1 = sort_items l2.
Proof.
  intros Hnd HP. apply sorted_unique.
  - apply (Permutation_NoDup (l := map fst l1)); [|exact Hnd].
    apply Permutation_map. symmetry. apply sort_items_Permutation.
  - apply sort_items_sorted.
  - apply sort_items_sorted.
  - rewrite !sort_items_Permutation. exact HP.
Qed.
End Sort.

(** Sorting before or after the values are encoded is the same. *)
Lemma insert_item_map {A B} (f : A -> B) (e : string * A) l :
  insert_item (fst e, f (snd e)) (map (fun kv => (fst kv, f (snd kv))) l)
  = map (fun kv => (fst kv, f (snd kv))) (insert_item e l).
Proof.
  induction l as [|e' l IH]; simpl; [reflexivity|].
  destruct (key_leb (fst e) (fst e')); simpl; [reflexivity | now rewrite IH].
Qed.

Lemma sort_items_map {A B} (f : A -> B) (l : list (string * A)) :
  sort_items (map (fun kv => (fst kv, f (snd kv))) l)
  = map (fun kv => (fst kv, f (snd kv))) (sort_items l).
Proof.
  induction l as [|e l IH]; simpl; [reflexivity|].
  now rewrite IH, insert_item_map.
Qed.

(** The text [json.dumps] produces for a dictionary: the entries are
    sorted, then encoded. *)
Lemma dumps_dict_sorted_first d :
  dumps (VDict d)
  = "{" ++ String.concat ", " (map member (sort_items d)) ++ "}".
Proof.
  simpl. rewrite (sort_items_map dumps), map_map. reflexivity.
Qed.

(** *** String literals *)

Lemma unescape_escape_char c r : unescape_char (escape_char c ++ r) = Some (c, r).
Proof.
  destruct c as [[] [] [] [] [] [] [] []]; reflexivity.
Qed.

(** An escaped string followed by the closing quote reads back in one way
    only. *)
Lemma escape_delimited s1 :
  forall s2 r1 r2,
    escape s1 ++ String dquote r1 = escape s2 ++ String dquote r2 ->
    s1 = s2 /\ r1 = r2.
Proof.
  induction s1 as [|c1 s1 IH]; intros [|c2 s2] r1 r2 H; simpl in H.
  - injection H as ->. now split.
  - exfalso. rewrite append_assoc in H.
    pose proof (f_equal unescape_char H) as Hu.
    rewrite unescape_escape_char in Hu. simpl in Hu. injection Hu as <- _.
    discriminate H.
  - exfalso. rewrite append_assoc in H.
    pose proof (f_equal unescape_char H) as Hu.
    rewrite unescape_escape_char in Hu. simpl in Hu. injection Hu as -> _.
    discriminate H.
  - rewrite !append_assoc in H.
    pose proof (f_equal unescape_char H) as Hu.
    rewrite !unescape_escape_char in Hu. injection Hu as -> Hrest.
    destruct (IH _ _ _ Hrest) as [-> ->]. now split.
Qed.

Lemma encode_str_delimited s1 s2 r1 r2 :
  encode_str s1 ++ r1 = encode_str s2 ++ r2 -> s1 = s2 /\ r1 = r2.
Proof.
  unfold encode_str, str1. simpl. rewrite !append_assoc. simpl.
  intros [= H]. now apply escape_delimited.
Qed.

(** *** The first character of an encoded value *)

Lemma str_of_int_head n :
  exists c s, str_of_int n = String c s /\ is_num_char c = true.
Proof.
  pose proof (str_of_int_num n) as Hn. pose proof (str_of_int_nonempty n) as Hne.
  destruct (str_of_int n) as [|c s]; [congruence|].
  simpl in Hn. apply andb_true_iff in Hn. exists c, s. tauto.
Qed.

Lemma dumps_head v :
  exists c s, dumps v = String c s /\ is_start_char c = true.
Proof.
  destruct v as [|[]|n|s|l|d]; simpl; try (eexists _, _; split; reflexivity).
  destruct (str_of_int_head n) as (c & s & -> & Hc).
  exists c, s. split; [reflexivity|]. unfold is_start_char. now rewrite Hc.
Qed.

(** An encoded value does not start with the character [c] when [c] is not
    one of the start characters. *)
Lemma dumps_not_head v c r r' :
  is_start_char c = false -> dumps v ++ r <> String c r'.
Proof.
  intros Hc H. destruct (dumps_head v) as (c' & s & Hv & Hc').
  rewrite Hv in H. simpl in H. injection H as -> _. congruence.
Qed.

(** *** Unfolding [same_value] *)

Lemma same_list_cons x l1 y l2 :
  same_value (VList (x :: l1)) (VList (y :: l2))
  = same_value x y && same_value (VList l1) (VList l2).
Proof. reflexivity. Qed.

Lemma same_dict_spec d1 d2 :
  same_value (VDict d1) (VDict d2) = true
  <-> List.length d1 = List.length d2
      /\ Forall (fun kv => exists v', Dict.get (fst kv) d2 = Some v'
                                      /\ same_value (snd kv) v' = true) d1.
Proof.
  simpl. rewrite andb_true_iff, Nat.eqb_eq.
  apply and_iff_compat_l.
  induction d1 as [|[k v] d1 IH].
  - split; [constructor | reflexivity].
  - rewrite andb_true_iff, IH. split.
    + intros [Hv Hall]. constructor; [|exact Hall]. simpl.
      destruct (Dict.get k d2) as [v'|]; [|discriminate]. now exists v'.
    + intros H. inversion H as [|? ? (v' & Hg & Hv) Hall]; subst.
      simpl in Hg. rewrite Hg. now split.
Qed.

Lemma distinct_NoDup l : distinct l = true <-> NoDup l.
Proof.
  induction l as [|k l IH]; simpl.
  - split; [constructor | reflexivity].
  - rewrite andb_true_iff, negb_true_iff, IH. split.
    + intros [Hex Hnd]. constructor; [|exact Hnd].
      intros Hin. assert (existsb (String.eqb k) l = true); [|congruence].
      apply existsb_exists. exists k. split; [exact Hin | apply String.eqb_refl].
    + intros H. inversion H as [|? ? Hnot Hnd]; subst. split; [|exact Hnd].
      destruct (existsb (String.eqb k) l) eqn:E; [|reflexivity].
      apply existsb_exists in E. destruct E as (x & Hx & Heq).
      apply String.eqb_eq in Heq. subst x. contradiction.
Qed.

Lemma well_formed_dict d :
  well_formed (VDict d) = true
  <-> NoDup (Dict.keys d) /\ Forall (fun kv => well_formed (snd kv) = true) d.
Proof.
  simpl. now rewrite andb_true_iff, distinct_NoDup, forallb_forall, Forall_forall.
Qed.

Lemma well_formed_list l :
  well_formed (VList l) = true <-> Forall (fun v => well_formed v = true) l.
Proof.
  simpl. now rewrite forallb_forall, Forall_forall.
Qed.

(** *** Reading an encoded value back *)

Lemma classify_num c : is_num_char c = true -> classify c = 2%nat.
Proof. unfold classify. now intros ->. Qed.

Lemma dumps_tag v r : head_tag (dumps v ++ r) = tag v.
Proof.
  destruct v as [|[]|n|s|l|d]; try reflexivity.
  simpl. destruct (str_of_int_head n) as (c & s & -> & Hc).
  simpl. now apply classify_num.
Qed.

Lemma concat_list_tail x l r :
  String.concat ", " (map dumps (x :: l)) ++ "]" ++ r = dumps x ++ list_tail l r.
Proof.
  revert x. induction l as [|y l IH]; intros x.
  - reflexivity.
  - change (String.concat ", " (map dumps (x :: y :: l)))
      with (dumps x ++ ", " ++ String.concat ", " (map dumps (y :: l))).
    rewrite !append_assoc, IH. reflexivity.
Qed.

Lemma dumps_list_tail l r :
  dumps (VList l) ++ r
  = match l with
    | [] => "[]" ++ r
    | x :: l' => "[" ++ dumps x ++ list_tail l' r
    end.
Proof.
  destruct l as [|x l]; [reflexivity|].
  change (dumps (VList (x :: l)))
    with ("[" ++ String.concat ", " (map dumps (x :: l)) ++ "]").
  simpl. f_equal. rewrite append_assoc. apply concat_list_tail.
Qed.

Lemma concat_member_tail kv d r :
  String.concat ", " (map member (kv :: d)) ++ "}" ++ r
  = member kv ++ member_tail d r.
Proof.
  revert kv. induction d as [|kv' d IH]; intros kv.
  - reflexivity.
  - change (String.concat ", " (map member (kv :: kv' :: d)))
      with (member kv ++ ", " ++ String.concat ", " (map member (kv' :: d))).
    rewrite !append_assoc, IH. reflexivity.
Qed.

Lemma dumps_dict_tail d r :
  dumps (VDict d) ++ r
  = match sort_items d with
    | [] => "{}" ++ r
    | kv :: e => "{" ++ member kv ++ member_tail e r
    end.
Proof.
  rewrite dumps_dict_sorted_first.
  destruct (sort_items d) as [|kv e]; [reflexivity|].
  simpl. f_equal. rewrite append_assoc. apply concat_member_tail.
Qed.

Lemma list_tail_safe l r : head_is is_num_char (list_tail l r) = false.
Proof. destruct l; reflexivity. Qed.

Lemma member_tail_safe d r : head_is is_num_char (member_tail d r) = false.
Proof. destruct d; reflexivity. Qed.

Lemma list_tail_decodes l1 :
  Forall decodes l1 ->
  forall l2 r1 r2,
    Forall (fun v => well_formed v = true) l1 ->
    Forall (fun v => well_formed v = true) l2 ->
    list_tail l1 r1 = list_tail l2 r2 ->
    same_value (VList l1) (VList l2) = true /\ r1 = r2.
Proof.
  induction 1 as [|x l1 Hx Hl1 IH]; intros [|y l2] r1 r2 Hw1 Hw2 H;
    simpl in H; try discriminate H.
  - injection H as ->. now split.
  - injection H as H.
    inversion Hw1; inversion Hw2; subst.
    destruct (Hx y _ _ ltac:(assumption) ltac:(assumption)
                (list_tail_safe l1 r1) (list_tail_safe l2 r2) H) as [Hs Ht].
    destruct (IH l2 r1 r2 ltac:(assumption) ltac:(assumption) Ht) as [Hl ->].
    rewrite same_list_cons, Hs, Hl. now split.
Qed.

Lemma member_decodes kv1 kv2 t1 t2 :
  decodes (snd kv1) ->
  well_formed (snd kv1) = true -> well_formed (snd kv2) = true ->
  head_is is_num_char t1 = false -> head_is is_num_char t2 = false ->
  member kv1 ++ t1 = member kv2 ++ t2 ->
  fst kv1 = fst kv2 /\ same_value (snd kv1) (snd kv2) = true /\ t1 = t2.
Proof.
  intros Hd Hw1 Hw2 Ht1 Ht2 H. unfold member in H.
  rewrite !append_assoc in H.
  apply encode_str_delimited in H. destruct H as [Hk H].
  simpl in H. injection H as H.
  destruct (Hd _ _ _ Hw1 Hw2 Ht1 Ht2 H). auto.
Qed.

Lemma member_tail_decodes e1 :
  Forall (fun kv => decodes (snd kv)) e1 ->
  forall e2 r1 r2,
    Forall (fun kv => well_formed (snd kv) = true) e1 ->
    Forall (fun kv => well_formed (snd kv) = true) e2 ->
    member_tail e1 r1 = member_tail e2 r2 ->
    same_entries e1 e2 /\ r1 = r2.
Proof.
  induction 1 as [|kv1 e1 Hkv He1 IH]; intros [|kv2 e2] r1 r2 Hw1 Hw2 H;
    try (cbn [member_tail append] in H; discriminate H).
  - injection H as ->. split; [constructor | reflexivity].
  - apply (append_inv_head ", ") in H.
    inversion Hw1; inversion Hw2; subst.
    destruct (member_decodes kv1 kv2 _ _ Hkv ltac:(assumption) ltac:(assumption)
                (member_tail_safe e1 r1) (member_tail_safe e2 r2) H)
      as (Hk & Hs & Ht).
    destruct (IH e2 r1 r2 ltac:(assumption) ltac:(assumption) Ht) as [Hl ->].
    split; [constructor; auto | reflexivity].
Qed.

Lemma Forall2_In_l {A B} (R : A -> B -> Prop) l1 l2 a :
  Forall2 R l1 l2 -> In a l1 -> exists b, In b l2 /\ R a b.
Proof.
  induction 1 as [|x y l1 l2 Hxy Hl IH]; simpl; [tauto|].
  intros [->|Hin].
  - exists y. auto.
  - destruct (IH Hin) as (b & Hb & HR). exists b. auto.
Qed.

(** Sorted entries that agree make the dictionaries the same. *)
Lemma same_entries_sorted d1 d2 :
  NoDup (Dict.keys d2) ->
  same_entries (sort_items d1) (sort_items d2) ->
  same_value (VDict d1) (VDict d2) = true.
Proof.
  intros Hnd H. apply same_dict_spec. split.
  - rewrite <- (Permutation_length (sort_items_Permutation d1)),
      <- (Permutation_length (sort_items_Permutation d2)).
    now apply Forall2_length in H.
  - apply Forall_forall. intros kv Hin.
    assert (Hin' : In kv (sort_items d1)).
    { apply (Permutation_in _ (Permutation_sym (sort_items_Permutation d1))), Hin. }
    destruct (Forall2_In_l _ _ _ _ H Hin') as ([k' v'] & Hb & Hk & Hs).
    simpl in Hk, Hs. exists v'. split; [|exact Hs].
    apply In_get; [exact Hnd|]. rewrite Hk.
    apply (Permutation_in _ (sort_items_Permutation d2)), Hb.
Qed.

(** Every value is read back from its encoding. *)
Theorem dumps_decodes v : decodes v.
Proof.
  induction v as [|b1|n1|s1|l1 IH|d1 IH] using value_ind;
    intros v2 r1 r2 Hw1 Hw2 Hr1 Hr2 H;
    pose proof (f_equal head_tag H) as Htag; rewrite !dumps_tag in Htag;
    destruct v2 as [|b2|n2|s2|l2|d2]; try discriminate Htag; clear Htag.
  - simpl in H. injection H as ->. now split.
  - destruct b1, b2; simpl in H; try discriminate H;
      injection H as ->; now split.
  - simpl dumps in H.
    apply (delimited is_num_char) in H; auto using str_of_int_num.
    destruct H as [Hn ->]. apply str_of_int_inj in Hn. subst.
    simpl. now rewrite Z.eqb_refl.
  - simpl dumps in H. apply encode_str_delimited in H. destruct H as [-> ->].
    simpl. now rewrite String.eqb_refl.
  - rewrite !dumps_list_tail in H.
    apply well_formed_list in Hw1. apply well_formed_list in Hw2.
    destruct l1 as [|x l1], l2 as [|y l2].
    + injection H as ->. now split.
    + exfalso. injection H as H. symmetry in H.
      now apply (dumps_not_head y "]" _ _ eq_refl) in H.
    + exfalso. injection H as H.
      now apply (dumps_not_head x "]" _ _ eq_refl) in H.
    + injection H as H.
      inversion IH; inversion Hw1; inversion Hw2; subst.
      destruct (H2 y _ _ ltac:(assumption) ltac:(assumption)
                  (list_tail_safe l1 r1) (list_tail_safe l2 r2) H) as [Hs Ht].
      destruct (list_tail_decodes l1 ltac:(assumption) l2 r1 r2
                  ltac:(assumption) ltac:(assumption) Ht) as [Hl ->].
      rewrite same_list_cons, Hs, Hl. now split.
  - rewrite !dumps_dict_tail in H.
    apply well_formed_dict in Hw1. apply well_formed_dict in Hw2.
    destruct Hw1 as [Hnd1 Hw1], Hw2 as [Hnd2 Hw2].
    assert (IH' : Forall (fun kv => decodes (snd kv)) (sort_items d1)).
    { eapply Permutation_Forall; [symmetry; apply sort_items_Permutation | exact IH]. }
    assert (Hw1' : Forall (fun kv => well_formed (snd kv) = true) (sort_items d1)).
    { eapply Permutation_Forall; [symmetry; apply sort_items_Permutation | exact Hw1]. }
    assert (Hw2' : Forall (fun kv => well_formed (snd kv) = true) (sort_items d2)).
    { eapply Permutation_Forall; [symmetry; apply sort_items_Permutation | exact Hw2]. }
    assert (Hgoal : same_entries (sort_items d1) (sort_items d2) /\ r1 = r2).
    { destruct (sort_items d1) as [|kv1 e1], (sort_items d2) as [|kv2 e2].
      - injection H as ->. split; [constructor | reflexivity].
      - exfalso. simpl in H. discriminate H.
      - exfalso. simpl in H. discriminate H.
      - apply (append_inv_head "{") in H.
        inversion IH'; inversion Hw1'; inversion Hw2'; subst.
        destruct (member_decodes kv1 kv2 _ _ ltac:(assumption) ltac:(assumption)
                    ltac:(assumption)
                    (member_tail_safe e1 r1) (member_tail_safe e2 r2) H)
          as (Hk & Hs & Ht).
        destruct (member_tail_decodes e1 ltac:(assumption) e2 r1 r2
                    ltac:(assumption) ltac:(assumption) Ht) as [Hl ->].
        split; [constructor; auto | reflexivity]. }
    destruct Hgoal as [He ->]. split; [|reflexivity].
    now apply same_entries_sorted.
Qed.

(** *** The same values have the same encoding *)

Lemma same_list_dumps l1 :
  Forall (fun v1 => forall v2, well_formed v1 = true -> well_formed v2 = true ->
                    same_value v1 v2 = true -> dumps v1 = dumps v2) l1 ->
  forall l2,
    Forall (fun v => well_formed v = true) l1 ->
    Forall (fun v => well_formed v = true) l2 ->
    same_value (VList l1) (VList l2) = true ->
    map dumps l1 = map dumps l2.
Proof.
  induction 1 as [|x l1 Hx Hl1 IH]; intros [|y l2] Hw1 Hw2 Hs;
    try discriminate Hs; [reflexivity|].
  rewrite same_list_cons in Hs. apply andb_true_iff in Hs. destruct Hs as [Hxy Hl].
  inversion Hw1; inversion Hw2; subst. simpl. f_equal; auto.
Qed.

Theorem same_dumps v1 :
  forall v2, well_formed v1 = true -> well_formed v2 = true ->
             same_value v1 v2 = true -> dumps v1 = dumps v2.
Proof.
  induction v1 as [|b1|n1|s1|l1 IH|d1 IH] using value_ind;
    intros [|b2|n2|s2|l2|d2] Hw1 Hw2 Hs; try discriminate Hs.
  - reflexivity.
  - simpl in Hs. apply Bool.eqb_prop in Hs. now subst.
  - simpl in Hs. apply Z.eqb_eq in Hs. now subst.
  - simpl in Hs. apply String.eqb_eq in Hs. now subst.
  - apply well_formed_list in Hw1. apply well_formed_list in Hw2.
    simpl. now rewrite (same_list_dumps l1 IH l2 Hw1 Hw2 Hs).
  - apply well_formed_dict in Hw1. apply well_formed_dict in Hw2.
    destruct Hw1 as [Hnd1 Hw1], Hw2 as [Hnd2 Hw2].
    apply same_dict_spec in Hs. destruct Hs as [Hlen Hall].
    assert (Hsort : sort_items (map (fun kv => (fst kv, dumps (snd kv))) d1)
                    = sort_items (map (fun kv => (fst kv, dumps (snd kv))) d2));
      [|simpl; now rewrite Hsort].
    apply sort_items_unique.
    { rewrite map_map. exact Hnd1. }
    apply NoDup_Permutation_bis.
    + apply (NoDup_map_inv fst). rewrite map_map. exact Hnd1.
    + rewrite !length_map. lia.
    + intros [k dv] Hin. apply in_map_iff in Hin.
      destruct Hin as ([k1 v1] & [= <- <-] & Hin). simpl.
      rewrite Forall_forall in IH, Hall, Hw1, Hw2.
      destruct (Hall _ Hin) as (v' & Hg & Hsame). simpl in Hg, Hsame.
      apply get_In in Hg.
      pose proof (IH _ Hin v' (Hw1 _ Hin) (Hw2 _ Hg) Hsame) as E.
      simpl in E. rewrite E.
      apply (in_map (fun kv => (fst kv, dumps (snd kv))) _ _ Hg).
Qed.

(** A value is determined, up to the order of insertion in its
    dictionaries, by its encoding. *)
Lemma dumps_same_iff v1 v2 :
  well_formed v1 = true -> well_formed v2 = true ->
  dumps v1 = dumps v2 <-> same_value v1 v2 = true.
Proof.
  intros Hw1 Hw2. split.
  - intros H. apply (dumps_decodes v1 v2 "" "" Hw1 Hw2 eq_refl eq_refl).
    now rewrite !append_nil_r.
  - now apply same_dumps.
Qed.

Lemma cache_key_same_iff path p1 p2 :
  well_formed (VDict p1) = true -> well_formed (VDict p2) = true ->
  _cache_key path p1 = _cache_key path p2
  <-> same_value (VDict p1) (VDict p2) = true.
Proof.
  intros Hw1 Hw2. rewrite <- (dumps_same_iff _ _ Hw1 Hw2).
  unfold _cache_key. split.
  - intros H. apply append_inv_head in H. now apply (append_inv_head "?") in H.
  - now intros ->.
Qed.

End DumpsFacts.

(** C6. The cache key. For parameter dictionaries (distinct keys, here and
    in the dictionaries nested in the values) and any path:
    - the key does not depend on the order in which the parameters were
      inserted;
    - two dictionaries have the same key exactly when they have the same
      keys holding the same values; so the keys differ as soon as a
      parameter holds a different value, or is present in one dictionary
      only;
    - the key of [{"b": 1, "a": 2}] is the key of [{"a": 2, "b": 1}], and
      the keys of [{"a": 1}] and [{"a": 2}] differ. *)
Theorem cache_key_deterministic (path : string) (p1 p2 : dict) :
  well_formed (VDict p1) = true ->
  well_formed (VDict p2) = true ->
  (Permutation p1 p2 -> _cache_key path p1 = _cache_key path p2)
  /\ (_cache_key path p1 = _cache_key path p2
      <-> same_value (VDict p1) (VDict p2) = true)
  /\ (forall k v1 v2,
        Dict.get k p1 = Some v1 -> Dict.get k p2 = Some v2 ->
        same_value v1 v2 = false ->
        _cache_key path p1 <> _cache_key path p2)
  /\ (forall k, Dict.mem k p1 <> Dict.mem k p2 ->
                _cache_key path p1 <> _cache_key path p2)
  /\ _cache_key path [("b", VInt 1); ("a", VInt 2)]
     = _cache_key path [("a", VInt 2); ("b", VInt 1)]
  /\ _cache_key path [("a", VInt 1)] <> _cache_key path [("a", VInt 2)].
Proof.
  intros Hw1 Hw2.
  pose proof (DumpsFacts.cache_key_same_iff path p1 p2 Hw1 Hw2) as Hiff.
  assert (Hlookup : forall q1 q2 k,
            well_formed (VDict q1) = true -> well_formed (VDict q2) = true ->
            _cache_key path q1 = _cache_key path q2 ->
            forall v1, Dict.get k q1 = Some v1 ->
            exists v2, Dict.get k q2 = Some v2 /\ same_value v1 v2 = true).
  { intros q1 q2 k Hq1 Hq2 Hkey v1 Hg.
    apply (DumpsFacts.cache_key_same_iff path q1 q2 Hq1 Hq2) in Hkey.
    apply DumpsFacts.same_dict_spec in Hkey. destruct Hkey as [_ Hall].
    rewrite Forall_forall in Hall.
    exact (Hall _ (DictFacts.get_In _ _ _ Hg)). }
  split; [|split; [exact Hiff|split; [|split; [|split]]]].
  - intros HP. unfold _cache_key.
    apply DumpsFacts.well_formed_dict in Hw1. destruct Hw1 as [Hnd _].
    rewrite !DumpsFacts.dumps_dict_sorted_first.
    now rewrite (DumpsFacts.sort_items_unique p1 p2 Hnd HP).
  - intros k v1 v2 Hg1 Hg2 Hdiff Hkey.
    destruct (Hlookup p1 p2 k Hw1 Hw2 Hkey v1 Hg1) as (v2' & Hg2' & Hs).
    congruence.
  - intros k Hmem Hkey.
    destruct (Dict.get k p1) as [v1|] eqn:Hg1, (Dict.get k p2) as [v2|] eqn:Hg2.
    + apply Hmem.
      assert (H1 : Dict.mem k p1 = true) by (apply DictFacts.mem_get; congruence).
      assert (H2 : Dict.mem k p2 = true) by (apply DictFacts.mem_get; congruence).
      congruence.
    + destruct (Hlookup p1 p2 k Hw1 Hw2 Hkey v1 Hg1) as (v2' & Hg2' & _).
      congruence.
    + destruct (Hlookup p2 p1 k Hw2 Hw1 (eq_sym Hkey) v2 Hg2) as (v1' & Hg1' & _).
      congruence.
    + apply Hmem. apply DictFacts.mem_false_get in Hg1, Hg2. congruence.
  - reflexivity.
  - unfold _cache_key. intros H. apply StrFacts.append_inv_head in H. discriminate H.
Qed.

(** ** Cache writes along a run *)

Module RunFacts.
Import StrFacts DictFacts LRUFacts GetFacts PagerFacts DumpsFacts.

Lemma writes_of_app t1 t2 : writes_of (t1 ++ t2) = (writes_of t1 ++ writes_of t2)%list.
Proof.
  induction t1 as [|[r|q|k d] t1 IH]; simpl; congruence.
Qed.

Lemma remove_app k d1 d2 :
  Dict.remove k (d1 ++ d2) = (Dict.remove k d1 ++ Dict.remove k d2)%list.
Proof.
  induction d1 as [|[k' v'] d1 IH]; simpl; [reflexivity|].
  destruct (String.eqb k' k); simpl; congruence.
Qed.

Lemma remove_refreshed k v d :
  Dict.remove k (Dict.remove k d ++ [(k, v)]) = Dict.remove k d.
Proof.
  rewrite remove_app. simpl. rewrite String.eqb_refl, app_nil_r.
  apply remove_absent. apply mem_false_get, get_remove_same.
Qed.

Lemma NoDup_refreshed c k v :
  NoDup (Dict.keys (_d c)) -> NoDup (Dict.keys (_d (refreshed c k v))).
Proof.
  intros Hnd. unfold refreshed, Dict.keys. simpl. rewrite map_app. simpl.
  apply NoDup_app.
  - now apply NoDup_keys_remove.
  - constructor; [tauto | constructor].
  - intros x Hx [Hk|[]]. subst x. now apply (not_in_keys_remove k (_d c)).
Qed.

Lemma fetch_cases E path P st0 st :
  trace st0 = trace st ->
  maxsize (CACHE st0) = maxsize (CACHE st) ->
  (forall k, Dict.get k (_d (CACHE st0)) = Dict.get k (_d (CACHE st))) ->
  Dict.remove (_cache_key path P) (_d (CACHE st0))
  = Dict.remove (_cache_key path P) (_d (CACHE st)) ->
  (NoDup (Dict.keys (_d (CACHE st))) -> NoDup (Dict.keys (_d (CACHE st0)))) ->
  get_case E path P st
    (fst (fetch E path P (_cache_key path P) true st0))
    (snd (fetch E path P (_cache_key path P) true st0)).
Proof.
  intros Ht Hm Hg Hr Hnd. unfold fetch, bind, requests_get.
  destruct (transport E (requests_of (trace st0)) (the_request E path P)) as [r|e].
  - destruct (ok r) eqn:Hok; simpl.
    + destruct (json r) as [data|]; simpl; [|constructor].
      unfold ret. rewrite cache_set_eq. simpl.
      rewrite Ht, Hm, Hr, <- app_assoc. simpl.
      apply get_fresh.
    + rewrite Ht. now apply get_fail.
  - simpl. constructor.
Qed.

Lemma _get_cases E path P st :
  get_case E path P st (fst (_get E path (Some P) true st))
    (snd (_get E path (Some P) true st)).
Proof.
  destruct (Dict.get (_cache_key path P) (_d (CACHE st))) as [v|] eqn:Hg.
  - assert (Hv : v = VNone \/ v <> VNone)
      by (destruct v; (now left) || (right; discriminate)).
    destruct Hv as [->|Hv].
    + rewrite (_get_stored_none E path (Some P) st Hg). simpl or_empty.
      apply fetch_cases; simpl; auto.
      * intros k. now apply (get_refreshed (CACHE st)).
      * apply remove_refreshed.
      * apply NoDup_refreshed.
    + rewrite (_get_hit E path (Some P) st v Hg Hv). simpl. now constructor.
  - rewrite (_get_absent E path (Some P) st Hg). simpl or_empty.
    apply fetch_cases; auto.
Qed.

Lemma fetch_page_cases E path params page st out st' :
  fetch_page E path params page st = (out, st') ->
  page_case E path params page st out st'.
Proof.
  unfold fetch_page.
  set (P := Dict.merged params "page" (VInt page)).
  unfold bind at 1.
  pose proof (_get_cases E path P st) as H1.
  destruct (_get E path (Some P) true st) as [out1 st1]. cbn [fst snd] in H1.
  inversion H1 as [v c Hv|r c Hok Hm Hg Hr Hnd|e st1'|r data]; subst.
  - intros [= <- <-]. apply page_hit.
  - change (Dict.mem "error" (error_result path r)) with true. cbv iota.
    unfold bind at 1, lift.
    change (error_lower (error_result path r))
      with (Val (lower (str_of_int (status_code r) ++ ": "
                        ++ str_take 200 (text r)))).
    cbv iota.
    destruct (is_rate_limit _).
    2: { intros [= <- <-].
         apply (page_fail _ _ _ _ _ r _ [EvRequest (the_request E path P)]);
           [exact Hok | reflexivity | reflexivity | exact Hg]. }
    unfold bind at 1, sleep. change (Qle_bool 0 (2 # 1)) with true.
    cbv iota. cbn [CACHE trace].
    set (st_a := mkState c ((trace st ++ [EvRequest (the_request E path P)])
                            ++ [EvSleep (2 # 1)])).
    unfold bind at 1.
    pose proof (_get_cases E path P st_a) as H2.
    destruct (_get E path (Some P) true st_a) as [out2 st2]. cbn [fst snd] in H2.
    inversion H2 as [v c2 Hv|r2 c2 Hok2 Hm2 Hg2 Hr2 Hnd2|e st2'|r2 data]; subst.
    + intros [= <- <-]. apply page_hit.
    + change (Dict.mem "error" (error_result path r2)) with true. cbv iota.
      intros [= <- <-].
      apply (page_fail _ _ _ _ _ r2 _
               [EvRequest (the_request E path P); EvSleep (2 # 1);
                EvRequest (the_request E path P)]);
        [exact Hok2 | | reflexivity |].
      * cbn [trace st_a]. now rewrite <- !app_assoc.
      * intros k. cbn [CACHE]. rewrite Hg2. apply Hg.
    + intros [= <- <-]. apply page_raise.
    + change (Dict.mem "error" (fresh_result data r2)) with false. cbv iota.
      intros [= <- <-].
      assert (Hst : stored c (_cache_key path P) data
                    = stored (CACHE st) (page_key path params page) data).
      { unfold stored, page_key. fold P. now rewrite Hr, Hm. }
      rewrite Hst, Hm, <- !app_assoc.
      exact (page_fresh E path params page st r2 data
               [EvRequest (the_request E path P); EvSleep (2 # 1)] eq_refl).
  - intros [= <- <-]. apply page_raise.
  - change (Dict.mem "error" (fresh_result data r)) with false. cbv iota.
    intros [= <- <-].
    apply (page_fresh E path params page st r data [] eq_refl).
Qed.

(** One iteration whose page was fetched without failure. *)
Lemma loop_fetched E path params max_pages sleep_s n all_items page st st1
    res data :
  page <= max_pages ->
  fetch_page E path params page st = (Val (inr res), st1) ->
  Dict.get "data" res = Some data ->
  _get_all_loop (S n) E path params max_pages sleep_s all_items page st
  = match page_items data with
    | Val None => (Val (all_result all_items), st1)
    | Val (Some l) =>
        match link_of res with
        | Val link =>
            if negb (contains rel_next link)
            then (Val (all_result (all_items ++ l)), st1)
            else match after_pause sleep_s st1 with
                 | Some st2 =>
                     _get_all_loop n E path params max_pages sleep_s
                       (all_items ++ l) (page + 1) st2
                 | None => (Raise NegativeSleep, st1)
                 end
        | Raise e => (Raise e, st1)
        | OutOfFuel => (OutOfFuel, st1)
        end
    | Raise e => (Raise e, st1)
    | OutOfFuel => (OutOfFuel, st1)
    end.
Proof.
  intros Hp Hf Hd. simpl. apply Z.leb_le in Hp. rewrite Hp.
  unfold bind at 1. rewrite Hf. unfold bind, lift, getitem. rewrite Hd.
  destruct (page_items data) as [[l|]|e|]; try reflexivity.
  destruct (link_of res) as [link|e|]; try reflexivity.
  destruct (negb (contains rel_next link)); [reflexivity|].
  unfold after_pause, sleep.
  destruct (negb (Qeq_bool sleep_s 0)); [|reflexivity].
  now destruct (Qle_bool 0 sleep_s).
Qed.

Lemma link_of_fresh data r :
  link_of (fresh_result data r) = Val (headers_get "Link" "" (headers r)).
Proof.
  unfold link_of. simpl. now destruct (headers_get "Link" "" (headers r)).
Qed.

(** The keys of the pages are distinct. *)
Lemma keys_set k v d :
  Dict.keys (Dict.set k v d)
  = if Dict.mem k d then Dict.keys d else (Dict.keys d ++ [k])%list.
Proof.
  induction d as [|[k' v'] d IH]; simpl; [reflexivity|].
  destruct (String.eqb k' k); simpl; [reflexivity|].
  rewrite IH. now destruct (Dict.mem k d).
Qed.

Lemma well_formed_merged params k v :
  well_formed (VDict params) = true -> well_formed v = true ->
  well_formed (VDict (Dict.merged params k v)) = true.
Proof.
  rewrite !well_formed_dict. intros [Hnd Hw] Hv. unfold Dict.merged. split.
  - rewrite keys_set. destruct (Dict.mem k params) eqn:Hm; [exact Hnd|].
    apply NoDup_app; [exact Hnd | constructor; [tauto | constructor] |].
    intros x Hx [Hk|[]]. subst x. apply mem_keys in Hx. congruence.
  - clear Hnd. induction params as [|[k' v'] d IH]; simpl.
    + now constructor.
    + inversion Hw; subst.
      destruct (String.eqb k' k); constructor; auto.
Qed.

Lemma page_key_inj path params q q' :
  well_formed (VDict params) = true ->
  page_key path params q = page_key path params q' -> q = q'.
Proof.
  intros Hw H. unfold page_key in H.
  apply cache_key_same_iff in H; try (now apply well_formed_merged).
  apply same_dict_spec in H. destruct H as [_ H]. rewrite Forall_forall in H.
  destruct (H ("page", VInt q)) as (v' & Hg & Hs).
  { apply get_In. apply get_set_same. }
  unfold Dict.merged in Hg. simpl in Hg. rewrite get_set_same in Hg.
  injection Hg as <-. simpl in Hs. now apply Z.eqb_eq.
Qed.

(** A write under a new key keeps the earlier writes of the run, as long
    as the capacity allows them all. *)
Lemma stored_suffix c key data pre W :
  _d c = (pre ++ W)%list ->
  NoDup (Dict.keys (_d c)) ->
  ~ In key (Dict.keys W) ->
  Z.of_nat (List.length W) + 1 <= maxsize c ->
  (exists pre', stored c key data = (pre' ++ (W ++ [(key, data)]))%list)
  /\ NoDup (Dict.keys (stored c key data)).
Proof.
  intros Hd Hnd Hk Hcap. unfold stored.
  assert (HW : Dict.remove key W = W).
  { apply remove_absent. destruct (Dict.mem key W) eqn:E; [|reflexivity].
    apply mem_keys in E. contradiction. }
  assert (Hd2 : (Dict.remove key (_d c) ++ [(key, data)])%list
                = (Dict.remove key pre ++ (W ++ [(key, data)]))%list).
  { now rewrite Hd, remove_app, HW, <- app_assoc. }
  pose proof (NoDup_refreshed c key data Hnd) as Hnd2.
  unfold refreshed in Hnd2. simpl in Hnd2.
  destruct (Dict.len _ >? maxsize c) eqn:Hover.
  - split.
    + rewrite Hd2 in *. destruct (Dict.remove key pre) as [|e pre'].
      * exfalso. simpl in Hover. unfold Dict.len in Hover.
        rewrite length_app in Hover. simpl in Hover.
        rewrite Z.gtb_ltb in Hover. apply Z.ltb_lt in Hover. lia.
      * exists pre'. reflexivity.
    + destruct (Dict.remove key (_d c) ++ [(key, data)])%list; simpl in *;
        [constructor | now inversion Hnd2].
  - split; [|exact Hnd2]. rewrite Hd2. eauto.
Qed.

Lemma trace_after_pause sleep_s st st2 :
  after_pause sleep_s st = Some st2 ->
  exists t, trace st2 = (trace st ++ t)%list
            /\ writes_of t = []
            /\ CACHE st2 = CACHE st.
Proof.
  unfold after_pause. destruct (negb (Qeq_bool sleep_s 0)).
  - destruct (Qle_bool 0 sleep_s); [|discriminate].
    intros H. injection H as <-. exists [EvSleep sleep_s]. auto.
  - intros H. injection H as <-. exists []. rewrite app_nil_r. auto.
Qed.

(** The run, from the state [st0] it started in: when the loop returns a
    failure, it is the failure of a response, and every entry written
    since [st0] is still in the cache. *)
Lemma loop_failure_keeps_writes E path params max_pages sleep_s st0 :
  well_formed (VDict params) = true ->
  max_pages <= maxsize (CACHE st0) ->
  forall fuel all_items page st evs pre res st',
    trace st = (trace st0 ++ evs)%list ->
    _d (CACHE st) = (pre ++ writes_of evs)%list ->
    NoDup (Dict.keys (_d (CACHE st))) ->
    maxsize (CACHE st) = maxsize (CACHE st0) ->
    Z.of_nat (List.length (writes_of evs)) <= page - 1 ->
    Forall (fun kv => exists q, q < page /\ fst kv = page_key path params q)
      (writes_of evs) ->
    _get_all_loop fuel E path params max_pages sleep_s all_items page st
    = (Val res, st') ->
    Dict.mem "error" res = true ->
    (exists r, ok r = false /\ res = error_result path r)
    /\ exists evs',
        trace st' = (trace st0 ++ evs')%list
        /\ forall key data, In (key, data) (writes_of evs') ->
             Dict.get key (_d (CACHE st')) = Some data.
Proof.
  intros Hwf Hcap.
  induction fuel as [|n IH];
    intros all_items page st evs pre res st' Ht Hd Hnd Hm Hlen HW Hloop Herr.
  { simpl in Hloop. destruct (page <=? max_pages); [discriminate|].
    injection Hloop as <- <-. discriminate Herr. }
  destruct (page <=? max_pages) eqn:Hle.
  2: { simpl in Hloop. rewrite Hle in Hloop.
       injection Hloop as <- <-. discriminate Herr. }
  apply Z.leb_le in Hle.
  destruct (fetch_page E path params page st) as [out st1] eqn:Hf.
  pose proof (fetch_page_cases _ _ _ _ _ _ _ Hf) as Hc.
  inversion Hc as [r st1' evs1 Hok Ht1 Hw1 Hg1|v st1'|e st1'|r data evs1 Hw1]; subst.
  - (* the page fails *)
    simpl in Hloop. apply Z.leb_le in Hle. rewrite Hle in Hloop.
    unfold bind at 1 in Hloop. rewrite Hf in Hloop. injection Hloop as <- <-.
    split; [now exists r|].
    exists (evs ++ evs1)%list. split.
    + rewrite Ht1, Ht, app_assoc. reflexivity.
    + intros key data Hin. rewrite writes_of_app, Hw1, app_nil_r in Hin.
      rewrite Hg1. apply In_get; [exact Hnd|].
      rewrite Hd. apply in_or_app. now right.
  - (* answered from the cache: the loop ends without failure *)
    rewrite (loop_fetched _ _ _ _ _ _ _ _ _ _ _ v Hle Hf eq_refl) in Hloop.
    change (link_of (hit_result v)) with (Val (A := string) "") in Hloop.
    destruct (page_items v) as [[l|]|e|]; try discriminate Hloop;
      simpl in Hloop; injection Hloop as <- <-; discriminate Herr.
  - simpl in Hloop. apply Z.leb_le in Hle. rewrite Hle in Hloop.
    unfold bind at 1 in Hloop. rewrite Hf in Hloop. discriminate Hloop.
  - (* a fresh page *)
    rewrite (loop_fetched _ _ _ _ _ _ _ _ _ _ _ data Hle Hf eq_refl) in Hloop.
    rewrite link_of_fresh in Hloop.
    destruct (page_items data) as [[l|]|e|]; try discriminate Hloop.
    2: { injection Hloop as <- <-. discriminate Herr. }
    destruct (negb (contains rel_next _)).
    { injection Hloop as <- <-. discriminate Herr. }
    set (key := page_key path params page) in *.
    set (st1 := mkState _ _) in *.
    destruct (after_pause sleep_s st1) as [st2|] eqn:Hpause;
      [|discriminate Hloop].
    destruct (trace_after_pause sleep_s st1 st2 Hpause) as (t & Htp & Hwt & Hcp).
    assert (Hnew : ~ In key (Dict.keys (writes_of evs))).
    { intros Hin. apply in_map_iff in Hin. destruct Hin as (kv & Hk & Hin).
      rewrite Forall_forall in HW. destruct (HW _ Hin) as (q & Hq & Hkq).
      rewrite Hk in Hkq. apply page_key_inj in Hkq; [lia | exact Hwf]. }
    destruct (stored_suffix (CACHE st) key data pre (writes_of evs) Hd Hnd Hnew)
      as [(pre' & Hst) Hnd'].
    { rewrite Hm. lia. }
    apply (IH _ _ _ (evs ++ (evs1 ++ [EvRequest (page_request E path params page);
                                       EvCacheSet key data]) ++ t)%list
              pre' _ _) in Hloop; try assumption.
    + rewrite Htp. unfold st1. cbn [trace]. rewrite Ht, <- !app_assoc. reflexivity.
    + rewrite Hcp. unfold st1. cbn [CACHE _d].
      rewrite !writes_of_app, Hw1, Hwt. simpl. rewrite ?app_nil_r. exact Hst.
    + rewrite Hcp. exact Hnd'.
    + rewrite Hcp. exact Hm.
    + rewrite !writes_of_app, Hw1, Hwt. simpl.
      rewrite ?app_nil_r, length_app. simpl. lia.
    + rewrite !writes_of_app, Hw1, Hwt. simpl. rewrite ?app_nil_r.
      apply Forall_app. split.
      * eapply Forall_impl; [|exact HW]. intros kv (q & Hq & Hk).
        exists q. split; [lia | exact Hk].
      * constructor; [|constructor]. exists page. split; [lia | reflexivity].
Qed.

(** A failure returned by the loop is the failure of a response. *)
Lemma loop_failure_shape E path params max_pages sleep_s :
  forall fuel all_items page st res st',
    _get_all_loop fuel E path params max_pages sleep_s all_items page st
    = (Val res, st') ->
    Dict.mem "error" res = true ->
    exists r, ok r = false /\ res = error_result path r.
Proof.
  induction fuel as [|n IH]; intros all_items page st res st' Hloop Herr.
  { simpl in Hloop. destruct (page <=? max_pages); [discriminate|].
    injection Hloop as <- <-. discriminate Herr. }
  destruct (page <=? max_pages) eqn:Hle.
  2: { simpl in Hloop. rewrite Hle in Hloop.
       injection Hloop as <- <-. discriminate Herr. }
  apply Z.leb_le in Hle.
  destruct (fetch_page E path params page st) as [out st1] eqn:Hf.
  pose proof (fetch_page_cases _ _ _ _ _ _ _ Hf) as Hc.
  inversion Hc as [r st1' evs1 Hok Ht1 Hw1 Hg1|v st1'|e st1'|r data evs1 Hw1]; subst.
  - simpl in Hloop. apply Z.leb_le in Hle. rewrite Hle in Hloop.
    unfold bind at 1 in Hloop. rewrite Hf in Hloop. injection Hloop as <- <-.
    now exists r.
  - rewrite (loop_fetched _ _ _ _ _ _ _ _ _ _ _ v Hle Hf eq_refl) in Hloop.
    change (link_of (hit_result v)) with (Val (A := string) "") in Hloop.
    destruct (page_items v) as [[l|]|e|]; try discriminate Hloop;
      simpl in Hloop; injection Hloop as <- <-; discriminate Herr.
  - simpl in Hloop. apply Z.leb_le in Hle. rewrite Hle in Hloop.
    unfold bind at 1 in Hloop. rewrite Hf in Hloop. discriminate Hloop.
  - rewrite (loop_fetched _ _ _ _ _ _ _ _ _ _ _ data Hle Hf eq_refl) in Hloop.
    rewrite link_of_fresh in Hloop.
    destruct (page_items data) as [[l|]|e|]; try discriminate Hloop.
    2: { injection Hloop as <- <-. discriminate Herr. }
    destruct (negb (contains rel_next _)).
    { injection Hloop as <- <-. discriminate Herr. }
    destruct (after_pause sleep_s _) as [st2|]; [|discriminate Hloop].
    now apply IH in Hloop.
Qed.

Lemma In_writes_of key data evs :
  In (EvCacheSet key data) evs <-> In (key, data) (writes_of evs).
Proof.
  induction evs as [|[r|q|k d] evs IH]; simpl.
  - tauto.
  - rewrite <- IH. split; [intros [H|H]; [discriminate | exact H] | auto].
  - rewrite <- IH. split; [intros [H|H]; [discriminate | exact H] | auto].
  - rewrite <- IH. split; intros [H|H]; auto; left; congruence.
Qed.

End RunFacts.

(** C8, as amended. When [_get_all] returns a failure, what it returns is
    exactly the failure dictionary of a response that was not [ok]: the
    accumulated items are not in it. The cache is not rolled back: when the
    run is allowed no more pages than the cache has room for
    ([max_pages <= maxsize]), every entry written to the cache during the
    run is still in the cache, under its key, when the failure is
    returned. *)
Theorem get_all_failure_keeps_cache_writes
    (E : Env) (path : string) (params : option dict) (max_pages : Z)
    (sleep_s : Q) (fuel : nat) (st st' : state) (res : dict) :
  _get_all fuel E path params max_pages sleep_s st = (Val res, st') ->
  Dict.mem "error" res = true ->
  (exists r, ok r = false
             /\ res = error_result path r
             /\ Dict.get "data" res = None)
  /\ (well_formed (VDict (or_empty params)) = true ->
      NoDup (Dict.keys (_d (CACHE st))) ->
      max_pages <= maxsize (CACHE st) ->
      exists evs,
        trace st' = (trace st ++ evs)%list
        /\ forall key data,
             In (EvCacheSet key data) evs ->
             Dict.get key (_d (CACHE st')) = Some data).
Proof.
  intros Hrun Herr. unfold _get_all in Hrun. split.
  - destruct (RunFacts.loop_failure_shape _ _ _ _ _ _ _ _ _ _ _ Hrun Herr)
      as (r & Hok & ->).
    exists r. repeat split. exact Hok.
  - intros Hwf Hnd Hcap.
    destruct (RunFacts.loop_failure_keeps_writes E path (or_empty params)
                max_pages sleep_s st Hwf Hcap fuel [] 1 st [] (_d (CACHE st))
                res st') as [_ (evs & Ht & Hkeep)]; try assumption.
    + now rewrite app_nil_r.
    + simpl. now rewrite app_nil_r.
    + reflexivity.
    + simpl. lia.
    + constructor.
    + exists evs. split; [exact Ht|]. intros key data Hin.
      apply Hkeep. now apply RunFacts.In_writes_of.
Qed.

(** C8 as stated fails on a long run. From the empty [LRU(128)], let the
    pages 1 to 129 succeed and the page 130 fail: the run returns the
    failure, it did write the first page to the cache, and that entry is
    gone, evicted when the page 129 was written. *)
Lemma get_all_failure_counterexample :
  let key1 := page_key "/search/issues" [] 1 in
  let r := _get_all 130 (failing_after 129) "/search/issues" None 130 0
             initial_state in
  fst r = Val [("error", VStr "500: Server Error");
               ("path", VStr "/search/issues");
               ("ratelimit-remaining", VStr "");
               ("ratelimit-reset", VStr "")]
  /\ nth_error (trace (snd r)) 1 = Some (EvCacheSet key1 (VList [VInt 1]))
  /\ Dict.get key1 (_d (CACHE (snd r))) = None.
Proof.
  vm_compute. repeat split.
Qed.

(** ** The statements at concrete inputs *)

(** C3 on a remote side that always refuses for a rate limit: the first
    page is requested twice, 2 apart, and the second failure comes back. *)
Lemma get_all_rate_limit_retry_witness :
  let req := page_request rate_limited_env "/search/issues" [] 1 in
  exists st',
    _get_all_loop 3 rate_limited_env "/search/issues" [] 3 0 [] 1 initial_state
    = (Val (error_result "/search/issues" rate_limit_response), st')
    /\ trace st' = [EvRequest req; EvSleep (2 # 1); EvRequest req].
Proof.
  intros req.
  destruct (get_all_rate_limit_retry rate_limited_env "/search/issues" [] 3 0
              3%nat [] 1 initial_state rate_limit_response) as [Hretry _].
  - lia.
  - simpl. lia.
  - intros v H. discriminate H.
  - reflexivity.
  - reflexivity.
  - destruct (Hretry eq_refl eq_refl) as (out & st' & evs & Hl & _ & Ht & _ & H2).
    destruct (H2 rate_limit_response eq_refl eq_refl) as [-> ->].
    exists st'. split; [exact Hl | exact Ht].
Defined.

(** C4 on the second, empty, page of [two_pages_env]. *)
Lemma get_all_empty_page_stops_witness :
  let st := snd (fetch_page two_pages_env "/repos/o/r/issues" [] 1 initial_state) in
  let f := fetch_page two_pages_env "/repos/o/r/issues" [] 2 st in
  let st' := mkState (CACHE st) (trace st ++ [EvSleep (1 # 2)]) in
  let f' := fetch_page two_pages_env "/repos/o/r/issues" [] 2 st' in
  _get_all_loop 1 two_pages_env "/repos/o/r/issues" [] 5 0 [VInt 1; VInt 2] 2 st
  = (Val [("data", VList [VInt 1; VInt 2])], snd f)
  /\ _get_all 2 two_pages_env "/repos/o/r/issues" None 5 (1 # 2) initial_state
     = (Val [("data", VList [VInt 1; VInt 2])], snd f').
Proof.
  intros st f st' f'. split.
  - destruct (get_all_empty_page_stops two_pages_env "/repos/o/r/issues" 5 0)
      as [Hempty _].
    apply (Hempty 0%nat [] [VInt 1; VInt 2] 2 st
             (fresh_result (VList []) (json_response 200 [] (VList [])))
             (snd f) (VList [])).
    + lia.
    + reflexivity.
    + reflexivity.
    + now left.
  - destruct (get_all_empty_page_stops two_pages_env "/repos/o/r/issues" 5 (1 # 2))
      as (_ & Htwo & _).
    apply (Htwo 0%nat None initial_state
             (fresh_result (VList [VInt 1; VInt 2])
                (json_response 200 [("Link", next_link)] (VList [VInt 1; VInt 2])))
             st st' (VList [VInt 1; VInt 2]) [VInt 1; VInt 2] next_link
             (fresh_result (VList []) (json_response 200 [] (VList [])))
             (snd f') (VList [])).
    + lia.
    + discriminate.
    + reflexivity.
    + reflexivity.
    + reflexivity.
    + reflexivity.
    + reflexivity.
    + reflexivity.
    + reflexivity.
    + reflexivity.
    + reflexivity.
Defined.

(** C5 with [max_pages = 2] on a remote side that always has a next page. *)
Lemma get_all_page_ceiling_witness :
  (Z.to_nat 2 <= 2)%nat
  /\ (exists out st' evs,
        _get_all 2 always_next_env "/search/issues" None 2 0 initial_state
        = (out, st')
        /\ out <> OutOfFuel
        /\ trace st' = (trace initial_state ++ evs)%list
        /\ forall r, In (EvRequest r) evs ->
             exists q, 1 <= q <= 2
                       /\ r = page_request always_next_env "/search/issues" [] q)
  /\ (let st1 := snd (fetch_page always_next_env "/search/issues" [] 1
                        initial_state) in
      exists st2,
        after_pause (1 # 2) st1 = Some st2
        /\ _get_all_loop 1 always_next_env "/search/issues" [] 1 (1 # 2) [] 1
             initial_state
           = (Val [("data", VList [VInt 1])], st2)).
Proof.
  split; [simpl; lia|]. split.
  - destruct (get_all_page_ceiling always_next_env "/search/issues" None 2 0 2%nat
                initial_state) as [H _]; [simpl; lia | exact H].
  - intros st1.
    destruct (get_all_page_ceiling always_next_env "/search/issues" None 1 (1 # 2)
                1%nat initial_state) as (_ & Hceil & _); [simpl; lia|].
    apply (Hceil 0%nat [] initial_state
             (fresh_result (VList [VInt 1])
                (json_response 200 [("Link", next_link)] (VList [VInt 1])))
             st1 (VList [VInt 1]) [VInt 1] next_link).
    + discriminate.
    + reflexivity.
    + reflexivity.
    + reflexivity.
    + reflexivity.
    + reflexivity.
Defined.

(** C6 on the two orders of [{"a": 2, "b": 1}]. *)
Lemma cache_key_deterministic_witness :
  let p1 := [("b", VInt 1); ("a", VInt 2)] in
  let p2 := [("a", VInt 2); ("b", VInt 1)] in
  well_formed (VDict p1) = true
  /\ well_formed (VDict p2) = true
  /\ (_cache_key "/repos/o/r/issues" p1 = _cache_key "/repos/o/r/issues" p2
      <-> same_value (VDict p1) (VDict p2) = true).
Proof.
  intros p1 p2. split; [reflexivity|]. split; [reflexivity|].
  destruct (cache_key_deterministic "/repos/o/r/issues" p1 p2 eq_refl eq_refl)
    as (_ & H & _).
  exact H.
Defined.

(** C7 on a remote side that answers [404]. *)
Lemma get_failure_witness :
  exists st',
    _get not_found_env "/repos/o/r" None true initial_state
    = (Val [("error", VStr "404: Not Found");
            ("path", VStr "/repos/o/r");
            ("ratelimit-remaining", VStr "59");
            ("ratelimit-reset", VStr "")], st')
    /\ CACHE st' = CACHE initial_state.
Proof.
  destruct (get_failure not_found_env "/repos/o/r" None true initial_state
              not_found_response) as (st' & Hg & _ & _ & _ & Hc & _).
  - intros _ v H. discriminate H.
  - reflexivity.
  - reflexivity.
  - exists st'. split; [exact Hg|]. apply Hc. now right.
Defined.

(** C8 on a run of two pages: the first is written, the second fails. *)
Lemma get_all_failure_keeps_cache_writes_witness :
  let r := _get_all 5 (failing_after 1) "/search/issues" None 5 0 initial_state in
  exists evs,
    trace (snd r) = (trace initial_state ++ evs)%list
    /\ forall key data,
         In (EvCacheSet key data) evs ->
         Dict.get key (_d (CACHE (snd r))) = Some data.
Proof.
  intros r.
  destruct (get_all_failure_keeps_cache_writes (failing_after 1) "/search/issues"
              None 5 0 5%nat initial_state (snd r)
              (error_result "/search/issues"
                 (mkResponse 500 "Server Error" [] None)))
    as [_ H].
  - reflexivity.
  - reflexivity.
  - apply H.
    + reflexivity.
    + constructor.
    + simpl. lia.
Defined.

(** C9 on the second of two identical runs. *)
Lemma get_all_stops_at_cache_hit_witness :
  let st := snd (_get_all 2 always_next_env "/search/issues" None 2 0
                   initial_state) in
  exists out st',
    _get_all_loop 2 always_next_env "/search/issues" [] 2 0 [] 1 st = (out, st')
    /\ trace st' = trace st
    /\ out = Val [("data", VList [VInt 1])].
Proof.
  intros st.
  destruct (get_all_stops_at_cache_hit always_next_env "/search/issues" [] 2 0
              1%nat [] 1 st (VList [VInt 1]))
    as (_ & (out & st' & Hl & Ht & Ho) & _).
  - lia.
  - reflexivity.
  - discriminate.
  - exists out, st'. split; [exact Hl|]. split; [exact Ht | exact Ho].
Defined.

(** C10 on the state left by a first fetch whose body is [null]. *)
Lemma get_none_payload_never_hits_witness :
  let st := snd (_get null_env "/repos/o/r" None true initial_state) in
  exists out st',
    _get null_env "/repos/o/r" None true st = (out, st')
    /\ (exists t, trace st'
                  = (trace st ++ EvRequest (the_request null_env "/repos/o/r" [])
                       :: t)%list)
    /\ forall res, out = Val res ->
                   Dict.get "from_cache" res <> Some (VBool true).
Proof.
  intros st.
  destruct (get_none_payload_never_hits null_env "/repos/o/r" None (CACHE st) st)
    as (_ & _ & _ & H).
  apply H. reflexivity.
Defined.

(** * Further properties *)

(** ** The cache: lookups after updates *)

Module CacheFacts.
Import DictFacts LRUFacts.

Lemma get_touched k v d : Dict.get k (Dict.remove k d ++ [(k, v)]) = Some v.
Proof.
  rewrite get_app, get_remove_same. simpl. now rewrite String.eqb_refl.
Qed.

Lemma get_touched_other k v k' d :
  k' <> k -> Dict.get k' (Dict.remove k d ++ [(k, v)]) = Dict.get k' d.
Proof.
  intros Hne. rewrite get_app, get_remove_other by exact Hne.
  destruct (Dict.get k' d); [reflexivity|]. simpl.
  destruct (String.eqb_spec k k'); [congruence | reflexivity].
Qed.

Lemma remove_touched k v d :
  Dict.remove k (Dict.remove k d ++ [(k, v)]) = Dict.remove k d.
Proof.
  induction d as [|[k' v'] d IH]; simpl.
  - now rewrite String.eqb_refl.
  - destruct (String.eqb k' k) eqn:E; simpl; [exact IH | now rewrite E, IH].
Qed.

(** With distinct keys, removing a stored key removes one entry. *)
Lemma length_remove_mem k d :
  NoDup (Dict.keys d) -> Dict.mem k d = true ->
  S (List.length (Dict.remove k d)) = List.length d.
Proof.
  induction d as [|[k' v'] d IH]; simpl; intros Hnd Hm; [discriminate|].
  inversion Hnd as [|? ? Hnot Hnd']; subst.
  destruct (String.eqb_spec k' k) as [->|Hne].
  - rewrite remove_absent; [reflexivity|].
    destruct (Dict.mem k d) eqn:E; [|reflexivity].
    apply mem_keys in E. contradiction.
  - simpl. now rewrite IH.
Qed.

(** The key just set is found, when there is room for one entry. *)
Lemma get_stored c k v :
  1 <= maxsize c -> Dict.get k (stored c k v) = Some v.
Proof.
  intros Hm. unfold stored.
  pose proof (get_touched k v (_d c)) as Hlast.
  destruct (Dict.len _ >? maxsize c) eqn:Hover; [|exact Hlast].
  destruct (Dict.remove k (_d c)) as [|[k0 v0] d0] eqn:Hrem.
  - simpl in Hover. unfold Dict.len in Hover. simpl in Hover.
    rewrite Z.gtb_ltb in Hover. apply Z.ltb_lt in Hover. lia.
  - simpl. simpl in Hlast.
    destruct (String.eqb_spec k0 k) as [->|Hne]; [|exact Hlast].
    exfalso. apply (not_in_keys_remove k (_d c)). rewrite Hrem. now left.
Qed.

Lemma LRU_set_stored c k v :
  LRU_set c k v = Some (mkLRU (maxsize c) (stored c k v)).
Proof. apply LRU_set_eq. Qed.

(** The key just set is the last entry of the store. *)
Lemma stored_last c k v :
  1 <= maxsize c ->
  exists pre, stored c k v = (pre ++ [(k, v)])%list /\ Dict.remove k pre = pre.
Proof.
  intros Hm. unfold stored.
  assert (Hrr : Dict.remove k (Dict.remove k (_d c)) = Dict.remove k (_d c)).
  { apply remove_absent. apply mem_false_get, get_remove_same. }
  destruct (Dict.len _ >? maxsize c) eqn:Hover.
  - destruct (Dict.remove k (_d c)) as [|[k0 v0] d0] eqn:Hrem.
    + simpl in Hover. unfold Dict.len in Hover. simpl in Hover.
      rewrite Z.gtb_ltb in Hover. apply Z.ltb_lt in Hover. lia.
    + simpl. exists d0. split; [reflexivity|].
      simpl in Hrr. destruct (String.eqb k0 k) eqn:E.
      * exfalso. apply (not_in_keys_remove k (_d c)). rewrite Hrem.
        left. simpl. now apply String.eqb_eq.
      * now injection Hrr.
  - exists (Dict.remove k (_d c)). split; [reflexivity | exact Hrr].
Qed.

End CacheFacts.

(** X1. Insert then look up. In a cache with room for at least one entry,
    [get(k)] right after [set(k, v)] returns [v] and leaves the cache as it
    is. A cache of capacity 0 or less that is empty stays empty: [set] stores
    nothing and [get] answers [None]. *)
Theorem lru_set_then_get (c : LRU) (k : string) (v : value) :
  (1 <= maxsize c ->
   exists c1, LRU_set c k v = Some c1 /\ LRU_get c1 k = Some (v, c1))
  /\ (maxsize c <= 0 -> _d c = [] ->
      LRU_set c k v = Some c /\ LRU_get c k = Some (VNone, c)).
Proof.
  split.
  - intros Hm. rewrite CacheFacts.LRU_set_stored. eexists. split; [reflexivity|].
    rewrite LRUFacts.LRU_get_eq. simpl.
    destruct (CacheFacts.stored_last c k v Hm) as (pre & Hst & Hpre).
    rewrite (CacheFacts.get_stored c k v Hm). do 3 f_equal.
    rewrite Hst, RunFacts.remove_app, Hpre. simpl.
    now rewrite String.eqb_refl, app_nil_r.
  - intros Hm Hd. rewrite CacheFacts.LRU_set_stored, LRUFacts.LRU_get_eq.
    unfold stored. rewrite Hd. simpl.
    assert (Hover : (Dict.len [(k, v)] >? maxsize c) = true).
    { unfold Dict.len. simpl. rewrite Z.gtb_ltb. apply Z.ltb_lt. lia. }
    rewrite Hover. simpl. destruct c as [m d]. simpl in *. now subst.
Qed.

Lemma lru_set_then_get_witness :
  exists c1,
    LRU_set (LRU_init 128) "k" (VInt 1) = Some c1
    /\ LRU_get c1 "k" = Some (VInt 1, c1).
Proof.
  destruct (lru_set_then_get (LRU_init 128) "k" (VInt 1)) as [H _].
  apply H. simpl. lia.
Defined.

(** X2. Overwriting evicts nobody. When the key is already stored, the store
    is within its capacity and its keys are distinct, [set(k, v)] keeps the
    number of entries; afterwards [k] holds [v] and every other key holds
    what it held. *)
Theorem lru_overwrite_keeps_others (c : LRU) (k : string) (v : value) :
  Dict.mem k (_d c) = true ->
  NoDup (Dict.keys (_d c)) ->
  Dict.len (_d c) <= maxsize c ->
  exists c',
    LRU_set c k v = Some c'
    /\ maxsize c' = maxsize c
    /\ Dict.len (_d c') = Dict.len (_d c)
    /\ forall k', Dict.get k' (_d c')
                  = if String.eqb k' k then Some v else Dict.get k' (_d c).
Proof.
  intros Hmem Hnd Hlen. rewrite CacheFacts.LRU_set_stored.
  eexists. split; [reflexivity|]. simpl.
  assert (Hl : Dict.len (Dict.remove k (_d c) ++ [(k, v)]) = Dict.len (_d c)).
  { unfold Dict.len. rewrite length_app. simpl.
    rewrite <- (CacheFacts.length_remove_mem k (_d c) Hnd Hmem). lia. }
  unfold stored.
  assert (Hover : (Dict.len (Dict.remove k (_d c) ++ [(k, v)]) >? maxsize c)
                  = false).
  { rewrite Z.gtb_ltb. apply Z.ltb_ge. lia. }
  rewrite Hover. split; [reflexivity|]. split; [exact Hl|].
  intros k'. destruct (String.eqb_spec k' k) as [->|Hne].
  - apply CacheFacts.get_touched.
  - now apply CacheFacts.get_touched_other.
Qed.

Lemma lru_overwrite_keeps_others_witness :
  let c := mkLRU 2 [("a", VInt 1); ("b", VInt 2)] in
  exists c',
    LRU_set c "a" (VInt 3) = Some c'
    /\ maxsize c' = 2
    /\ Dict.len (_d c') = 2
    /\ forall k', Dict.get k' (_d c')
                  = if String.eqb k' "a" then Some (VInt 3) else Dict.get k' (_d c).
Proof.
  intros c.
  apply (lru_overwrite_keeps_others c "a" (VInt 3)).
  - reflexivity.
  - repeat constructor; simpl; intuition discriminate.
  - simpl. unfold Dict.len. simpl. lia.
Defined.

(** X3. [get] only reorders. [LRU.get] returns the value stored under the
    key, or [None] when there is none; it never changes what any key holds
    nor the capacity, and a lookup that finds nothing leaves the cache
    untouched. With distinct keys the number of entries is kept too. *)
Theorem lru_get_read_only (c : LRU) (k : string) :
  exists v c',
    LRU_get c k = Some (v, c')
    /\ v = match Dict.get k (_d c) with Some x => x | None => VNone end
    /\ maxsize c' = maxsize c
    /\ (forall k', Dict.get k' (_d c') = Dict.get k' (_d c))
    /\ (Dict.get k (_d c) = None -> c' = c)
    /\ (NoDup (Dict.keys (_d c)) -> Dict.len (_d c') = Dict.len (_d c)).
Proof.
  rewrite LRUFacts.LRU_get_eq.
  destruct (Dict.get k (_d c)) as [x|] eqn:Hg.
  - eexists _, _. split; [reflexivity|]. simpl.
    split; [reflexivity|]. split; [reflexivity|]. split; [|split].
    + intros k'. destruct (String.eqb_spec k' k) as [->|Hne].
      * now rewrite CacheFacts.get_touched.
      * now apply CacheFacts.get_touched_other.
    + discriminate.
    + intros Hnd. unfold Dict.len. rewrite length_app. simpl.
      assert (Hm : Dict.mem k (_d c) = true) by (apply DictFacts.mem_get; congruence).
      rewrite <- (CacheFacts.length_remove_mem k (_d c) Hnd Hm). lia.
  - eexists _, _. split; [reflexivity|]. repeat split; reflexivity.
Qed.

(** ** The fetcher: the other paths *)

(** X4. Without the cache. [_get(path, params, use_cache=False)] neither
    reads nor writes the cache, whatever it holds: the cache is unchanged,
    exactly one request is sent, and the outcome is decided by the response
    alone. *)
Theorem get_without_cache
    (E : Env) (path : string) (params : option dict) (st : state) :
  exists out st',
    _get E path params false st = (out, st')
    /\ CACHE st' = CACHE st
    /\ trace st'
       = (trace st ++ [EvRequest (the_request E path (or_empty params))])%list
    /\ out = match transport E (requests_of (trace st))
                     (the_request E path (or_empty params)) with
             | Reply r =>
                 if ok r then
                   match json r with
                   | Some data => Val (fresh_result data r)
                   | None => Raise JSONDecodeError
                   end
                 else Val (error_result path r)
             | NoReply e => Raise e
             end.
Proof.
  unfold _get, fetch, bind, requests_get.
  destruct (transport E (requests_of (trace st))
              (the_request E path (or_empty params))) as [r|e].
  - destruct (ok r); simpl.
    + destruct (json r) as [data|]; simpl;
        eexists _, _; repeat split; reflexivity.
    + eexists _, _; repeat split; reflexivity.
  - eexists _, _; repeat split; reflexivity.
Qed.

(** X5. Fetch, then hit. When the cache (capacity at least 1) does not
    answer, the response is [ok] and its body parses to a payload other than
    [None], [_get] returns the payload with [from_cache=False] after one
    request and one write, and the same call right after returns the same
    payload with [from_cache=True] and no further effect. *)
Theorem get_then_get_hits
    (E : Env) (path : string) (params : option dict) (st : state)
    (r : response) (data : value) :
  (forall v, Dict.get (_cache_key path (or_empty params)) (_d (CACHE st)) = Some v ->
             v = VNone) ->
  transport E (requests_of (trace st)) (the_request E path (or_empty params))
  = Reply r ->
  ok r = true ->
  json r = Some data ->
  data <> VNone ->
  1 <= maxsize (CACHE st) ->
  exists st1 st2,
    _get E path params true st
    = (Val [("data", data); ("from_cache", VBool false);
            ("link", VStr (headers_get "Link" "" (headers r)));
            ("ratelimit", VStr (headers_get "X-RateLimit-Remaining" "" (headers r)))],
       st1)
    /\ trace st1
       = (trace st ++ [EvRequest (the_request E path (or_empty params));
                       EvCacheSet (_cache_key path (or_empty params)) data])%list
    /\ _get E path params true st1
       = (Val [("data", data); ("from_cache", VBool true)], st2)
    /\ trace st2 = trace st1.
Proof.
  intros Hmiss Ht Hok Hj Hdata Hmax.
  set (key := _cache_key path (or_empty params)) in *.
  assert (Hfetch : exists c0,
            maxsize c0 = maxsize (CACHE st)
            /\ _get E path params true st
               = fetch E path (or_empty params) key true (mkState c0 (trace st))).
  { destruct (Dict.get key (_d (CACHE st))) as [v|] eqn:Hg.
    - rewrite (Hmiss v eq_refl) in Hg. eexists. split; [|
        apply (GetFacts._get_stored_none E path params st Hg)]. reflexivity.
    - exists (CACHE st). split; [reflexivity|].
      rewrite (GetFacts._get_absent E path params st Hg). now destruct st. }
  destruct Hfetch as (c0 & Hm0 & Hget).
  rewrite Hget.
  rewrite (GetFacts.fetch_ok E path (or_empty params) key
             (mkState c0 (trace st)) r data Ht Hok Hj).
  eexists _, _. split; [reflexivity|]. split; [reflexivity|].
  cbn [CACHE trace].
  assert (Hg1 : Dict.get key (stored c0 key data) = Some data).
  { apply CacheFacts.get_stored. lia. }
  rewrite (GetFacts._get_hit E path params _ data); [split; reflexivity | | exact Hdata].
  exact Hg1.
Qed.

Lemma get_then_get_hits_witness :
  let E := always_next_env in
  exists st1 st2,
    _get E "/search/issues" None true initial_state
    = (Val [("data", VList [VInt 1]); ("from_cache", VBool false);
            ("link", VStr next_link); ("ratelimit", VStr "")], st1)
    /\ _get E "/search/issues" None true st1
       = (Val [("data", VList [VInt 1]); ("from_cache", VBool true)], st2)
    /\ trace st2 = trace st1.
Proof.
  intros E.
  destruct (get_then_get_hits E "/search/issues" None initial_state
              (json_response 200 [("Link", next_link)] (VList [VInt 1]))
              (VList [VInt 1])) as (st1 & st2 & H1 & _ & H2 & H3).
  - intros v H. discriminate H.
  - reflexivity.
  - reflexivity.
  - reflexivity.
  - discriminate.
  - simpl. lia.
  - exists st1, st2. split; [exact H1|]. split; [exact H2 | exact H3].
Defined.

(** X6. What is not a payload is not cached. When [_get] reaches the remote
    side and the request raises, or the response is [ok] but its body does
    not parse, [_get] raises (the exception of the request, or the decoding
    error); the only effect is the request and every key of the cache holds
    what it held. *)
Theorem get_raises_caches_nothing
    (E : Env) (path : string) (params : option dict) (use_cache : bool)
    (st : state) :
  (use_cache = true ->
   forall v, Dict.get (_cache_key path (or_empty params)) (_d (CACHE st)) = Some v ->
             v = VNone) ->
  forall e,
    (transport E (requests_of (trace st)) (the_request E path (or_empty params))
     = NoReply e
     \/ exists r,
         transport E (requests_of (trace st)) (the_request E path (or_empty params))
         = Reply r
         /\ ok r = true /\ json r = None /\ e = JSONDecodeError) ->
    exists st',
      _get E path params use_cache st = (Raise e, st')
      /\ trace st'
         = (trace st ++ [EvRequest (the_request E path (or_empty params))])%list
      /\ forall k, Dict.get k (_d (CACHE st')) = Dict.get k (_d (CACHE st)).
Proof.
  intros Hmiss e He.
  assert (Hfetch : forall c0,
            exists st',
              fetch E path (or_empty params) (_cache_key path (or_empty params))
                use_cache (mkState c0 (trace st)) = (Raise e, st')
              /\ trace st'
                 = (trace st ++ [EvRequest (the_request E path (or_empty params))])%list
              /\ CACHE st' = c0).
  { intros c0. unfold fetch, bind, requests_get. cbn [trace CACHE].
    destruct He as [Ht|(r & Ht & Hok & Hj & ->)]; rewrite Ht.
    - eexists. repeat split.
    - rewrite Hok, Hj. simpl. eexists. repeat split. }
  destruct use_cache.
  - destruct (Dict.get (_cache_key path (or_empty params)) (_d (CACHE st)))
      as [v|] eqn:Hg.
    + rewrite (Hmiss eq_refl v eq_refl) in Hg.
      rewrite (GetFacts._get_stored_none E path params st Hg).
      destruct (Hfetch (refreshed (CACHE st) (_cache_key path (or_empty params))
                          VNone)) as (st' & Hf & Ht' & Hc).
      exists st'. split; [exact Hf|]. split; [exact Ht'|].
      intros k. rewrite Hc. now apply (GetFacts.get_refreshed (CACHE st)).
    + rewrite (GetFacts._get_absent E path params st Hg).
      destruct (Hfetch (CACHE st)) as (st' & Hf & Ht' & Hc).
      exists st'. split; [now destruct st|]. split; [exact Ht'|].
      intros k. now rewrite Hc.
  - unfold _get. destruct (Hfetch (CACHE st)) as (st' & Hf & Ht' & Hc).
    exists st'. split; [now destruct st|]. split; [exact Ht'|].
    intros k. now rewrite Hc.
Qed.

Lemma get_raises_caches_nothing_witness :
  exists st',
    _get unreachable_env "/repos/o/r" None true initial_state
    = (Raise (RequestException "connection timed out"), st')
    /\ trace st'
       = [EvRequest (the_request unreachable_env "/repos/o/r" [])]
    /\ forall k, Dict.get k (_d (CACHE st')) = Dict.get k (_d (CACHE initial_state)).
Proof.
  apply (get_raises_caches_nothing unreachable_env "/repos/o/r" None true
           initial_state).
  - intros _ v H. discriminate H.
  - left. reflexivity.
Defined.

(** ** The paginator: the other paths *)

Module PageFacts.
Import DictFacts LRUFacts GetFacts PagerFacts RunFacts.

(** [_get] when the cache does not answer and the response is a payload. *)
Lemma fresh_get E path P st r data :
  (forall v, Dict.get (_cache_key path P) (_d (CACHE st)) = Some v -> v = VNone) ->
  transport E (requests_of (trace st)) (the_request E path P) = Reply r ->
  ok r = true ->
  json r = Some data ->
  _get E path (Some P) true st
  = (Val (fresh_result data r),
     mkState (mkLRU (maxsize (CACHE st)) (stored (CACHE st) (_cache_key path P) data))
       (trace st ++ [EvRequest (the_request E path P);
                     EvCacheSet (_cache_key path P) data])).
Proof.
  intros Hmiss Ht Hok Hj.
  destruct (Dict.get (_cache_key path P) (_d (CACHE st))) as [v|] eqn:Hg.
  - rewrite (Hmiss v eq_refl) in Hg.
    rewrite (_get_stored_none E path (Some P) st Hg). simpl or_empty.
    rewrite (fetch_ok E path P (_cache_key path P)
               (mkState (refreshed (CACHE st) (_cache_key path P) VNone) (trace st))
               r data Ht Hok Hj).
    cbn [CACHE trace maxsize refreshed]. unfold stored. cbn [_d refreshed].
    now rewrite remove_refreshed.
  - rewrite (_get_absent E path (Some P) st Hg). simpl or_empty.
    now rewrite (fetch_ok E path P (_cache_key path P) st r data Ht Hok Hj).
Qed.

Lemma fetch_page_fresh E path params page st r data :
  (forall v, Dict.get (page_key path params page) (_d (CACHE st)) = Some v ->
             v = VNone) ->
  transport E (requests_of (trace st)) (page_request E path params page) = Reply r ->
  ok r = true ->
  json r = Some data ->
  fetch_page E path params page st
  = (Val (inr (fresh_result data r)),
     mkState
       (mkLRU (maxsize (CACHE st)) (stored (CACHE st) (page_key path params page) data))
       (trace st ++ [EvRequest (page_request E path params page);
                     EvCacheSet (page_key path params page) data])).
Proof.
  intros Hmiss Ht Hok Hj. unfold fetch_page, bind.
  rewrite (fresh_get E path _ st r data Hmiss Ht Hok Hj). reflexivity.
Qed.

(** The first attempt is refused for a rate limit and the second one is
    answered with a payload. *)
Lemma fetch_page_retry_fresh E path params page st r1 r2 data :
  (forall v, Dict.get (page_key path params page) (_d (CACHE st)) = Some v ->
             v = VNone) ->
  transport E (requests_of (trace st)) (page_request E path params page)
  = Reply r1 ->
  ok r1 = false ->
  status_code r1 = 403 ->
  contains "rate limit"
    (lower (str_of_int (status_code r1) ++ ": " ++ str_take 200 (text r1))) = true ->
  transport E (requests_of (trace st) ++ [page_request E path params page])
    (page_request E path params page) = Reply r2 ->
  ok r2 = true ->
  json r2 = Some data ->
  exists c,
    fetch_page E path params page st
    = (Val (inr (fresh_result data r2)),
       mkState c
         (trace st ++ [EvRequest (page_request E path params page);
                       EvSleep (2 # 1);
                       EvRequest (page_request E path params page);
                       EvCacheSet (page_key path params page) data]))
    /\ maxsize c = maxsize (CACHE st).
Proof.
  intros Hmiss Ht1 Hok1 H403 Hrl Ht2 Hok2 Hj.
  set (P := Dict.merged params "page" (VInt page)).
  set (req := page_request E path params page) in *.
  destruct (failing_get E path P st r1 Hmiss Ht1 Hok1) as (c & Hg1 & Hc).
  assert (Hrate : is_rate_limit
                    (lower (str_of_int (status_code r1) ++ ": "
                            ++ str_take 200 (text r1))) = true).
  { unfold is_rate_limit. rewrite Hrl, andb_true_r.
    now apply StrFacts.status_403. }
  unfold fetch_page. fold P. unfold bind at 1. rewrite Hg1.
  change (Dict.mem "error" (error_result path r1)) with true. cbv iota.
  unfold bind at 1, lift.
  change (error_lower (error_result path r1))
    with (Val (lower (str_of_int (status_code r1) ++ ": "
                      ++ str_take 200 (text r1)))).
  cbv iota. rewrite Hrate. unfold bind at 1, sleep.
  change (Qle_bool 0 (2 # 1)) with true. cbv iota. cbn [CACHE trace].
  unfold bind at 1.
  rewrite (fresh_get E path P _ r2 data).
  - cbn [CACHE trace]. change (Dict.mem "error" (fresh_result data r2)) with false.
    cbv iota. unfold ret. eexists. split.
    + rewrite <- !app_assoc. reflexivity.
    + destruct (failing_get E path P st r1 Hmiss Ht1 Hok1) as (c' & Hg1' & _).
      rewrite Hg1 in Hg1'. injection Hg1' as <-.
      pose proof (_get_cases E path P st) as Hcase. rewrite Hg1 in Hcase.
      cbn [fst snd] in Hcase. inversion Hcase; subst. assumption.
  - exact Hc.
  - cbn [trace]. rewrite !requests_of_app. simpl. rewrite app_nil_r. exact Ht2.
  - exact Hok2.
  - exact Hj.
Qed.

(** A returned value without [error] holds the aggregated list. *)
Lemma loop_success_shape E path params max_pages sleep_s :
  forall fuel all_items page st res st',
    _get_all_loop fuel E path params max_pages sleep_s all_items page st
    = (Val res, st') ->
    Dict.mem "error" res = false ->
    exists l, res = [("data", VList (all_items ++ l))].
Proof.
  assert (Hnil : forall all_items : list value,
            exists l, [("data", VList all_items)]
                      = [("data", VList (all_items ++ l))]).
  { intros a. exists []. now rewrite app_nil_r. }
  induction fuel as [|n IH]; intros all_items page st res st' Hloop Herr.
  { simpl in Hloop. destruct (page <=? max_pages); [discriminate|].
    injection Hloop as <- <-. apply Hnil. }
  destruct (page <=? max_pages) eqn:Hle.
  2: { simpl in Hloop. rewrite Hle in Hloop. injection Hloop as <- <-. apply Hnil. }
  apply Z.leb_le in Hle.
  destruct (fetch_page E path params page st) as [out st1] eqn:Hf.
  pose proof (fetch_page_cases _ _ _ _ _ _ _ Hf) as Hc.
  inversion Hc as [r st1' evs1 Hok Ht1 Hw1 Hg1|v st1'|e st1'|r data evs1 Hw1]; subst.
  - simpl in Hloop. apply Z.leb_le in Hle. rewrite Hle in Hloop.
    unfold bind at 1 in Hloop. rewrite Hf in Hloop. injection Hloop as <- <-.
    discriminate Herr.
  - rewrite (loop_fetched _ _ _ _ _ _ _ _ _ _ _ v Hle Hf eq_refl) in Hloop.
    change (link_of (hit_result v)) with (Val (A := string) "") in Hloop.
    destruct (page_items v) as [[l|]|e|]; try discriminate Hloop;
      simpl in Hloop; injection Hloop as <- <-; [now exists l | apply Hnil].
  - simpl in Hloop. apply Z.leb_le in Hle. rewrite Hle in Hloop.
    unfold bind at 1 in Hloop. rewrite Hf in Hloop. discriminate Hloop.
  - rewrite (loop_fetched _ _ _ _ _ _ _ _ _ _ _ data Hle Hf eq_refl) in Hloop.
    rewrite link_of_fresh in Hloop.
    destruct (page_items data) as [[l|]|e|]; try discriminate Hloop.
    2: { injection Hloop as <- <-. apply Hnil. }
    destruct (negb (contains rel_next _)).
    { injection Hloop as <- <-. now exists l. }
    destruct (after_pause sleep_s _) as [st2|]; [|discriminate Hloop].
    destruct (IH _ _ _ _ _ Hloop Herr) as (l' & ->).
    exists (l ++ l')%list. now rewrite app_assoc.
Qed.

(** One call of [_get] sends at most one request. *)
Lemma get_events_count req key evs :
  get_events req key evs -> (List.length (requests_of evs) <= 1)%nat.
Proof.
  intros [->|[->|[data ->]]]; simpl; lia.
Qed.

Lemma fetch_page_count E path params page st :
  exists evs,
    trace (snd (fetch_page E path params page st)) = (trace st ++ evs)%list
    /\ (List.length (requests_of evs) <= 2)%nat.
Proof.
  unfold fetch_page, bind.
  destruct (_get_effects E path (Some (Dict.merged params "page" (VInt page))) st)
    as (out1 & st1 & evs1 & Hg1 & Ho1 & Ht1 & He1).
  rewrite Hg1. apply get_events_count in He1.
  destruct out1 as [res1|e|]; [| |contradiction].
  2: { exists evs1. split; [exact Ht1 | lia]. }
  destruct (Dict.mem "error" res1).
  2: { exists evs1. split; [exact Ht1 | lia]. }
  unfold lift. destruct (error_lower res1) as [err|e|] eqn:Herr.
  3: { exists evs1. split; [exact Ht1 | lia]. }
  2: { exists evs1. split; [exact Ht1 | lia]. }
  destruct (is_rate_limit err).
  2: { exists evs1. split; [exact Ht1 | lia]. }
  unfold sleep. change (Qle_bool 0 (2 # 1)) with true. cbv iota.
  destruct (_get_effects E path (Some (Dict.merged params "page" (VInt page)))
              (mkState (CACHE st1) (trace st1 ++ [EvSleep (2 # 1)])))
    as (out2 & st2 & evs2 & Hg2 & Ho2 & Ht2 & He2).
  rewrite Hg2. apply get_events_count in He2. simpl in Ht2.
  assert (Htr : trace st2 = (trace st ++ (evs1 ++ EvSleep (2 # 1) :: evs2))%list).
  { rewrite Ht2, Ht1, <- !app_assoc. reflexivity. }
  assert (Hcnt : (List.length (requests_of (evs1 ++ EvSleep (2 # 1) :: evs2)) <= 2)%nat).
  { rewrite requests_of_app, length_app. simpl. lia. }
  destruct out2 as [res2|e|]; [| |contradiction].
  - destruct (Dict.mem "error" res2); eexists; split; eassumption.
  - eexists; split; eassumption.
Qed.

(** The loop sends at most two requests per page that is left. *)
Lemma loop_count E path params max_pages sleep_s fuel :
  forall all_items page st,
    exists evs,
      trace (snd (_get_all_loop fuel E path params max_pages sleep_s
                    all_items page st)) = (trace st ++ evs)%list
      /\ (List.length (requests_of evs)
          <= 2 * Z.to_nat (max_pages - page + 1))%nat.
Proof.
  induction fuel as [|fuel IH]; intros all_items page st.
  - simpl. destruct (page <=? max_pages); exists []; rewrite app_nil_r;
      split; (reflexivity || (simpl; lia)).
  - simpl. destruct (page <=? max_pages) eqn:Hle.
    2: { exists []. rewrite app_nil_r. split; [reflexivity | simpl; lia]. }
    apply Z.leb_le in Hle.
    assert (Hpages : Z.to_nat (max_pages - page + 1)
                     = S (Z.to_nat (max_pages - (page + 1) + 1))) by lia.
    unfold bind at 1.
    destruct (fetch_page_count E path params page st) as (evs1 & Ht1 & Hc1).
    destruct (fetch_page E path params page st) as [out1 st1]. cbn [snd] in Ht1.
    assert (Hstop : forall out : result dict,
              exists evs,
                trace (snd (out, st1)) = (trace st ++ evs)%list
                /\ (List.length (requests_of evs)
                    <= 2 * Z.to_nat (max_pages - page + 1))%nat).
    { intros out. exists evs1. split; [exact Ht1 | lia]. }
    destruct out1 as [[res|res]|e|]; try apply Hstop.
    unfold bind at 1, lift.
    destruct (getitem "data" res) as [data|e|]; try apply Hstop.
    unfold bind at 1.
    destruct (page_items data) as [[l|]|e|]; try apply Hstop.
    unfold bind at 1.
    destruct (link_of res) as [link|e|]; try apply Hstop.
    destruct (negb (contains rel_next link)); [apply Hstop|].
    assert (Hnext : forall st2 evs2,
              trace st2 = (trace st1 ++ evs2)%list -> requests_of evs2 = [] ->
              exists evs,
                trace (snd (_get_all_loop fuel E path params max_pages sleep_s
                              (all_items ++ l) (page + 1) st2))
                = (trace st ++ evs)%list
                /\ (List.length (requests_of evs)
                    <= 2 * Z.to_nat (max_pages - page + 1))%nat).
    { intros st2 evs2 Ht2 Hr2.
      destruct (IH (all_items ++ l)%list (page + 1) st2) as (evs & Ht & Hc).
      exists (evs1 ++ evs2 ++ evs)%list. split.
      - rewrite Ht, Ht2, Ht1, <- !app_assoc. reflexivity.
      - rewrite !requests_of_app, Hr2, !length_app. simpl. lia. }
    unfold bind at 1.
    destruct (negb (Qeq_bool sleep_s 0)).
    + unfold sleep. destruct (Qle_bool 0 sleep_s); [|apply Hstop].
      apply (Hnext _ [EvSleep sleep_s]); reflexivity.
    + unfold ret. apply (Hnext _ []); [now rewrite app_nil_r | reflexivity].
Qed.

End PageFacts.

(** X7. Retry, then success. When the page is not answered by the cache,
    the first response is a 403 whose message mentions a rate limit and the
    second response to the same request is a payload with items, the
    iteration makes exactly: the request, a sleep of 2 seconds, the same
    request, one cache write of the payload; the items are appended. If the
    second response announces no next page, the aggregated list is returned.
    If it announces one, the pause between two pages comes next: the loop
    goes on to the next page after it when [sleep_s] is not negative, and
    raises the [ValueError] of [time.sleep] when it is. *)
Theorem get_all_retry_then_success
    (E : Env) (path : string) (params : dict) (max_pages : Z) (sleep_s : Q)
    (n : nat) (all_items : list value) (page : Z) (st : state)
    (r1 r2 : response) (data : value) (l : list value) :
  page <= max_pages ->
  (forall v, Dict.get (page_key path params page) (_d (CACHE st)) = Some v ->
             v = VNone) ->
  transport E (requests_of (trace st)) (page_request E path params page)
  = Reply r1 ->
  ok r1 = false ->
  status_code r1 = 403 ->
  contains "rate limit"
    (lower (str_of_int (status_code r1) ++ ": " ++ str_take 200 (text r1))) = true ->
  transport E (requests_of (trace st) ++ [page_request E path params page])
    (page_request E path params page) = Reply r2 ->
  ok r2 = true ->
  json r2 = Some data ->
  page_items data = Val (Some l) ->
  exists st1,
    trace st1
    = (trace st ++ [EvRequest (page_request E path params page);
                    EvSleep (2 # 1);
                    EvRequest (page_request E path params page);
                    EvCacheSet (page_key path params page) data])%list
    /\ _get_all_loop (S n) E path params max_pages sleep_s all_items page st
       = (if contains rel_next (headers_get "Link" "" (headers r2))
          then match after_pause sleep_s st1 with
               | Some st2 =>
                   _get_all_loop n E path params max_pages sleep_s
                     (all_items ++ l) (page + 1) st2
               | None => (Raise NegativeSleep, st1)
               end
          else (Val [("data", VList (all_items ++ l))], st1))
    /\ (after_pause sleep_s st1 = None <-> (sleep_s < 0)%Q).
Proof.
  intros Hp Hmiss Ht1 Hok1 H403 Hrl Ht2 Hok2 Hj Hitems.
  destruct (PageFacts.fetch_page_retry_fresh E path params page st r1 r2 data
              Hmiss Ht1 Hok1 H403 Hrl Ht2 Hok2 Hj) as (c & Hf & _).
  eexists. split; [|split].
  2: { rewrite (RunFacts.loop_fetched _ _ _ _ _ _ _ _ _ _ _ data Hp Hf eq_refl).
       rewrite Hitems, RunFacts.link_of_fresh.
       destruct (contains rel_next _); reflexivity. }
  - reflexivity.
  - apply PagerFacts.after_pause_None.
Qed.

Lemma get_all_retry_then_success_witness :
  exists st1,
    trace st1
    = [EvRequest (page_request retry_ok_env "/search/issues" [] 1);
       EvSleep (2 # 1);
       EvRequest (page_request retry_ok_env "/search/issues" [] 1);
       EvCacheSet (page_key "/search/issues" [] 1) (VList [VInt 1; VInt 2])]
    /\ _get_all 1 retry_ok_env "/search/issues" None 5 0 initial_state
       = (Val [("data", VList [VInt 1; VInt 2])], st1).
Proof.
  destruct (get_all_retry_then_success retry_ok_env "/search/issues" [] 5 0 0 []
              1 initial_state rate_limit_response
              (json_response 200 [] (VList [VInt 1; VInt 2]))
              (VList [VInt 1; VInt 2]) [VInt 1; VInt 2]) as (st1 & Ht & Hl & _).
  - lia.
  - intros v H. discriminate H.
  - reflexivity.
  - reflexivity.
  - reflexivity.
  - vm_compute. reflexivity.
  - reflexivity.
  - reflexivity.
  - reflexivity.
  - reflexivity.
  - exists st1. split; [exact Ht | exact Hl].
Defined.

(** X8. The number of requests is bounded by the page budget. Whatever the
    remote side answers and whatever the cache holds, one call of [_get_all]
    sends at most two requests per page, so at most [2 * max_pages] in all;
    with a budget [max_pages <= 0] it returns the empty list at once and
    leaves the cache and the trace as they are. *)
Theorem get_all_request_bound
    (fuel : nat) (E : Env) (path : string) (params : option dict)
    (max_pages : Z) (sleep_s : Q) (st : state) :
  (exists evs,
     trace (snd (_get_all fuel E path params max_pages sleep_s st))
     = (trace st ++ evs)%list
     /\ (List.length (requests_of evs) <= 2 * Z.to_nat max_pages)%nat)
  /\ (max_pages <= 0 ->
      _get_all fuel E path params max_pages sleep_s st
      = (Val [("data", VList [])], st)).
Proof.
  split.
  - unfold _get_all.
    destruct (PageFacts.loop_count E path (or_empty params) max_pages sleep_s fuel
                [] 1 st) as (evs & Ht & Hc).
    exists evs. split; [exact Ht|].
    replace (max_pages - 1 + 1) with max_pages in Hc by lia. exact Hc.
  - intros Hm. unfold _get_all. apply PagerFacts.loop_past_ceiling. lia.
Qed.

Lemma get_all_request_bound_witness :
  (exists evs,
     trace (snd (_get_all 10 always_next_env "/search/issues" None 3 0
                   initial_state)) = evs
     /\ (List.length (requests_of evs) <= 6)%nat)
  /\ _get_all 10 always_next_env "/search/issues" None 0 0 initial_state
     = (Val [("data", VList [])], initial_state).
Proof.
  split.
  - destruct (get_all_request_bound 10 always_next_env "/search/issues" None 3 0
                initial_state) as [(evs & Ht & Hc) _].
    exists evs. split; [exact Ht | exact Hc].
  - apply (get_all_request_bound 10 always_next_env "/search/issues" None 0 0
             initial_state). lia.
Defined.

(** X9. A payload that is no page is cached before it is rejected. When the
    page is not answered by the cache and the response is [ok] with a body
    that is neither a list nor an object (a number, a string, a boolean,
    [null]), the iteration raises [AttributeError] after the request and the
    cache write of that body. If the body is not [null] and the cache has
    room for one entry, the body is then stored under the key of the page;
    and in any state whose cache holds it there, so right after and for as
    long as the entry is not evicted or overwritten, an iteration for the
    same page raises again straight from the cache, with no request. *)
Theorem get_all_scalar_payload_raises
    (E : Env) (path : string) (params : dict) (max_pages : Z) (sleep_s : Q)
    (n : nat) (all_items : list value) (page : Z) (st : state)
    (r : response) (data : value) :
  page <= max_pages ->
  (forall v, Dict.get (page_key path params page) (_d (CACHE st)) = Some v ->
             v = VNone) ->
  transport E (requests_of (trace st)) (page_request E path params page) = Reply r ->
  ok r = true ->
  json r = Some data ->
  (forall l, data <> VList l) ->
  (forall d, data <> VDict d) ->
  exists st1,
    _get_all_loop (S n) E path params max_pages sleep_s all_items page st
    = (Raise AttributeError, st1)
    /\ trace st1
       = (trace st ++ [EvRequest (page_request E path params page);
                       EvCacheSet (page_key path params page) data])%list
    /\ (data <> VNone ->
        1 <= maxsize (CACHE st) ->
        Dict.get (page_key path params page) (_d (CACHE st1)) = Some data
        /\ forall st2 m sleep_s' all_items',
             Dict.get (page_key path params page) (_d (CACHE st2)) = Some data ->
             exists st3,
               _get_all_loop (S m) E path params max_pages sleep_s' all_items'
                 page st2
               = (Raise AttributeError, st3)
               /\ trace st3 = trace st2).
Proof.
  intros Hp Hmiss Ht Hok Hj Hl Hd.
  assert (Hraise : page_items data = Raise AttributeError).
  { destruct data; try reflexivity; [now destruct (Hl l) | now destruct (Hd d)]. }
  pose proof (PageFacts.fetch_page_fresh E path params page st r data
                Hmiss Ht Hok Hj) as Hf.
  eexists. split; [|split].
  - rewrite (RunFacts.loop_fetched _ _ _ _ _ _ _ _ _ _ _ data Hp Hf eq_refl).
    now rewrite Hraise.
  - reflexivity.
  - intros Hnone Hm. split.
    { apply CacheFacts.get_stored. exact Hm. }
    intros st2 m sleep_s' all_items' Hg.
    assert (Hf2 : fetch_page E path params page st2
                  = (Val (inr (hit_result data)),
                     mkState (refreshed (CACHE st2) (page_key path params page) data)
                       (trace st2))).
    { unfold fetch_page, bind.
      rewrite (GetFacts._get_hit E path
                 (Some (Dict.merged params "page" (VInt page))) st2 data Hg Hnone).
      reflexivity. }
    eexists. split.
    + rewrite (RunFacts.loop_fetched _ _ _ _ _ _ _ _ _ _ _ data Hp Hf2 eq_refl).
      now rewrite Hraise.
    + reflexivity.
Qed.

Lemma get_all_scalar_payload_raises_witness :
  let E := constant_env (VStr "moved") in
  exists st1,
    _get_all 1 E "/search/issues" None 5 0 initial_state
    = (Raise AttributeError, st1)
    /\ trace st1
       = [EvRequest (page_request E "/search/issues" [] 1);
          EvCacheSet (page_key "/search/issues" [] 1) (VStr "moved")]
    /\ exists st2,
         _get_all 1 E "/search/issues" None 5 0 st1 = (Raise AttributeError, st2)
         /\ trace st2 = trace st1.
Proof.
  intros E.
  destruct (get_all_scalar_payload_raises E "/search/issues" [] 5 0 0 [] 1
              initial_state (json_response 200 [] (VStr "moved")) (VStr "moved"))
    as (st1 & H1 & Ht & Hagain).
  - lia.
  - intros v H. discriminate H.
  - reflexivity.
  - reflexivity.
  - reflexivity.
  - discriminate.
  - discriminate.
  - exists st1. split; [exact H1|]. split; [exact Ht|].
    destruct (Hagain ltac:(discriminate) ltac:(simpl; lia)) as [Hstored Hlater].
    apply (Hlater st1 0%nat 0%Q [] Hstored).
Defined.

(** X10. The two shapes of a result. Whenever [_get_all] returns, the
    dictionary is either the error dictionary [_get] builds for a response
    that is not [ok] (keys [error], [path], [ratelimit-remaining],
    [ratelimit-reset]) or exactly [{"data": items}]: a failure never carries
    items and a list never carries an error. *)
Theorem get_all_result_shape
    (fuel : nat) (E : Env) (path : string) (params : option dict)
    (max_pages : Z) (sleep_s : Q) (st st' : state) (res : dict) :
  _get_all fuel E path params max_pages sleep_s st = (Val res, st') ->
  (exists r, ok r = false /\ res = error_result path r)
  \/ (exists l, res = [("data", VList l)]).
Proof.
  intros H. unfold _get_all in H.
  destruct (Dict.mem "error" res) eqn:Herr.
  - left. exact (RunFacts.loop_failure_shape _ _ _ _ _ _ _ _ _ _ _ H Herr).
  - right.
    destruct (PageFacts.loop_success_shape _ _ _ _ _ _ _ _ _ _ _ H Herr) as (l & ->).
    now exists l.
Qed.

Lemma get_all_result_shape_witness :
  (exists r, ok r = false
             /\ error_result "/repos/o/r/issues" not_found_response
                = error_result "/repos/o/r/issues" r)
  \/ (exists l, error_result "/repos/o/r/issues" not_found_response
                = [("data", VList l)]).
Proof.
  apply (get_all_result_shape 5 not_found_env "/repos/o/r/issues" None 5 0
           initial_state
           (snd (_get_all 5 not_found_env "/repos/o/r/issues" None 5 0
                   initial_state))).
  reflexivity.
Defined.

(** X11. The [Link] header alone decides whether the loop goes on. When the
    page is not answered by the cache and the response is a payload with
    items, the iteration makes one request and one cache write and appends
    the items. When the [Link] header of the response does not contain
    [rel="next"], it returns the aggregated list, however many pages the
    budget still allows. When the header contains it, the pause between two
    pages comes next: the loop goes on to the next page after it when
    [sleep_s] is not negative, and raises the [ValueError] of [time.sleep],
    losing the items, when it is. *)
Theorem get_all_follows_link
    (E : Env) (path : string) (params : dict) (max_pages : Z) (sleep_s : Q)
    (n : nat) (all_items : list value) (page : Z) (st : state)
    (r : response) (data : value) (l : list value) :
  page <= max_pages ->
  (forall v, Dict.get (page_key path params page) (_d (CACHE st)) = Some v ->
             v = VNone) ->
  transport E (requests_of (trace st)) (page_request E path params page) = Reply r ->
  ok r = true ->
  json r = Some data ->
  page_items data = Val (Some l) ->
  exists st1,
    trace st1
    = (trace st ++ [EvRequest (page_request E path params page);
                    EvCacheSet (page_key path params page) data])%list
    /\ _get_all_loop (S n) E path params max_pages sleep_s all_items page st
       = (if contains rel_next (headers_get "Link" "" (headers r))
          then match after_pause sleep_s st1 with
               | Some st2 =>
                   _get_all_loop n E path params max_pages sleep_s
                     (all_items ++ l) (page + 1) st2
               | None => (Raise NegativeSleep, st1)
               end
          else (Val [("data", VList (all_items ++ l))], st1))
    /\ (after_pause sleep_s st1 = None <-> (sleep_s < 0)%Q).
Proof.
  intros Hp Hmiss Ht Hok Hj Hitems.
  pose proof (PageFacts.fetch_page_fresh E path params page st r data
                Hmiss Ht Hok Hj) as Hf.
  eexists. split; [|split].
  2: { rewrite (RunFacts.loop_fetched _ _ _ _ _ _ _ _ _ _ _ data Hp Hf eq_refl).
       rewrite Hitems, RunFacts.link_of_fresh.
       destruct (contains rel_next _); reflexivity. }
  - reflexivity.
  - apply PagerFacts.after_pause_None.
Qed.

Lemma get_all_follows_link_witness :
  let E := constant_env (VDict [("items", VList [VInt 7; VInt 8])]) in
  (exists st1,
     trace st1
     = [EvRequest (page_request E "/search/code" [] 1);
        EvCacheSet (page_key "/search/code" [] 1)
          (VDict [("items", VList [VInt 7; VInt 8])])]
     /\ _get_all 1 E "/search/code" None 3 0 initial_state
        = (Val [("data", VList [VInt 7; VInt 8])], st1))
  /\ (exists st1,
        trace st1
        = [EvRequest (page_request always_next_env "/search/issues" [] 1);
           EvCacheSet (page_key "/search/issues" [] 1) (VList [VInt 1])]
        /\ _get_all 2 always_next_env "/search/issues" None 3 (-1 # 1)
             initial_state
           = (Raise NegativeSleep, st1)).
Proof.
  intros E. split.
  - destruct (get_all_follows_link E "/search/code" [] 3 0 0 [] 1 initial_state
                (json_response 200 [] (VDict [("items", VList [VInt 7; VInt 8])]))
                (VDict [("items", VList [VInt 7; VInt 8])]) [VInt 7; VInt 8])
      as (st1 & Ht & Hl & _).
    + lia.
    + intros v H. discriminate H.
    + reflexivity.
    + reflexivity.
    + reflexivity.
    + reflexivity.
    + exists st1. split; [exact Ht | exact Hl].
  - destruct (get_all_follows_link always_next_env "/search/issues" [] 3 (-1 # 1)
                1 [] 1 initial_state
                (json_response 200 [("Link", next_link)] (VList [VInt 1]))
                (VList [VInt 1]) [VInt 1])
      as (st1 & Ht & Hl & _).
    + lia.
    + intros v H. discriminate H.
    + reflexivity.
    + reflexivity.
    + reflexivity.
    + reflexivity.
    + exists st1. split; [exact Ht | exact Hl].
Defined.

(** ** The session *)

(** X12. Connecting, then using. After [connect_repo(owner, repo)] a tool
    called with the arguments [o] and [r] works on the given argument where
    it is not empty and on the connected value otherwise; [connect_repo]
    validates nothing, so when the value chosen for the owner or for the
    repository is empty the call raises [ValueError]. *)
Theorem connect_then_use_repo (owner repo o r : string) :
  _use_repo (fst (connect_repo owner repo)) (str_or_none o) (str_or_none r)
  = (let o' := if String.eqb o "" then owner else o in
     let r' := if String.eqb r "" then repo else r in
     if String.eqb o' "" || String.eqb r' "" then inl no_repo_message
     else inr (o', r')).
Proof.
  unfold connect_repo, _use_repo, str_or_none, or_str. cbn [fst session_owner session_repo].
  destruct (String.eqb o "") eqn:Ho, (String.eqb r "") eqn:Hr;
    rewrite ?Ho, ?Hr; cbv zeta;
    destruct (String.eqb owner "") eqn:Ho', (String.eqb repo "") eqn:Hr';
    rewrite ?Ho', ?Hr'; reflexivity.
Qed.

Module ToolFacts.

Lemma use_repo_missing S owner repo :
  (missing owner && missing (session_owner S)
   || missing repo && missing (session_repo S)) = true ->
  _use_repo S owner repo = inl no_repo_message.
Proof.
  unfold _use_repo, or_str, missing.
  destruct owner as [o|], (session_owner S) as [so|], repo as [r|],
    (session_repo S) as [sr|]; simpl;
    repeat match goal with
           | |- context [String.eqb ?s ""] =>
               let E := fresh "E" in destruct (String.eqb s "") eqn:E; simpl
           end; try reflexivity; try discriminate;
    rewrite ?E, ?E0, ?E1, ?E2; simpl; try reflexivity; try discriminate.
Qed.

Lemma use_repo_found S owner repo :
  (missing owner && missing (session_owner S)
   || missing repo && missing (session_repo S)) = false ->
  exists o r, _use_repo S owner repo = inr (o, r)
              /\ o <> "" /\ r <> "".
Proof.
  unfold _use_repo, or_str, missing.
  destruct owner as [o|], (session_owner S) as [so|], repo as [r|],
    (session_repo S) as [sr|]; simpl;
    repeat match goal with
           | |- context [String.eqb ?s ""] =>
               let E := fresh "E" in destruct (String.eqb s "") eqn:E; simpl
           end; try discriminate; intros _;
    rewrite ?E, ?E0, ?E1, ?E2; simpl;
    eexists _, _; (split; [reflexivity|]);
    split; intros ->; discriminate.
Qed.

Lemma run_not_value_error {A} (m : M A) st msg st' :
  run m st <> (Fails (ValueError msg), st').
Proof.
  unfold run. destruct (m st) as [[a|e|] st1]; discriminate.
Qed.

End ToolFacts.

(** X13. The tools that need a repository. [list_issues] and
    [summarize_pr] raise the [ValueError] of [_use_repo] exactly when the
    owner, or the repository, is neither given (it is empty) nor stored in
    the session; they raise it before any request, leaving the cache and the
    trace as they are. *)
Theorem tools_need_a_repo
    (E : Env) (S : session) (st : state)
    (owner repo state labels assignee : string) (limit number : Z) :
  let no_repo :=
    missing (str_or_none owner) && missing (session_owner S)
    || missing (str_or_none repo) && missing (session_repo S) in
  (no_repo = true ->
   list_issues E S owner repo state labels assignee limit st
   = (Fails (ValueError no_repo_message), st)
   /\ summarize_pr E S number owner repo st
      = (Fails (ValueError no_repo_message), st))
  /\ (no_repo = false ->
      forall msg st',
        list_issues E S owner repo state labels assignee limit st
        <> (Fails (ValueError msg), st')
        /\ summarize_pr E S number owner repo st
           <> (Fails (ValueError msg), st')).
Proof.
  intros no_repo. split; intros H.
  - unfold list_issues, summarize_pr.
    rewrite (ToolFacts.use_repo_missing S _ _ H). split; reflexivity.
  - intros msg st'. unfold list_issues, summarize_pr.
    destruct (ToolFacts.use_repo_found S _ _ H) as (o & r & -> & _).
    split; apply ToolFacts.run_not_value_error.
Qed.

Lemma tools_need_a_repo_witness :
  (list_issues issues_env initial_session "" "" "open" "" "" 20 initial_state
   = (Fails (ValueError no_repo_message), initial_state)
   /\ summarize_pr issues_env initial_session 7 "" "" initial_state
      = (Fails (ValueError no_repo_message), initial_state))
  /\ (forall msg st',
        list_issues issues_env (fst (connect_repo "o" "r")) "" "" "open" "" "" 20
          initial_state <> (Fails (ValueError msg), st')
        /\ summarize_pr issues_env (fst (connect_repo "o" "r")) 7 "" ""
             initial_state <> (Fails (ValueError msg), st')).
Proof.
  split.
  - apply (tools_need_a_repo issues_env initial_session initial_state
             "" "" "open" "" "" 20 7). reflexivity.
  - apply (tools_need_a_repo issues_env (fst (connect_repo "o" "r"))
             initial_state "" "" "open" "" "" 20 7). reflexivity.
Defined.

(** ** The invariant of the cache *)

Module InvFacts.
Import DictFacts LRUFacts RunFacts.

Lemma length_remove_le k d :
  (List.length (Dict.remove k d) <= List.length d)%nat.
Proof.
  induction d as [|[k' v'] d IH]; simpl; [lia|].
  destruct (String.eqb k' k); simpl; lia.
Qed.

Lemma length_remove_found k d v :
  Dict.get k d = Some v ->
  (S (List.length (Dict.remove k d)) <= List.length d)%nat.
Proof.
  induction d as [|[k' v'] d IH]; simpl; [discriminate|].
  destruct (String.eqb k' k); simpl; intros H.
  - pose proof (length_remove_le k d). lia.
  - specialize (IH H). lia.
Qed.

Lemma inv_start : cache_inv (LRU_init 128).
Proof.
  repeat split; simpl; [unfold Dict.len; simpl; lia | constructor].
Qed.

Lemma inv_refreshed c k v :
  cache_inv c -> Dict.get k (_d c) = Some v -> cache_inv (refreshed c k v).
Proof.
  intros (Hm & Hl & Hnd) Hg. repeat split.
  - exact Hm.
  - unfold refreshed, Dict.len in *. simpl. rewrite length_app. simpl.
    pose proof (length_remove_found k (_d c) v Hg). lia.
  - now apply NoDup_refreshed.
Qed.

Lemma inv_stored c k v :
  cache_inv c -> cache_inv (mkLRU (maxsize c) (stored c k v)).
Proof.
  intros (Hm & Hl & Hnd).
  pose proof (NoDup_refreshed c k v Hnd) as Hnd2.
  unfold refreshed in Hnd2. cbn [_d] in Hnd2.
  repeat split; cbn [maxsize _d]; [exact Hm| |].
  - unfold stored. cbv zeta.
    destruct (Dict.len _ >? maxsize c) eqn:Hover.
    + unfold Dict.len in *. rewrite length_app in *. simpl in *.
      pose proof (length_remove_le k (_d c)).
      destruct (Dict.remove k (_d c) ++ [(k, v)])%list eqn:Hd; simpl; [lia|].
      apply (f_equal (@List.length _)) in Hd. rewrite length_app in Hd.
      simpl in Hd. lia.
    + rewrite Z.gtb_ltb in Hover. apply Z.ltb_ge in Hover. lia.
  - unfold stored. cbv zeta.
    destruct (Dict.len _ >? maxsize c); [|exact Hnd2].
    destruct (Dict.remove k (_d c) ++ [(k, v)])%list as [|e d']; [constructor|].
    simpl in *. now inversion Hnd2.
Qed.

Lemma keeps_ret {A} (a : A) : keeps (ret a).
Proof. intros st H. exact H. Qed.

Lemma keeps_lift {A} (r : result A) : keeps (lift r).
Proof. intros st H. exact H. Qed.

Lemma keeps_raise {A} e : keeps (raise (A := A) e).
Proof. intros st H. exact H. Qed.

Lemma keeps_out_of_fuel {A} : keeps (out_of_fuel (A := A)).
Proof. intros st H. exact H. Qed.

Lemma keeps_bind {A B} (m : M A) (k : A -> M B) :
  keeps m -> (forall a, keeps (k a)) -> keeps (bind m k).
Proof.
  intros Hm Hk st H. unfold bind. specialize (Hm st H).
  destruct (m st) as [[a|e|] st1]; cbn [snd] in *; [now apply Hk | exact Hm | exact Hm].
Qed.

Lemma keeps_sleep s : keeps (sleep s).
Proof. intros st H. unfold sleep. destruct (Qle_bool 0 s); exact H. Qed.

Lemma keeps_requests_get E req : keeps (requests_get E req).
Proof.
  intros st H. unfold requests_get.
  destruct (transport E _ req); exact H.
Qed.

Lemma keeps_cache_get key : keeps (cache_get key).
Proof.
  intros st H. unfold cache_get. rewrite LRU_get_eq.
  destruct (Dict.get key (_d (CACHE st))) as [v|] eqn:Hg; cbn [snd CACHE].
  - exact (inv_refreshed _ _ _ H Hg).
  - exact H.
Qed.

Lemma keeps_cache_set key data : keeps (cache_set key data).
Proof.
  intros st H. unfold cache_set. rewrite CacheFacts.LRU_set_stored.
  cbn [snd CACHE]. now apply inv_stored.
Qed.

Create HintDb keeps.
#[local] Hint Resolve keeps_ret keeps_lift keeps_raise keeps_out_of_fuel
  keeps_sleep keeps_requests_get keeps_cache_get keeps_cache_set : keeps.

Lemma keeps_fetch E path params key use_cache :
  keeps (fetch E path params key use_cache).
Proof.
  unfold fetch. apply keeps_bind; [auto with keeps|]. intros r.
  destruct (negb (ok r)); [auto with keeps|].
  apply keeps_bind; [destruct (json r); auto with keeps|]. intros data.
  apply keeps_bind; [destruct use_cache; auto with keeps|]. auto with keeps.
Qed.

Lemma keeps_get E path params use_cache : keeps (_get E path params use_cache).
Proof.
  unfold _get. destruct use_cache; [|apply keeps_fetch].
  apply keeps_bind; [auto with keeps|].
  intros hit. destruct hit; (apply keeps_fetch || auto with keeps).
Qed.

Lemma keeps_fetch_page E path params page : keeps (fetch_page E path params page).
Proof.
  unfold fetch_page. apply keeps_bind; [apply keeps_get|]. intros res.
  destruct (Dict.mem "error" res); [|auto with keeps].
  apply keeps_bind; [auto with keeps|]. intros err.
  destruct (is_rate_limit err); [|auto with keeps].
  apply keeps_bind; [auto with keeps|]. intros _.
  apply keeps_bind; [apply keeps_get|]. intros res2.
  destruct (Dict.mem "error" res2); auto with keeps.
Qed.

Lemma keeps_loop E path params max_pages sleep_s fuel :
  forall all_items page,
    keeps (_get_all_loop fuel E path params max_pages sleep_s all_items page).
Proof.
  induction fuel as [|fuel IH]; intros all_items page; simpl;
    destruct (page <=? max_pages); auto with keeps.
  apply keeps_bind; [apply keeps_fetch_page|]. intros [res|res]; [auto with keeps|].
  apply keeps_bind; [auto with keeps|]. intros data.
  apply keeps_bind; [auto with keeps|]. intros [l|]; [|auto with keeps].
  apply keeps_bind; [auto with keeps|]. intros link.
  destruct (negb (contains rel_next link)); [auto with keeps|].
  apply keeps_bind; [destruct (negb (Qeq_bool sleep_s 0)); auto with keeps|].
  intros _. apply IH.
Qed.

Lemma keeps_get_all fuel E path params max_pages sleep_s :
  keeps (_get_all fuel E path params max_pages sleep_s).
Proof. apply keeps_loop. Qed.

Lemma keeps_run {A} (m : M A) st :
  keeps m -> cache_inv (CACHE st) -> cache_inv (CACHE (snd (run m st))).
Proof.
  intros Hm H. specialize (Hm st H). unfold run.
  destruct (m st) as [[a|e|] st1]; exact Hm.
Qed.

Lemma keeps_list_issues_in E o r state labels assignee limit :
  keeps (list_issues_in E o r state labels assignee limit).
Proof.
  unfold list_issues_in. apply keeps_bind; [apply keeps_get_all|]. intros res.
  destruct (Dict.mem "error" res); [auto with keeps|].
  apply keeps_bind; auto with keeps.
Qed.

Lemma keeps_summarize_pr_in E o r number : keeps (summarize_pr_in E o r number).
Proof.
  unfold summarize_pr_in. apply keeps_bind; [apply keeps_get|]. intros pr.
  destruct (Dict.mem "error" pr); [auto with keeps|].
  apply keeps_bind; [apply keeps_get|]. intros files.
  apply keeps_bind; [auto with keeps|]. intros p.
  apply keeps_bind; auto with keeps.
Qed.

Lemma keeps_search_in E path entry q limit : keeps (search_in E path entry q limit).
Proof.
  unfold search_in. apply keeps_bind; [apply keeps_get_all|]. intros res.
  destruct (Dict.mem "error" res); [auto with keeps|].
  apply keeps_bind; auto with keeps.
Qed.

Lemma reachable_inv E st : reachable E st -> cache_inv (CACHE st).
Proof.
  induction 1 as [|path params use_cache st _ IH
                  |fuel path params max_pages sleep_s st _ IH
                  |S owner repo state labels assignee limit st _ IH
                  |S number owner repo st _ IH
                  |S query type limit owner repo st _ IH].
  - exact inv_start.
  - now apply keeps_get.
  - now apply keeps_get_all.
  - unfold list_issues. destruct (_use_repo S _ _) as [msg|[o r]]; [exact IH|].
    apply keeps_run; [apply keeps_list_issues_in | exact IH].
  - unfold summarize_pr. destruct (_use_repo S _ _) as [msg|[o r]]; [exact IH|].
    apply keeps_run; [apply keeps_summarize_pr_in | exact IH].
  - unfold search.
    destruct (String.eqb (lower type) "issues" || String.eqb (lower type) "prs").
    { destruct (in_repo S owner repo _) as [msg|q]; [exact IH|].
      apply keeps_run; [apply keeps_search_in | exact IH]. }
    destruct (String.eqb (lower type) "code"); [|exact IH].
    destruct (in_repo S owner repo _) as [msg|q]; [exact IH|].
    apply keeps_run; [apply keeps_search_in | exact IH].
Qed.

End InvFacts.

(** X14. What [health_check] reports. In every state the server can reach,
    by any calls of [_get], [_get_all] and the tools with any arguments and
    any answers of the remote side, the keys of the cache are distinct and
    [cached_keys] is their number, from 0 to 128; [status] is [ok] exactly
    when there is a token, and then [has_token] is true. *)
Theorem health_check_report (E : Env) (st : state) :
  reachable E st ->
  exists n,
    Dict.get "cached_keys" (health_check E st) = Some (VInt n)
    /\ 0 <= n <= 128
    /\ n = Z.of_nat (List.length (Dict.keys (_d (CACHE st))))
    /\ NoDup (Dict.keys (_d (CACHE st)))
    /\ Dict.get "has_token" (health_check E st)
       = Some (VBool (negb (String.eqb (GITHUB_TOKEN E) "")))
    /\ (Dict.get "status" (health_check E st) = Some (VStr "ok")
        <-> GITHUB_TOKEN E <> "").
Proof.
  intros Hr. destruct (InvFacts.reachable_inv E st Hr) as (_ & Hl & Hnd).
  exists (Dict.len (_d (CACHE st))). split; [reflexivity|].
  split; [unfold Dict.len in *; lia|].
  split; [unfold Dict.len, Dict.keys; now rewrite length_map|].
  split; [exact Hnd|]. split; [reflexivity|].
  simpl. destruct (String.eqb_spec (GITHUB_TOKEN E) "") as [->|Hne]; split.
  - discriminate.
  - congruence.
  - intros _. exact Hne.
  - reflexivity.
Qed.

Lemma health_check_report_witness :
  exists n,
    Dict.get "cached_keys"
      (health_check always_next_env
         (snd (_get_all 5 always_next_env "/search/issues" None 3 0 initial_state)))
    = Some (VInt n)
    /\ 0 <= n <= 128.
Proof.
  destruct (health_check_report always_next_env
              (snd (_get_all 5 always_next_env "/search/issues" None 3 0
                      initial_state)))
    as (n & Hn & Hb & _).
  - apply reach_get_all, reach_start.
  - exists n. split; [exact Hn | exact Hb].
Defined.

(** ** The tools: [list_issues] *)

Module ShapeFacts.

Lemma map_result_length {A B} (f : A -> result B) l ys :
  map_result f l = Val ys -> List.length ys = List.length l.
Proof.
  revert ys. induction l as [|x l IH]; simpl; intros ys H.
  - now injection H as <-.
  - destruct (f x) as [y| |]; try discriminate. simpl in H.
    destruct (map_result f l) as [ys'| |]; try discriminate. simpl in H.
    injection H as <-. simpl. now rewrite (IH ys').
Qed.

Lemma map_result_Forall {A B} (f : A -> result B) (P : B -> Prop) l ys :
  (forall x y, f x = Val y -> P y) ->
  map_result f l = Val ys -> Forall P ys.
Proof.
  intros Hf. revert ys. induction l as [|x l IH]; simpl; intros ys H.
  - injection H as <-. constructor.
  - destruct (f x) as [y| |] eqn:Hx; try discriminate. simpl in H.
    destruct (map_result f l) as [ys'| |]; try discriminate. simpl in H.
    injection H as <-. constructor; [exact (Hf x y Hx) | now apply IH].
Qed.

Lemma filter_result_no_pull_request all items :
  filter_result (fun i => b <~ str_in "pull_request" i ;; Val (negb b)) all
  = Val items ->
  items = filter no_pull_request all.
Proof.
  revert items. induction all as [|i all IH]; simpl; intros items H.
  - now injection H as <-.
  - unfold no_pull_request.
    destruct (str_in "pull_request" i) as [b| |]; try discriminate. simpl in H.
    destruct (filter_result _ all) as [xs| |]; try discriminate. simpl in H.
    injection H as <-. rewrite (IH xs eq_refl). now destruct b.
Qed.

Lemma slice_to_length {A} (limit : Z) (l : list A) :
  0 <= limit ->
  Z.of_nat (List.length (slice_to limit l))
  = Z.min limit (Z.of_nat (List.length l)).
Proof.
  intros H. unfold slice_to. apply Z.leb_le in H. rewrite H.
  rewrite length_firstn. lia.
Qed.

Lemma slice_to_le {A} (limit : Z) (l : list A) :
  (List.length (slice_to limit l) <= List.length l)%nat.
Proof.
  unfold slice_to. destruct (0 <=? limit); rewrite length_firstn; lia.
Qed.

Lemma issue_entry_keys i e :
  issue_entry i = Val e -> exists d, e = VDict d /\ Dict.keys d = issue_keys.
Proof.
  unfold issue_entry. destruct i; simpl; try discriminate.
  destruct (iter _) as [ls| |]; simpl; try discriminate.
  destruct (map_result _ ls) as [names| |]; simpl; try discriminate.
  destruct (py_get _ "login" VNone) as [login| |]; simpl; try discriminate.
  intros H. injection H as <-. eexists. split; reflexivity.
Qed.

(** The paginator of the tools never runs out of steps. *)
Lemma get_all_finishes E path params pages st :
  0 <= pages ->
  fst (_get_all (Z.to_nat pages) E path params pages 0 st) <> OutOfFuel.
Proof.
  intros Hp. unfold _get_all.
  destruct (PagerFacts.loop_effects E path (or_empty params) pages 0
              (Z.to_nat pages) [] 1 st) as (out & st' & evs & Hl & Ho & _).
  - lia.
  - rewrite Hl. exact Ho.
Qed.

End ShapeFacts.

(** X15. The output of [list_issues]. When [list_issues] returns, the
    result is either the error dictionary of a failed request, or, for the
    list [all] that [_get_all] aggregated from at most 5 pages, the
    dictionary [{count, issues, truncated}] where the issues come from the
    items of [all] without the key [pull_request], cut at [limit]: [count]
    is the number of issues, it is the smaller of [limit] and the number of
    such items when [limit >= 0], [truncated] tells that items were cut, and
    every issue has exactly the seven keys of the normalized form. *)
Theorem list_issues_output
    (E : Env) (S : session) (st st' : state)
    (owner repo state labels assignee : string) (limit : Z) (res : dict) :
  list_issues E S owner repo state labels assignee limit st = (Done res, st') ->
  (exists path r, ok r = false /\ res = error_result path r)
  \/ (exists path all st1 issues,
        _get_all 5 E path (Some (issues_params state labels assignee limit)) 5 0 st
        = (Val [("data", VList all)], st1)
        /\ res = [("count", VInt (Z.of_nat (List.length issues)));
                  ("issues", VList issues);
                  ("truncated",
                    VBool (List.length (slice_to limit (filter no_pull_request all))
                           <? List.length (filter no_pull_request all))%nat)]
        /\ List.length issues
           = List.length (slice_to limit (filter no_pull_request all))
        /\ (0 <= limit ->
            Z.of_nat (List.length issues)
            = Z.min limit (Z.of_nat (List.length (filter no_pull_request all))))
        /\ Forall (fun i => exists d, i = VDict d /\ Dict.keys d = issue_keys)
             issues).
Proof.
  unfold list_issues.
  destruct (_use_repo S _ _) as [msg|[o r]]; [discriminate|].
  unfold run, list_issues_in, bind.
  set (path := "/repos/" ++ o ++ "/" ++ r ++ "/issues").
  destruct (_get_all 5 E path _ 5 0 st) as [[res0|e|] st1] eqn:Hall;
    try discriminate.
  destruct (Dict.mem "error" res0) eqn:Herr.
  - unfold ret. intros H. injection H as <- <-. left. exists path.
    exact (RunFacts.loop_failure_shape _ _ _ _ _ _ _ _ _ _ _ Hall Herr).
  - destruct (PageFacts.loop_success_shape _ _ _ _ _ _ _ _ _ _ _ Hall Herr)
      as (all & ->).
    simpl app in *. unfold lift. cbn [getitem Dict.get String.eqb Ascii.eqb Bool.eqb].
    unfold issues_output. cbn [iter iterate rbind].
    destruct (filter_result _ all) as [items| |] eqn:Hfilter; try discriminate.
    apply ShapeFacts.filter_result_no_pull_request in Hfilter. subst items.
    cbn [rbind].
    destruct (map_result issue_entry _) as [issues| |] eqn:Hmap; try discriminate.
    cbn [rbind]. intros H. injection H as <- <-. right.
    exists path, all, st1, issues.
    pose proof (ShapeFacts.map_result_length _ _ _ Hmap) as Hlen.
    split; [exact Hall|]. split; [now rewrite Hlen|]. split; [exact Hlen|]. split.
    + intros Hl. rewrite Hlen. now apply ShapeFacts.slice_to_length.
    + exact (ShapeFacts.map_result_Forall _ _ _ _ ShapeFacts.issue_entry_keys Hmap).
Qed.

Lemma list_issues_output_witness :
  exists res st',
    list_issues issues_env (fst (connect_repo "octo" "demo")) "" "" "open" "" "" 1
      initial_state = (Done res, st')
    /\ Dict.get "count" res = Some (VInt 1)
    /\ Dict.get "truncated" res = Some (VBool true)
    /\ ((exists path r, ok r = false /\ res = error_result path r)
        \/ (exists path all st1 issues,
              _get_all 5 issues_env path (Some (issues_params "open" "" "" 1)) 5 0
                initial_state = (Val [("data", VList all)], st1)
              /\ res = [("count", VInt (Z.of_nat (List.length issues)));
                        ("issues", VList issues);
                        ("truncated",
                          VBool (List.length
                                   (slice_to 1 (filter no_pull_request all))
                                 <? List.length (filter no_pull_request all))%nat)]
              /\ List.length issues
                 = List.length (slice_to 1 (filter no_pull_request all))
              /\ (0 <= 1 ->
                  Z.of_nat (List.length issues)
                  = Z.min 1 (Z.of_nat (List.length (filter no_pull_request all))))
              /\ Forall (fun i => exists d, i = VDict d /\ Dict.keys d = issue_keys)
                   issues)).
Proof.
  eexists _, _. split; [vm_compute; reflexivity|].
  split; [reflexivity|]. split; [reflexivity|].
  apply (list_issues_output issues_env (fst (connect_repo "octo" "demo"))
           initial_state
           (snd (list_issues issues_env (fst (connect_repo "octo" "demo")) ""
                   "" "open" "" "" 1 initial_state))
           "" "" "open" "" "" 1).
  vm_compute. reflexivity.
Defined.

(** *** The requests of the paginated tools *)

Module RequestFacts.
Import DictFacts.

(** The shaping code contains no loop that can run out of steps. *)
Lemma rbind_finishes {A B} (r : result A) (k : A -> result B) :
  r <> OutOfFuel -> (forall a, k a <> OutOfFuel) -> rbind r k <> OutOfFuel.
Proof.
  intros Hr Hk. destruct r as [a|e|]; simpl; [apply Hk | discriminate | now destruct Hr].
Qed.

Lemma map_result_finishes {A B} (f : A -> result B) l :
  (forall x, f x <> OutOfFuel) -> map_result f l <> OutOfFuel.
Proof.
  intros Hf. induction l as [|x l IH]; simpl; [discriminate|].
  apply rbind_finishes; [apply Hf|]. intros y.
  apply rbind_finishes; [exact IH|]. discriminate.
Qed.

Lemma filter_result_finishes {A} (keep : A -> result bool) l :
  (forall x, keep x <> OutOfFuel) -> filter_result keep l <> OutOfFuel.
Proof.
  intros Hf. induction l as [|x l IH]; simpl; [discriminate|].
  apply rbind_finishes; [apply Hf|]. intros y.
  apply rbind_finishes; [exact IH|]. discriminate.
Qed.

Lemma any_result_finishes {A} (p : A -> result bool) l :
  (forall x, p x <> OutOfFuel) -> any_result p l <> OutOfFuel.
Proof.
  intros Hf. induction l as [|x l IH]; simpl; [discriminate|].
  apply rbind_finishes; [apply Hf|]. intros [|]; [discriminate | exact IH].
Qed.

Lemma py_get_finishes v k d : py_get v k d <> OutOfFuel.
Proof. destruct v; discriminate. Qed.

Lemma py_getitem_finishes v k : py_getitem v k <> OutOfFuel.
Proof. destruct v; simpl; try discriminate. destruct (Dict.get k d); discriminate. Qed.

Lemma iter_finishes v : iter v <> OutOfFuel.
Proof. destruct v; discriminate. Qed.

Lemma str_in_finishes k v : str_in k v <> OutOfFuel.
Proof. destruct v; discriminate. Qed.

Lemma getitem_finishes k d : getitem k d <> OutOfFuel.
Proof. unfold getitem. destruct (Dict.get k d); discriminate. Qed.

Lemma sum_above_finishes a b bound : sum_above a b bound <> OutOfFuel.
Proof. unfold sum_above. destruct (number_of a), (number_of b); discriminate. Qed.

Lemma is_config_file_finishes fn : is_config_file fn <> OutOfFuel.
Proof. destruct fn; discriminate. Qed.

Ltac finishes :=
  repeat first
    [ apply rbind_finishes; [|intros ?]
    | apply py_get_finishes | apply py_getitem_finishes | apply iter_finishes
    | apply str_in_finishes | apply getitem_finishes
    | apply sum_above_finishes | apply is_config_file_finishes
    | apply map_result_finishes; intros ?
    | apply filter_result_finishes; intros ?
    | apply any_result_finishes; intros ?
    | discriminate ].

Lemma issue_entry_finishes i : issue_entry i <> OutOfFuel.
Proof. unfold issue_entry. finishes. Qed.

Lemma issues_output_finishes data limit : issues_output data limit <> OutOfFuel.
Proof. unfold issues_output. finishes. Qed.

Lemma found_issue_finishes i : found_issue i <> OutOfFuel.
Proof. unfold found_issue. finishes. Qed.

Lemma found_code_finishes i : found_code i <> OutOfFuel.
Proof. unfold found_code. finishes. Qed.

Lemma search_output_finishes entry data q limit :
  (forall i, entry i <> OutOfFuel) -> search_output entry data q limit <> OutOfFuel.
Proof. intros H. unfold search_output. finishes. apply H. Qed.

Lemma pr_summary_finishes p files : pr_summary p files <> OutOfFuel.
Proof.
  unfold pr_summary. finishes.
Qed.

Lemma per_page_bounds limit : 1 <= per_page_of limit <= 100.
Proof. unfold per_page_of. lia. Qed.

Lemma requests_of_page_events E path params lo hi evs :
  Forall (page_event E path params lo hi) evs ->
  Forall (fun req => exists q, lo <= q <= hi /\ req = page_request E path params q)
    (requests_of evs).
Proof.
  induction 1 as [|e evs He _ IH]; simpl; [constructor|].
  destruct e; try exact IH. constructor; [exact He | exact IH].
Qed.

(** One run of the paginator as the tools call it: it finishes, and every
    request is for a page of [path] from 1 to [pages] and carries the
    parameters of the tool. *)
Lemma tool_pages E path params pages st :
  0 <= pages ->
  exists out st' evs,
    _get_all (Z.to_nat pages) E path (Some params) pages 0 st = (out, st')
    /\ out <> OutOfFuel
    /\ trace st' = (trace st ++ evs)%list
    /\ (List.length (requests_of evs) <= 2 * Z.to_nat pages)%nat
    /\ Forall (fun req =>
                 url req = BASE E ++ path
                 /\ timeout req = 12
                 /\ (exists q, Dict.get "page" (req_params req) = Some (VInt q)
                               /\ 1 <= q <= pages)
                 /\ forall k, k <> "page" ->
                              Dict.get k (req_params req) = Dict.get k params)
         (requests_of evs).
Proof.
  intros Hp. unfold _get_all. cbn [or_empty].
  destruct (PagerFacts.loop_effects E path params pages 0 (Z.to_nat pages) [] 1 st)
    as (out & st' & evs & Hl & Ho & Ht & Hev); [lia|].
  destruct (PageFacts.loop_count E path params pages 0 (Z.to_nat pages) [] 1 st)
    as (evs' & Ht' & Hc).
  rewrite Hl in Ht'. cbn [snd] in Ht'. rewrite Ht in Ht'.
  apply app_inv_head in Ht'. subst evs'.
  exists out, st', evs. repeat split; try assumption.
  - replace (pages - 1 + 1) with pages in Hc by lia. exact Hc.
  - apply requests_of_page_events in Hev.
    eapply Forall_impl; [|exact Hev]. intros req (q & Hq & ->).
    unfold page_request, the_request. cbn [url timeout req_params].
    repeat split.
    + exists q. split; [apply get_set_same | exact Hq].
    + intros k Hk. apply get_set_other. congruence.
Qed.

End RequestFacts.

(** X16. The requests of [list_issues]. A call of [list_issues] always
    ends (with a result or an exception). Without a repository it sends
    nothing. Otherwise it sends at most 10 requests, each one a GET of
    [BASE + "/repos/<owner>/<repo>/issues"] with the timeout 12, a [page]
    from 1 to 5, a [per_page] from 1 to 100 whatever [limit] is, the given
    [state], and [labels] and [assignee] exactly when they are not empty. *)
Theorem list_issues_requests
    (E : Env) (S : session) (st : state)
    (owner repo state labels assignee : string) (limit : Z) :
  fst (list_issues E S owner repo state labels assignee limit st) <> Unfinished
  /\ exists evs,
       trace (snd (list_issues E S owner repo state labels assignee limit st))
       = (trace st ++ evs)%list
       /\ (List.length (requests_of evs) <= 10)%nat
       /\ match _use_repo S (str_or_none owner) (str_or_none repo) with
          | inl _ => evs = []
          | inr (o, r) =>
              Forall (fun req =>
                        tool_request E ("/repos/" ++ o ++ "/" ++ r ++ "/issues") 5 req
                        /\ Dict.get "state" (req_params req) = Some (VStr state)
                        /\ Dict.get "labels" (req_params req)
                           = (if String.eqb labels "" then None
                              else Some (VStr labels))
                        /\ Dict.get "assignee" (req_params req)
                           = (if String.eqb assignee "" then None
                              else Some (VStr assignee)))
                (requests_of evs)
          end.
Proof.
  unfold list_issues.
  destruct (_use_repo S _ _) as [msg|[o r]].
  { split; [discriminate|]. exists []. rewrite app_nil_r.
    repeat split. simpl. lia. }
  set (path := "/repos/" ++ o ++ "/" ++ r ++ "/issues").
  destruct (RequestFacts.tool_pages E path
              (issues_params state labels assignee limit) 5 st)
    as (out & st' & evs & Hall & Ho & Ht & Hc & Hreq); [lia|].
  change (Z.to_nat 5) with 5%nat in Hall.
  unfold run, list_issues_in, bind. fold path. rewrite Hall.
  assert (Hevs : (List.length (requests_of evs) <= 10)%nat
                 /\ Forall (fun req =>
                        tool_request E path 5 req
                        /\ Dict.get "state" (req_params req) = Some (VStr state)
                        /\ Dict.get "labels" (req_params req)
                           = (if String.eqb labels "" then None
                              else Some (VStr labels))
                        /\ Dict.get "assignee" (req_params req)
                           = (if String.eqb assignee "" then None
                              else Some (VStr assignee)))
                      (requests_of evs)).
  { split; [simpl in Hc; lia|].
    eapply Forall_impl; [|exact Hreq].
    intros req (Hu & Hto & Hpage & Hother).
    repeat split; try assumption.
    - exists (per_page_of limit). split; [|apply RequestFacts.per_page_bounds].
      rewrite Hother by discriminate. unfold issues_params.
      destruct (String.eqb labels ""), (String.eqb assignee ""); reflexivity.
    - rewrite Hother by discriminate. unfold issues_params.
      destruct (String.eqb labels ""), (String.eqb assignee ""); reflexivity.
    - rewrite Hother by discriminate. unfold issues_params.
      destruct (String.eqb labels ""), (String.eqb assignee ""); reflexivity.
    - rewrite Hother by discriminate. unfold issues_params.
      destruct (String.eqb labels ""), (String.eqb assignee ""); reflexivity. }
  destruct out as [res|e|]; [| |contradiction].
  2: { split; [discriminate|]. exists evs. split; [exact Ht | exact Hevs]. }
  destruct (Dict.mem "error" res).
  { split; [discriminate|]. exists evs. split; [exact Ht | exact Hevs]. }
  unfold lift, ret.
  destruct (getitem "data" res) as [data|e|] eqn:Hd.
  3: { now destruct (RequestFacts.getitem_finishes "data" res). }
  2: { split; [discriminate|]. exists evs. split; [exact Ht | exact Hevs]. }
  pose proof (RequestFacts.issues_output_finishes data limit) as Hfin.
  destruct (issues_output data limit) as [res'|e|]; [| |contradiction];
    (split; [discriminate|]; exists evs; split; [exact Ht | exact Hevs]).
Qed.

(** ** The tools: [search] *)

Module SearchFacts.

Lemma contains_spec sub s :
  contains sub s = true <-> exists a b, s = a ++ sub ++ b.
Proof.
  induction s as [|c s IH].
  - change (contains sub "") with (String.prefix sub "" || false).
    rewrite orb_false_r. split.
    + intros H. apply StrFacts.prefix_app in H. destruct H as (r & Hr).
      exists "", r. exact Hr.
    + intros (a & b & H). destruct a; simpl in H.
      * apply StrFacts.prefix_app. now exists b.
      * discriminate.
  - change (contains sub (String c s))
      with (String.prefix sub (String c s) || contains sub s).
    rewrite orb_true_iff, IH. split.
    + intros [H|(a & b & ->)].
      * apply StrFacts.prefix_app in H. destruct H as (r & Hr).
        exists "", r. exact Hr.
      * exists (String c a), b. reflexivity.
    + intros (a & b & H). destruct a as [|c' a]; simpl in H.
      * left. apply StrFacts.prefix_app. now exists b.
      * injection H as -> ->. right. now exists a, b.
Qed.

Lemma contains_app_l sub s t :
  contains sub s = true -> contains sub (s ++ t) = true.
Proof.
  rewrite !contains_spec. intros (a & b & ->). exists a, (b ++ t).
  now rewrite !StrFacts.append_assoc.
Qed.

Lemma contains_app_r sub s t :
  contains sub t = true -> contains sub (s ++ t) = true.
Proof.
  rewrite !contains_spec. intros (a & b & ->). exists (s ++ a), b.
  now rewrite !StrFacts.append_assoc.
Qed.

Lemma prefix_refl_app s t : String.prefix s (s ++ t) = true.
Proof. apply StrFacts.prefix_app. now exists t. Qed.

Lemma prefix_app_l p s t :
  String.prefix p s = true -> String.prefix p (s ++ t) = true.
Proof.
  rewrite !StrFacts.prefix_app. intros (r & ->). exists (r ++ t).
  now rewrite StrFacts.append_assoc.
Qed.

(** The query after the qualifier for issues and pull requests. *)
Lemma qualified_spec kind q :
  String.prefix q (qualified kind q) = true
  /\ (contains "is:issue" (qualified kind q)
      || contains "is:pr" (qualified kind q)) = true
  /\ (kind = "prs" -> contains "is:pr" (qualified kind q) = true).
Proof.
  unfold qualified. destruct (String.eqb_spec kind "prs") as [->|Hne].
  - assert (H : contains "is:pr" (q ++ " is:pr") = true)
      by (apply contains_app_r; reflexivity).
    rewrite H, orb_true_r. split; [apply prefix_refl_app|]. split; trivial.
  - destruct (contains "is:issue" q) eqn:Hi; simpl.
    + rewrite Hi. split; [|split; [reflexivity | contradiction]].
      pose proof (prefix_refl_app q "") as H. now rewrite StrFacts.append_nil_r in H.
    + destruct (contains "is:pr" q) eqn:Hp; simpl.
      * rewrite Hi, Hp. split; [|split; [reflexivity | contradiction]].
        pose proof (prefix_refl_app q "") as H.
        now rewrite StrFacts.append_nil_r in H.
      * assert (H : contains "is:issue" (q ++ " is:issue") = true)
          by (apply contains_app_r; reflexivity).
        rewrite H. split; [apply prefix_refl_app|]. split; [reflexivity | contradiction].
Qed.

(** The query after the restriction to a repository. *)
Lemma in_repo_spec S owner repo q q' :
  in_repo S owner repo q = inr q' ->
  String.prefix q q' = true
  /\ (forall sub, contains sub q = true -> contains sub q' = true)
  /\ (owner = "" /\ repo = "" /\ q' = q
      \/ exists o r, _use_repo S (str_or_none owner) (str_or_none repo) = inr (o, r)
                     /\ q' = q ++ " repo:" ++ o ++ "/" ++ r).
Proof.
  unfold in_repo.
  destruct (String.eqb_spec owner "") as [->|Ho];
    [destruct (String.eqb_spec repo "") as [->|Hr]|]; simpl.
  - intros H. injection H as <-. split; [|split; [trivial | now left]].
    pose proof (prefix_refl_app q "") as H. now rewrite StrFacts.append_nil_r in H.
  - destruct (_use_repo S _ _) as [msg|[o r]]; [discriminate|].
    intros H. injection H as <-. split; [apply prefix_refl_app|].
    split; [intros sub; apply contains_app_l|]. right. now exists o, r.
  - destruct (_use_repo S _ _) as [msg|[o r]]; [discriminate|].
    intros H. injection H as <-. split; [apply prefix_refl_app|].
    split; [intros sub; apply contains_app_l|]. right. now exists o, r.
Qed.

(** One search, once the query is built. *)
Lemma search_in_requests E path entry q limit st :
  (forall i, entry i <> OutOfFuel) ->
  fst (run (search_in E path entry q limit) st) <> Unfinished
  /\ exists evs,
       trace (snd (run (search_in E path entry q limit) st)) = (trace st ++ evs)%list
       /\ (List.length (requests_of evs) <= 6)%nat
       /\ Forall (fun req => tool_request E path 3 req
                             /\ Dict.get "q" (req_params req) = Some (VStr q))
            (requests_of evs).
Proof.
  intros Hentry.
  destruct (RequestFacts.tool_pages E path (search_params q limit) 3 st)
    as (out & st' & evs & Hall & Ho & Ht & Hc & Hreq); [lia|].
  change (Z.to_nat 3) with 3%nat in Hall.
  unfold run, search_in, bind. rewrite Hall.
  assert (Hevs : (List.length (requests_of evs) <= 6)%nat
                 /\ Forall (fun req => tool_request E path 3 req
                                       /\ Dict.get "q" (req_params req)
                                          = Some (VStr q))
                      (requests_of evs)).
  { split; [simpl in Hc; lia|].
    eapply Forall_impl; [|exact Hreq].
    intros req (Hu & Hto & Hpage & Hother).
    repeat split; try assumption.
    - exists (per_page_of limit). split; [|apply RequestFacts.per_page_bounds].
      now rewrite Hother by discriminate.
    - now rewrite Hother by discriminate. }
  destruct out as [res|e|]; [| |contradiction].
  2: { split; [discriminate|]. exists evs. split; [exact Ht | exact Hevs]. }
  destruct (Dict.mem "error" res).
  { split; [discriminate|]. exists evs. split; [exact Ht | exact Hevs]. }
  unfold lift, ret.
  destruct (getitem "data" res) as [data|e|] eqn:Hd.
  3: { now destruct (RequestFacts.getitem_finishes "data" res). }
  2: { split; [discriminate|]. exists evs. split; [exact Ht | exact Hevs]. }
  pose proof (RequestFacts.search_output_finishes entry data q limit Hentry) as Hfin.
  destruct (search_output entry data q limit) as [res'|e|]; [| |contradiction];
    (split; [discriminate|]; exists evs; split; [exact Ht | exact Hevs]).
Qed.

End SearchFacts.

(** X17. The requests of [search]. A call of [search] always ends. It
    sends at most 6 requests, each one for a page from 1 to 3 with a
    [per_page] from 1 to 100 and a query [q] that starts with the stripped
    query of the caller. For the types [issues] and [prs], in any
    capitalisation, the requests go to [/search/issues] and [q] contains
    [is:issue] or [is:pr], and [is:pr] for [prs]; for [code] they go to
    [/search/code]; for any other type nothing is sent. *)
Theorem search_requests
    (E : Env) (S : session) (st : state) (query type : string) (limit : Z)
    (owner repo : string) :
  fst (search E S query type limit owner repo st) <> Unfinished
  /\ exists evs,
       trace (snd (search E S query type limit owner repo st))
       = (trace st ++ evs)%list
       /\ (List.length (requests_of evs) <= 6)%nat
       /\ Forall
            (fun req =>
               exists q,
                 Dict.get "q" (req_params req) = Some (VStr q)
                 /\ String.prefix (strip query) q = true
                 /\ ((tool_request E "/search/issues" 3 req
                      /\ (lower type = "issues" \/ lower type = "prs")
                      /\ (contains "is:issue" q || contains "is:pr" q) = true
                      /\ (lower type = "prs" -> contains "is:pr" q = true))
                     \/ (tool_request E "/search/code" 3 req
                         /\ lower type = "code")))
            (requests_of evs).
Proof.
  assert (Hnone : forall out : outcome dict,
            out <> Unfinished ->
            fst (out, st) <> Unfinished
            /\ exists evs,
                 trace (snd (out, st)) = (trace st ++ evs)%list
                 /\ (List.length (requests_of evs) <= 6)%nat
                 /\ Forall
                      (fun req =>
                         exists q,
                           Dict.get "q" (req_params req) = Some (VStr q)
                           /\ String.prefix (strip query) q = true
                           /\ ((tool_request E "/search/issues" 3 req
                                /\ (lower type = "issues" \/ lower type = "prs")
                                /\ (contains "is:issue" q || contains "is:pr" q) = true
                                /\ (lower type = "prs" -> contains "is:pr" q = true))
                               \/ (tool_request E "/search/code" 3 req
                                   /\ lower type = "code")))
                      (requests_of evs)).
  { intros out Hout. split; [exact Hout|]. exists []. rewrite app_nil_r.
    repeat split; [simpl; lia | constructor]. }
  unfold search.
  destruct (String.eqb (lower type) "issues" || String.eqb (lower type) "prs")
    eqn:Hkind.
  - assert (Hk : lower type = "issues" \/ lower type = "prs").
    { apply orb_true_iff in Hkind.
      destruct Hkind as [H|H]; apply String.eqb_eq in H; tauto. }
    destruct (in_repo S owner repo _) as [msg|q] eqn:Hq.
    { apply Hnone. discriminate. }
    destruct (SearchFacts.in_repo_spec _ _ _ _ _ Hq) as (Hpre & Hsub & _).
    destruct (SearchFacts.qualified_spec (lower type) (strip query))
      as (Hpre0 & Hqual & Hprs).
    destruct (SearchFacts.search_in_requests E "/search/issues" found_issue q limit
                st RequestFacts.found_issue_finishes) as (Hfin & evs & Ht & Hc & Hreq).
    split; [exact Hfin|]. exists evs. split; [exact Ht|]. split; [exact Hc|].
    eapply Forall_impl; [|exact Hreq]. intros req (Htool & Hget).
    exists q. split; [exact Hget|]. split.
    + apply StrFacts.prefix_app in Hpre0. destruct Hpre0 as (r0 & Hr0).
      apply StrFacts.prefix_app in Hpre. destruct Hpre as (r1 & Hr1).
      apply StrFacts.prefix_app. exists (r0 ++ r1).
      now rewrite Hr1, Hr0, StrFacts.append_assoc.
    + left. split; [exact Htool|]. split; [exact Hk|]. split.
      * apply orb_true_iff in Hqual. apply orb_true_iff.
        destruct Hqual as [H|H]; [left | right]; now apply Hsub.
      * intros Hp. apply Hsub. now apply Hprs.
  - destruct (String.eqb_spec (lower type) "code") as [Hcode|Hcode].
    2: { apply Hnone. discriminate. }
    destruct (in_repo S owner repo _) as [msg|q] eqn:Hq.
    { apply Hnone. discriminate. }
    destruct (SearchFacts.in_repo_spec _ _ _ _ _ Hq) as (Hpre & _ & _).
    destruct (SearchFacts.search_in_requests E "/search/code" found_code q limit
                st RequestFacts.found_code_finishes) as (Hfin & evs & Ht & Hc & Hreq).
    split; [exact Hfin|]. exists evs. split; [exact Ht|]. split; [exact Hc|].
    eapply Forall_impl; [|exact Hreq]. intros req (Htool & Hget).
    exists q. split; [exact Hget|]. split; [exact Hpre|].
    right. split; [exact Htool | exact Hcode].
Qed.

(** X18. When [search] looks at the session. Called with neither owner nor
    repository, [search] does not consult the session: the outcome is the
    same for every session and is never the [ValueError] of [_use_repo].
    Called with one of them and a known type, it raises that [ValueError],
    before any request, when the other one is neither given nor stored. With
    a type that is none of [issues], [prs], [code] it returns the error
    dictionary with the stripped query, sends nothing and raises nothing,
    whatever the owner, the repository and the session are. *)
Theorem search_session_use
    (E : Env) (S : session) (st : state) (query type : string) (limit : Z)
    (owner repo : string) :
  (forall S', search E S query type limit "" "" st
              = search E S' query type limit "" "" st)
  /\ (forall msg st', search E S query type limit "" "" st
                      <> (Fails (ValueError msg), st'))
  /\ (lower type = "issues" \/ lower type = "prs" \/ lower type = "code" ->
      owner <> "" \/ repo <> "" ->
      (missing (str_or_none owner) && missing (session_owner S)
       || missing (str_or_none repo) && missing (session_repo S)) = true ->
      search E S query type limit owner repo st
      = (Fails (ValueError no_repo_message), st))
  /\ (lower type <> "issues" -> lower type <> "prs" -> lower type <> "code" ->
      search E S query type limit owner repo st
      = (Done (bad_type_result (strip query)), st)).
Proof.
  split; [|split; [|split]].
  - intros S'. reflexivity.
  - intros msg st'. unfold search, in_repo. simpl.
    destruct (String.eqb (lower type) "issues" || String.eqb (lower type) "prs").
    { apply ToolFacts.run_not_value_error. }
    destruct (String.eqb (lower type) "code"); [|discriminate].
    apply ToolFacts.run_not_value_error.
  - intros Hkind Hgiven Hmiss. unfold search.
    assert (Hin : forall q, in_repo S owner repo q = inl no_repo_message).
    { intros q. unfold in_repo.
      rewrite (ToolFacts.use_repo_missing S _ _ Hmiss).
      destruct (String.eqb_spec owner ""), (String.eqb_spec repo ""); simpl;
        try reflexivity. destruct Hgiven; contradiction. }
    rewrite !Hin.
    destruct Hkind as [Hk|[Hk|Hk]]; rewrite Hk; reflexivity.
  - intros Hi Hp Hc. unfold search.
    apply String.eqb_neq in Hi, Hp, Hc. now rewrite Hi, Hp, Hc.
Qed.

Lemma search_session_use_witness :
  search issues_env initial_session "crash" "Issues" 10 "octo" "" initial_state
  = (Fails (ValueError no_repo_message), initial_state)
  /\ search issues_env initial_session " crash " "wiki" 10 "octo" "" initial_state
     = (Done (bad_type_result "crash"), initial_state).
Proof.
  split.
  - apply (search_session_use issues_env initial_session initial_state "crash"
             "Issues" 10 "octo" "").
    + left. reflexivity.
    + left. discriminate.
    + reflexivity.
  - apply (search_session_use issues_env initial_session initial_state " crash "
             "wiki" 10 "octo" ""); discriminate.
Defined.

(** ** The tools: [summarize_pr] *)

Module SummaryFacts.
Import DictFacts.

(** A result of [_get] with the key [error] is the error dictionary. *)
Lemma get_error_shape E path P st res st' :
  _get E path (Some P) true st = (Val res, st') ->
  Dict.mem "error" res = true ->
  exists r, ok r = false /\ res = error_result path r.
Proof.
  intros Hg Herr. pose proof (RunFacts._get_cases E path P st) as Hc.
  rewrite Hg in Hc. cbn [fst snd] in Hc.
  inversion Hc; subst; try discriminate Herr. now exists r.
Qed.

(** A result of [_get] without the key [error] holds a payload. *)
Lemma get_payload_shape E path P st res st' :
  _get E path (Some P) true st = (Val res, st') ->
  Dict.mem "error" res = false ->
  exists data, Dict.get "data" res = Some data.
Proof.
  intros Hg Herr. pose proof (RunFacts._get_cases E path P st) as Hc.
  rewrite Hg in Hc. cbn [fst snd] in Hc.
  inversion Hc; subst; try discriminate Herr; eexists; reflexivity.
Qed.

Lemma mem_tl k (d : dict) : Dict.mem k d = false -> Dict.mem k (tl d) = false.
Proof.
  destruct d as [|[k' v'] d]; simpl; [trivial|].
  destruct (String.eqb k' k); [discriminate | trivial].
Qed.

Lemma mem_stored_other c key data k :
  k <> key -> Dict.mem k (_d c) = false -> Dict.mem k (stored c key data) = false.
Proof.
  intros Hne Hm.
  assert (H2 : Dict.mem k (Dict.remove key (_d c) ++ [(key, data)]) = false).
  { apply mem_false_get. rewrite get_app, get_remove_other by exact Hne.
    apply mem_false_get in Hm. rewrite Hm. simpl.
    destruct (String.eqb_spec key k); [congruence | reflexivity]. }
  unfold stored. cbv zeta. destruct (Dict.len _ >? maxsize c); [|exact H2].
  now apply mem_tl.
Qed.

Lemma files_key_differs base :
  _cache_key (base ++ "/files") [] <> _cache_key base [].
Proof.
  unfold _cache_key. rewrite StrFacts.append_assoc. intros H.
  apply StrFacts.append_inv_head in H. discriminate H.
Qed.

(** The summary built from a payload. *)
Lemma pr_summary_shape p files res :
  pr_summary p files = Val res ->
  exists header changes risks steps,
    res = [("header", VDict header); ("changes", VDict changes);
           ("risks", VList risks); ("next_steps", VList steps)]
    /\ Dict.keys header = ["title"; "author"; "state"; "mergeable"]
    /\ Dict.keys changes = ["files_changed"; "additions"; "deletions"; "filenames"]
    /\ steps <> []
    /\ (In (VStr "Merge conflicts") risks
        <-> In (VStr "Rebase/resolve conflicts") steps)
    /\ (In (VStr "Draft PR") risks <-> In (VStr "Mark ready for review") steps)
    /\ (In (VStr "Request/collect reviews") steps
        <-> ~ In (VStr "Merge conflicts") risks /\ ~ In (VStr "Draft PR") risks)
    /\ (files = VList [] -> ~ In (VStr "Config changes included") risks).
Proof.
  unfold pr_summary. destruct p; try discriminate. cbn [py_get rbind].
  destruct (py_get (py_or _ (VDict [])) "login" VNone) as [author| |];
    try discriminate. cbn [rbind].
  destruct (iter files) as [fs| |] eqn:Hfs; try discriminate. cbn [rbind].
  destruct (map_result _ fs) as [filenames| |] eqn:Hmap; try discriminate.
  cbn [rbind].
  destruct (sum_above _ _ 1500) as [large| |]; try discriminate. cbn [rbind].
  destruct (any_result is_config_file filenames) as [config| |] eqn:Hany;
    try discriminate. cbn [rbind].
  intros H. injection H as <-. eexists _, _, _, _.
  split; [reflexivity|]. split; [reflexivity|]. split; [reflexivity|].
  assert (Hconfig : files = VList [] -> config = false).
  { intros ->. injection Hfs as <-. simpl in Hmap. injection Hmap as <-.
    simpl in Hany. now injection Hany as <-. }
  destruct (truthy _), (is_False _), large, config; simpl;
    (split; [discriminate|]);
    intuition (discriminate || congruence || idtac).
Qed.

End SummaryFacts.

(** X19. A pull request that cannot be fetched. When the pull request is
    not answered by the cache and the response is not [ok],
    [summarize_pr] returns the error dictionary of that response after this
    single request: the files are not requested and nothing is cached. *)
Theorem summarize_pr_failure
    (E : Env) (S : session) (st : state) (number : Z) (owner repo o r : string)
    (resp : response) :
  _use_repo S (str_or_none owner) (str_or_none repo) = inr (o, r) ->
  (forall v,
     Dict.get (_cache_key ("/repos/" ++ o ++ "/" ++ r ++ "/pulls/"
                           ++ str_of_int number) [])
       (_d (CACHE st)) = Some v -> v = VNone) ->
  transport E (requests_of (trace st))
    (the_request E ("/repos/" ++ o ++ "/" ++ r ++ "/pulls/" ++ str_of_int number) [])
  = Reply resp ->
  ok resp = false ->
  exists st',
    summarize_pr E S number owner repo st
    = (Done (error_result
               ("/repos/" ++ o ++ "/" ++ r ++ "/pulls/" ++ str_of_int number) resp),
       st')
    /\ trace st'
       = (trace st
          ++ [EvRequest
                (the_request E
                   ("/repos/" ++ o ++ "/" ++ r ++ "/pulls/" ++ str_of_int number)
                   [])])%list
    /\ forall k, Dict.get k (_d (CACHE st')) = Dict.get k (_d (CACHE st)).
Proof.
  intros Huse Hmiss Ht Hok.
  set (base := "/repos/" ++ o ++ "/" ++ r ++ "/pulls/" ++ str_of_int number) in *.
  destruct (PagerFacts.failing_get E base [] st resp Hmiss Ht Hok) as (c & Hg & _).
  pose proof (RunFacts._get_cases E base [] st) as Hc.
  rewrite Hg in Hc. cbn [fst snd] in Hc.
  assert (Hsame : forall k, Dict.get k (_d c) = Dict.get k (_d (CACHE st))).
  { inversion Hc; subst; assumption. }
  unfold summarize_pr. rewrite Huse. unfold run, summarize_pr_in, bind.
  fold base. rewrite Hg.
  change (Dict.mem "error" (error_result base resp)) with true. cbv iota.
  unfold ret. eexists. split; [reflexivity|]. split; [reflexivity | exact Hsame].
Qed.

Lemma summarize_pr_failure_witness :
  exists st',
    summarize_pr not_found_env (fst (connect_repo "octo" "demo")) 7 "" ""
      initial_state
    = (Done (error_result "/repos/octo/demo/pulls/7" not_found_response), st')
    /\ trace st'
       = [EvRequest (the_request not_found_env "/repos/octo/demo/pulls/7" [])]
    /\ forall k, Dict.get k (_d (CACHE st')) = Dict.get k (_d (CACHE initial_state)).
Proof.
  apply (summarize_pr_failure not_found_env (fst (connect_repo "octo" "demo"))
           initial_state 7 "" "" "octo" "demo" not_found_response).
  - reflexivity.
  - intros v H. discriminate H.
  - reflexivity.
  - reflexivity.
Defined.

(** X20. The summary of a pull request. When [summarize_pr] returns, the
    result is either the error dictionary of the failed request for the pull
    request, or the dictionary [{header, changes, risks, next_steps}] in
    which [next_steps] is never empty, the risk [Merge conflicts] comes with
    the step [Rebase/resolve conflicts] and the risk [Draft PR] with the step
    [Mark ready for review], each exactly when the other is there, and the
    step [Request/collect reviews] is there exactly when neither risk is. *)
Theorem summarize_pr_output
    (E : Env) (S : session) (st st' : state) (number : Z) (owner repo : string)
    (res : dict) :
  summarize_pr E S number owner repo st = (Done res, st') ->
  (exists path r, ok r = false /\ res = error_result path r)
  \/ (exists header changes risks steps,
        res = [("header", VDict header); ("changes", VDict changes);
               ("risks", VList risks); ("next_steps", VList steps)]
        /\ Dict.keys header = ["title"; "author"; "state"; "mergeable"]
        /\ Dict.keys changes
           = ["files_changed"; "additions"; "deletions"; "filenames"]
        /\ steps <> []
        /\ (In (VStr "Merge conflicts") risks
            <-> In (VStr "Rebase/resolve conflicts") steps)
        /\ (In (VStr "Draft PR") risks <-> In (VStr "Mark ready for review") steps)
        /\ (In (VStr "Request/collect reviews") steps
            <-> ~ In (VStr "Merge conflicts") risks
                /\ ~ In (VStr "Draft PR") risks)).
Proof.
  unfold summarize_pr.
  destruct (_use_repo S _ _) as [msg|[o r]]; [discriminate|].
  unfold run, summarize_pr_in, bind.
  set (base := "/repos/" ++ o ++ "/" ++ r ++ "/pulls/" ++ str_of_int number).
  destruct (_get E base (Some []) true st) as [[pr|e|] st1] eqn:Hpr;
    try discriminate.
  destruct (Dict.mem "error" pr) eqn:Herr.
  { unfold ret. intros H. injection H as <- <-. left. exists base.
    exact (SummaryFacts.get_error_shape _ _ _ _ _ _ Hpr Herr). }
  destruct (_get E (base ++ "/files") (Some []) true st1) as [[files|e|] st2];
    try discriminate.
  unfold lift.
  destruct (getitem "data" pr) as [p|e|]; try discriminate.
  destruct (getitem "data" _) as [fdata|e|]; try discriminate.
  destruct (pr_summary p fdata) as [res'|e|] eqn:Hsum; try discriminate.
  intros H. injection H as <- <-. right.
  destruct (SummaryFacts.pr_summary_shape _ _ _ Hsum)
    as (header & changes & risks & steps & H1 & H2 & H3 & H4 & H5 & H6 & H7 & _).
  exists header, changes, risks, steps.
  split; [exact H1|]. split; [exact H2|]. split; [exact H3|].
  split; [exact H4|]. split; [exact H5|]. split; [exact H6 | exact H7].
Qed.

Lemma summarize_pr_output_witness :
  let res :=
    [("header",
       VDict [("title", VStr "Fix"); ("author", VNone); ("state", VNone);
              ("mergeable", VBool false)]);
     ("changes",
       VDict [("files_changed", VNone); ("additions", VInt 10);
              ("deletions", VInt 2); ("filenames", VList [])]);
     ("risks", VList [VStr "Merge conflicts"]);
     ("next_steps", VList [VStr "Rebase/resolve conflicts"])] in
  (exists path r, ok r = false /\ res = error_result path r)
  \/ (exists header changes risks steps,
        res = [("header", VDict header); ("changes", VDict changes);
               ("risks", VList risks); ("next_steps", VList steps)]
        /\ Dict.keys header = ["title"; "author"; "state"; "mergeable"]
        /\ Dict.keys changes
           = ["files_changed"; "additions"; "deletions"; "filenames"]
        /\ steps <> []
        /\ (In (VStr "Merge conflicts") risks
            <-> In (VStr "Rebase/resolve conflicts") steps)
        /\ (In (VStr "Draft PR") risks <-> In (VStr "Mark ready for review") steps)
        /\ (In (VStr "Request/collect reviews") steps
            <-> ~ In (VStr "Merge conflicts") risks
                /\ ~ In (VStr "Draft PR") risks)).
Proof.
  intros res.
  apply (summarize_pr_output pr_env (fst (connect_repo "octo" "demo"))
           initial_state
           (snd (summarize_pr pr_env (fst (connect_repo "octo" "demo")) 7 "" ""
                   initial_state))
           7 "" "").
  vm_compute. reflexivity.
Defined.

(** X21. Files that cannot be fetched are left out. When the pull request
    is fetched with the payload [p] and the request for its files is
    answered with a response that is not [ok], [summarize_pr] does not fail
    for it: it ends as the summary of [p] with no files does, after the two
    requests and the cache write of [p]; such a summary has no risk
    [Config changes included]. *)
Theorem summarize_pr_without_files
    (E : Env) (S : session) (st : state) (number : Z) (owner repo o r : string)
    (r1 r2 : response) (p : value) :
  _use_repo S (str_or_none owner) (str_or_none repo) = inr (o, r) ->
  (forall v,
     Dict.get (_cache_key ("/repos/" ++ o ++ "/" ++ r ++ "/pulls/"
                           ++ str_of_int number) [])
       (_d (CACHE st)) = Some v -> v = VNone) ->
  Dict.mem (_cache_key (("/repos/" ++ o ++ "/" ++ r ++ "/pulls/"
                         ++ str_of_int number) ++ "/files") [])
    (_d (CACHE st)) = false ->
  transport E (requests_of (trace st))
    (the_request E ("/repos/" ++ o ++ "/" ++ r ++ "/pulls/" ++ str_of_int number) [])
  = Reply r1 ->
  ok r1 = true ->
  json r1 = Some p ->
  transport E
    (requests_of (trace st)
     ++ [the_request E
           ("/repos/" ++ o ++ "/" ++ r ++ "/pulls/" ++ str_of_int number) []])
    (the_request E
       (("/repos/" ++ o ++ "/" ++ r ++ "/pulls/" ++ str_of_int number) ++ "/files")
       [])
  = Reply r2 ->
  ok r2 = false ->
  exists st',
    summarize_pr E S number owner repo st = run (lift (pr_summary p (VList []))) st'
    /\ trace st'
       = (trace st
          ++ [EvRequest
                (the_request E
                   ("/repos/" ++ o ++ "/" ++ r ++ "/pulls/" ++ str_of_int number)
                   []);
              EvCacheSet
                (_cache_key
                   ("/repos/" ++ o ++ "/" ++ r ++ "/pulls/" ++ str_of_int number)
                   []) p;
              EvRequest
                (the_request E
                   (("/repos/" ++ o ++ "/" ++ r ++ "/pulls/" ++ str_of_int number)
                    ++ "/files") [])])%list
    /\ forall res risks,
         pr_summary p (VList []) = Val res ->
         Dict.get "risks" res = Some (VList risks) ->
         ~ In (VStr "Config changes included") risks.
Proof.
  intros Huse Hmiss Hfiles Ht1 Hok1 Hj Ht2 Hok2.
  set (base := "/repos/" ++ o ++ "/" ++ r ++ "/pulls/" ++ str_of_int number) in *.
  pose proof (PageFacts.fresh_get E base [] st r1 p Hmiss Ht1 Hok1 Hj) as Hg1.
  set (st1 := mkState (mkLRU (maxsize (CACHE st))
                         (stored (CACHE st) (_cache_key base []) p))
                (trace st ++ [EvRequest (the_request E base []);
                              EvCacheSet (_cache_key base []) p])) in *.
  assert (Habsent : Dict.get (_cache_key (base ++ "/files") []) (_d (CACHE st1))
                    = None).
  { apply DictFacts.mem_false_get. cbn [st1 CACHE _d].
    apply SummaryFacts.mem_stored_other;
      [apply SummaryFacts.files_key_differs | exact Hfiles]. }
  assert (Hg2 : _get E (base ++ "/files") (Some []) true st1
                = (Val (error_result (base ++ "/files") r2),
                   mkState (CACHE st1)
                     (trace st1
                      ++ [EvRequest (the_request E (base ++ "/files") [])]))).
  { rewrite (GetFacts._get_absent E (base ++ "/files") (Some []) st1 Habsent).
    apply GetFacts.fetch_not_ok; [|exact Hok2].
    cbn [st1 trace or_empty]. rewrite PagerFacts.requests_of_app. simpl.
    exact Ht2. }
  unfold summarize_pr. rewrite Huse. unfold run at 1, summarize_pr_in, bind.
  fold base. rewrite Hg1.
  change (Dict.mem "error" (fresh_result p r1)) with false. cbv beta iota.
  rewrite Hg2.
  change (Dict.mem "error" (error_result (base ++ "/files") r2)) with true.
  cbv beta iota. unfold lift.
  change (getitem "data" (fresh_result p r1)) with (Val p).
  change (getitem "data" [("data", VList [])]) with (Val (VList [])).
  cbv beta iota.
  eexists. split; [|split].
  - unfold run, lift. reflexivity.
  - cbn [trace st1]. rewrite <- app_assoc. reflexivity.
  - intros res risks Hsum Hrisks.
    destruct (SummaryFacts.pr_summary_shape _ _ _ Hsum)
      as (header & changes & risks' & steps & -> & _ & _ & _ & _ & _ & _ & Hno).
    simpl in Hrisks. injection Hrisks as <-. now apply Hno.
Qed.

Lemma summarize_pr_without_files_witness :
  exists st',
    summarize_pr pr_env (fst (connect_repo "octo" "demo")) 7 "" "" initial_state
    = run (lift (pr_summary
                   (VDict [("title", VStr "Fix"); ("mergeable", VBool false);
                           ("additions", VInt 10); ("deletions", VInt 2)])
                   (VList []))) st'
    /\ List.length (requests_of (trace st')) = 2%nat.
Proof.
  destruct (summarize_pr_without_files pr_env (fst (connect_repo "octo" "demo"))
              initial_state 7 "" "" "octo" "demo"
              (json_response 200 []
                 (VDict [("title", VStr "Fix"); ("mergeable", VBool false);
                         ("additions", VInt 10); ("deletions", VInt 2)]))
              (mkResponse 500 "Server Error" [] None)
              (VDict [("title", VStr "Fix"); ("mergeable", VBool false);
                      ("additions", VInt 10); ("deletions", VInt 2)]))
    as (st' & Hrun & Htrace & _).
  - reflexivity.
  - intros v H. discriminate H.
  - reflexivity.
  - reflexivity.
  - reflexivity.
  - reflexivity.
  - reflexivity.
  - reflexivity.
  - exists st'. split; [exact Hrun|]. rewrite Htrace. reflexivity.
Defined.

(** ** The tools: the files [find_todos] reads *)

Module WantedFacts.

Lemma startswith_dir_contains path p :
  startswith path (p ++ "/") = true -> contains "/" path = true.
Proof.
  unfold startswith. intros H. apply StrFacts.prefix_app in H.
  destruct H as (r & ->). apply SearchFacts.contains_spec.
  exists p, r. now rewrite StrFacts.append_assoc.
Qed.

End WantedFacts.

(** X22. The default paths of the filter. With no [paths], or with an
    empty list of them, the filter [_wanted] that [find_todos] applies to the
    path of a file before fetching it accepts a path exactly when the path
    ends with one of the text extensions and starts with [src/], [app/] or
    [./]: the default entry [.] lets through the paths that start with [./],
    not every path. *)
Theorem wanted_default_paths (path : string) :
  wanted_paths (Some []) = wanted_paths None
  /\ (_wanted (wanted_paths None) path = true
      <-> endswith_any path _TEXT_EXTS = true
          /\ (startswith path "src/" = true
              \/ startswith path "app/" = true
              \/ startswith path "./" = true)).
Proof.
  split; [reflexivity|].
  unfold _wanted, wanted_paths. cbn [existsb].
  change (rstrip_of is_slash "src" ++ "/") with "src/".
  change (rstrip_of is_slash "app" ++ "/") with "app/".
  change (rstrip_of is_slash "." ++ "/") with "./".
  rewrite orb_false_r, andb_true_iff, !orb_true_iff.
  split.
  - intros (Hext & H). split; [exact Hext|].
    destruct H as [[H|H]|[[H|H]|[H|H]]]; try tauto;
      apply String.eqb_eq in H; subst path; discriminate Hext.
  - intros (Hext & H). split; [exact Hext|]. tauto.
Qed.

(** X23. A file at the top level. A path without [/] is read only if it
    ends with a text extension and is itself one of the wanted paths; with
    the default paths no such file is read. *)
Theorem wanted_top_level (wanted : list string) (path : string) :
  contains "/" path = false ->
  (_wanted wanted path = true ->
   endswith_any path _TEXT_EXTS = true /\ In path wanted)
  /\ _wanted (wanted_paths None) path = false.
Proof.
  intros Hno.
  assert (Hgen : forall w, _wanted w path = true ->
                           endswith_any path _TEXT_EXTS = true /\ In path w).
  { intros w H. unfold _wanted in H. apply andb_true_iff in H.
    destruct H as (Hext & Hex). split; [exact Hext|].
    apply existsb_exists in Hex. destruct Hex as (p & Hin & Hp).
    apply orb_true_iff in Hp. destruct Hp as [Hp|Hp].
    - apply String.eqb_eq in Hp. now subst p.
    - apply WantedFacts.startswith_dir_contains in Hp. congruence. }
  split; [apply Hgen|].
  destruct (_wanted (wanted_paths None) path) eqn:Hw; [|reflexivity].
  destruct (Hgen _ Hw) as (Hext & Hin).
  simpl in Hin. destruct Hin as [<-|[<-|[<-|[]]]]; discriminate Hext.
Qed.

Lemma wanted_top_level_witness :
  (_wanted ["README.md"; "docs"] "README.md" = true ->
   endswith_any "README.md" _TEXT_EXTS = true
   /\ In "README.md" ["README.md"; "docs"])
  /\ _wanted (wanted_paths None) "README.md" = false.
Proof.
  apply (wanted_top_level ["README.md"; "docs"] "README.md"). reflexivity.
Defined.
